(** * Dome9 SDK: request dispatch and argument validation

    A shallow embedding of [dome9_sdk_python/dome9_api_sdk.py] (class
    [Dome9APISDK]) and of the legacy [dome9/client.py] (class [Client]),
    together with the parts of the Python runtime they rely on: [re.match],
    [urllib.parse.urljoin] and the [requests] exception hierarchy. *)

From Stdlib Require Import ZArith NArith List String Ascii Bool Lia DecimalString.
Import ListNotations.

Set Implicit Arguments.

(** ** Python strings

    A Python [str] is a sequence of Unicode code points. ASCII literals of
    the source are written [u "..."]. *)

Definition codepoint := N.
Definition str := list codepoint.

Definition chr (a : ascii) : codepoint := N_of_ascii a.
Definition u (s : string) : str := map chr (list_ascii_of_string s).

Definition str_eqb (a b : str) : bool :=
  if list_eq_dec N.eq_dec a b then true else false.

Definition LF : codepoint := 10%N.

(** ** Character classes of [re] on [str] patterns *)

Definition charset := codepoint -> bool.

Definition one (a : ascii) : charset := fun c => N.eqb c (chr a).
Definition rng (lo hi : ascii) : charset :=
  fun c => N.leb (chr lo) c && N.leb c (chr hi).
Definition any_of (ps : list charset) : charset :=
  fun c => existsb (fun p => p c) ps.
Definition none_of (ps : list charset) : charset :=
  fun c => negb (any_of ps c).

(** Code points of the zero digit of every decimal-digit block (general
    category Nd, Unicode 14.0, the database of CPython 3.11): [\d] on a
    [str] pattern is [Py_UNICODE_ISDECIMAL]. Each block is ten consecutive
    code points, in the order of their values. *)
Definition decimal_zeros : list N :=
  [48; 1632; 1776; 1984; 2406; 2534; 2662; 2790; 2918; 3046; 3174; 3302;
   3430; 3558; 3664; 3792; 3872; 4160; 4240; 6112; 6160; 6470; 6608; 6784;
   6800; 6992; 7088; 7232; 7248; 42528; 43216; 43264; 43472; 43504; 43600;
   44016; 65296; 66720; 68912; 69734; 69872; 69942; 70096; 70384; 70736;
   70864; 71248; 71360; 71472; 71904; 72016; 72784; 73040; 73120; 92768;
   92864; 93008; 120782; 120792; 120802; 120812; 120822; 123200; 123632;
   125264; 130032]%N.

(** [\d] *)
Definition digit : charset :=
  fun c => existsb (fun z => N.leb z c && N.ltb c (z + 10)) decimal_zeros.

(** Code points on which [str.isspace] holds: [\s] is [Py_UNICODE_ISSPACE]. *)
Definition unicode_spaces : list N :=
  [9; 10; 11; 12; 13; 28; 29; 30; 31; 32; 133; 160; 5760; 8192; 8193; 8194;
   8195; 8196; 8197; 8198; 8199; 8200; 8201; 8202; 8232; 8233; 8239; 8287;
   12288]%N.

(** [\S] *)
Definition nonspace : charset :=
  fun c => negb (existsb (N.eqb c) unicode_spaces).

(** ** Regular expressions and [re.match]

    The constructs that occur in the patterns of the validators. *)

Inductive regex : Type :=
| Eps
| Cls (p : charset)                              (* one character of a class *)
| Cat (r1 r2 : regex)                            (* r1 r2 *)
| Alt (r1 r2 : regex)                            (* r1|r2 *)
| Rep (r : regex) (lo : nat) (hi : option nat)   (* r{lo,hi}; no hi: {lo,} *)
| Bos                                            (* ^ *)
| Eos.                                           (* $ *)

Declare Scope regex_scope.
Delimit Scope regex_scope with re.
Bind Scope regex_scope with regex.
Infix "+>" := Cat (at level 61, right associativity) : regex_scope.
Infix "<|>" := Alt (at level 62, right associativity) : regex_scope.

Definition Chr (a : ascii) : regex := Cls (one a).
Definition Star (r : regex) : regex := Rep r 0 None.
Definition Plus (r : regex) : regex := Rep r 1 None.
Definition Opt (r : regex) : regex := Rep r 0 (Some 1).
Definition Times (r : regex) (n : nat) : regex := Rep r n (Some n).
Definition Lit (s : string) : regex :=
  fold_right (fun a r => Cat (Chr a) r) Eps (list_ascii_of_string s).

(** The matcher is written in continuation-passing style, as the backtracking
    engine of [re] explores every way to match: [k] is what remains to be
    matched. The flag [bos] tells whether the position is the start of the
    string. Conjunctions and disjunctions are written with [if], which
    evaluates its branches on demand. *)
Definition cont := bool -> str -> bool.

(** [$] without MULTILINE: at the end, or before a line feed that ends the
    string. *)
Definition at_eos (s : str) : bool :=
  match s with
  | [] => true
  | [c] => N.eqb c LF
  | _ => false
  end.

(** [r{lo,..}] with at most [fuel] iterations of [mr], the matcher of [r]. *)
Fixpoint rep (mr : bool -> str -> cont -> bool) (k : cont)
             (fuel lo : nat) (bos : bool) (s : str) {struct fuel} : bool :=
  match lo with
  | O =>
      if k bos s then true
      else match fuel with
           | O => false
           | S f => mr bos s (fun b s' => rep mr k f O b s')
           end
  | S lo' =>
      match fuel with
      | O => false
      | S f => mr bos s (fun b s' => rep mr k f lo' b s')
      end
  end.

(** An unbounded repetition is run for at most [lo + length s] iterations:
    an iteration that consumes nothing leaves the position as it was, so
    that more iterations match nothing more (lemma [den_Rep] below). *)
Fixpoint m (r : regex) (bos : bool) (s : str) (k : cont) {struct r} : bool :=
  match r with
  | Eps => k bos s
  | Cls p =>
      match s with
      | [] => false
      | c :: s' => if p c then k false s' else false
      end
  | Cat r1 r2 => m r1 bos s (fun b s' => m r2 b s' k)
  | Alt r1 r2 => if m r1 bos s k then true else m r2 bos s k
  | Rep r lo hi =>
      rep (m r) k (match hi with Some h => h | None => lo + List.length s end)
          lo bos s
  | Bos => if bos then k bos s else false
  | Eos => if at_eos s then k bos s else false
  end.

(** [re.match(pattern, s)] on a [str]: the pattern has to match at the start
    of [s]; what follows the match is not looked at. *)
Definition re_match (pattern : regex) (s : str) : bool :=
  m pattern true s (fun _ _ => true).

(** *** The patterns of the validators *)

Definition hex : regex := Cls (any_of [rng "0" "9"; rng "a" "f"]).
Definition alnum : charset := any_of [rng "a" "z"; rng "A" "Z"; rng "0" "9"].
Definition alnum_dash : charset :=
  any_of [rng "a" "z"; rng "A" "Z"; rng "0" "9"; one "-"].
Definition alpha : charset := any_of [rng "a" "z"; rng "A" "Z"].
Definition d : regex := Cls digit.
Definition not_colon : regex := Cls (none_of [one ":"]).

(** "^[0-9a-f]{8}-[0-9a-f]{4}-[0-9a-f]{4}-[0-9a-f]{4}-[0-9a-f]{12}$" *)
Definition UUID_PATTERN : regex :=
  (Bos +> Times hex 8 +> Chr "-" +> Times hex 4 +> Chr "-" +> Times hex 4 +>
   Chr "-" +> Times hex 4 +> Chr "-" +> Times hex 12 +> Eos)%re.

(** "^[0-9a-z]+$" *)
Definition LOWER_ALNUM_PATTERN : regex :=
  (Bos +> Plus (Cls (any_of [rng "0" "9"; rng "a" "z"])) +> Eos)%re.

(** "(\d)|([1-9]\d)|(1\d{2})|(2[0-4]\d)|(25[0-5])" *)
Definition OCTET : regex :=
  (d <|> (Cls (rng "1" "9") +> d) <|> (Chr "1" +> Times d 2)
     <|> (Chr "2" +> Cls (rng "0" "4") +> d)
     <|> (Chr "2" +> Chr "5" +> Cls (rng "0" "5")))%re.

(** "^((octet)\.){3}(octet)$", the pattern of [_checkIsIP]. *)
Definition IP_PATTERN : regex :=
  (Bos +> Times (OCTET +> Chr ".") 3 +> OCTET +> Eos)%re.

(** The host of an HTTP URL:
    "([a-zA-Z0-9]([a-zA-Z0-9-]{0,61}[a-zA-Z0-9])?\.)+([a-zA-Z]{2,6}\.?|[a-zA-Z0-9-]{2,}\.?)|localhost|\d{1,3}\.\d{1,3}\.\d{1,3}\.\d{1,3}" *)
Definition HTTP_URL_HOST : regex :=
  ((Plus (Cls alnum +>
          Opt (Rep (Cls alnum_dash) 0 (Some 61) +> Cls alnum) +> Chr ".") +>
    ((Rep (Cls alpha) 2 (Some 6) +> Opt (Chr "."))
     <|> (Rep (Cls alnum_dash) 2 None +> Opt (Chr "."))))
   <|> Lit "localhost"
   <|> (Rep d 1 (Some 3) +> Chr "." +> Rep d 1 (Some 3) +> Chr "." +>
        Rep d 1 (Some 3) +> Chr "." +> Rep d 1 (Some 3)))%re.

(** "^(http)s?://(host)(:\d+)?(/?|[/?]\S+)$" *)
Definition HTTP_URL_PATTERN : regex :=
  (Bos +> Lit "http" +> Opt (Chr "s") +> Lit "://" +> HTTP_URL_HOST +>
   Opt (Chr ":" +> Plus d) +>
   (Opt (Chr "/") <|> (Cls (any_of [one "/"; one "?"]) +> Plus (Cls nonspace))) +>
   Eos)%re.

(** "^arn:aws[^:]*:[^:]*:[^:]*:[^:]*:[^:]*", then the optional group
    ":[^:]*", then "$". *)
Definition ARN_PATTERN : regex :=
  (Bos +> Lit "arn:aws" +> Star not_colon +> Chr ":" +> Star not_colon +>
   Chr ":" +> Star not_colon +> Chr ":" +> Star not_colon +> Chr ":" +>
   Star not_colon +> Opt (Chr ":" +> Star not_colon) +> Eos)%re.

(** "^((0\.)|([1-9]\d*\.))?((\d)|(1\d)|(2[0-4])):((\d)|([1-5]\d)):((\d)|([1-5]\d))$" *)
Definition DURATION_PATTERN : regex :=
  (Bos +>
   Opt ((Chr "0" +> Chr ".") <|> (Cls (rng "1" "9") +> Star d +> Chr ".")) +>
   (d <|> (Chr "1" +> d) <|> (Chr "2" +> Cls (rng "0" "4"))) +> Chr ":" +>
   (d <|> (Cls (rng "1" "5") +> d)) +> Chr ":" +>
   (d <|> (Cls (rng "1" "5") +> d)) +> Eos)%re.

(** "^[a-zA-Z0-9_.+-]+@[a-zA-Z0-9-]+\.[a-zA-Z0-9-.]+$" *)
Definition EMAIL_PATTERN : regex :=
  (Bos +>
   Plus (Cls (any_of [rng "a" "z"; rng "A" "Z"; rng "0" "9"; one "_"; one ".";
                      one "+"; one "-"])) +>
   Chr "@" +> Plus (Cls alnum_dash) +> Chr "." +>
   Plus (Cls (any_of [rng "a" "z"; rng "A" "Z"; rng "0" "9"; one "-"; one "."])) +>
   Eos)%re.

(** "^\d{12}$" *)
Definition TWELVE_DIGITS_PATTERN : regex := (Bos +> Times d 12 +> Eos)%re.

(** ** Python values, exceptions and results *)

Definition bytes := list Byte.byte.

(** The values that travel through the SDK: what [json] decodes to, the
    bodies and query parameters handed to [requests], members of the [Enum]
    classes of [dome9_api_consts] (with their [.value]) and the set built by
    [getCloudAccountRegions] (kept as the sequence of its insertions).
    [VNone] is [None]: it is also what a function returns when it ends
    without a [return]. *)
#[warnings="-register-all"]
Inductive value : Type :=
| VNone
| VBool (b : bool)
| VInt (z : Z)
| VFloat (bits : N)
| VStr (s : str)
| VList (l : list value)
| VDict (items : list (str * value))
| VEnum (name : str) (val : value)
| VSet (l : list value).

(** The classes of [requests.exceptions]. *)
Inductive requests_exception : Type :=
| RequestException | InvalidJSONError | JSONDecodeError | HTTPError
| ConnectionError | ProxyError | SSLError | Timeout | ConnectTimeout
| ReadTimeout | URLRequired | TooManyRedirects | MissingSchema
| InvalidSchema | InvalidURL | InvalidProxyURL | InvalidHeader
| ChunkedEncodingError | ContentDecodingError | StreamConsumedError
| RetryError | UnrewindableBodyError.

(** [isinstance(e, requests.ConnectionError)]: the class and its subclasses
    [ProxyError], [SSLError] and [ConnectTimeout]. *)
Definition is_ConnectionError (c : requests_exception) : bool :=
  match c with
  | ConnectionError | ProxyError | SSLError | ConnectTimeout => true
  | _ => false
  end.

(** [Dome9APIException(message, code=None, content=None)] is the class of
    [dome9/exceptions.py]. [RequestsError c text] is an exception of class
    [c] of [requests] whose [str] is [text]. *)
Inductive exn : Type :=
| ValueError
| TypeError
| AttributeError
| KeyError
| RequestsError (cls : requests_exception) (text : str)
| Dome9APIException (message : str) (code : option Z) (content : option bytes).

Inductive result (A : Type) : Type :=
| Return (a : A)
| Raise (e : exn).
Arguments Return {A} a.
Arguments Raise {A} e.

Definition is_None {A : Type} (x : option A) : bool :=
  match x with None => true | Some _ => false end.

(** [match(pattern, arg)] as a truth value; on [None] it raises [TypeError]
    (expected string or bytes-like object). *)
Definition py_match (pattern : regex) (arg : option str) : result bool :=
  match arg with
  | None => Raise TypeError
  | Some s => Return (re_match pattern s)
  end.

(** [arg < n] and [arg > n] on an [int]; [None] is not ordered: [TypeError]. *)
Definition py_lt (arg : option Z) (n : Z) : result bool :=
  match arg with
  | None => Raise TypeError
  | Some z => Return (Z.ltb z n)
  end.

Definition py_gt (arg : option Z) (n : Z) : result bool :=
  match arg with
  | None => Raise TypeError
  | Some z => Return (Z.gtb z n)
  end.

(** ** The validators (static methods of [Dome9APISDK]) *)

Definition _checkIsUUID (arg : option str) (optional : bool) : result unit :=
  if optional && is_None arg then Return tt
  else match py_match UUID_PATTERN arg with
       | Raise e => Raise e
       | Return found => if negb found then Raise ValueError else Return tt
       end.

Definition _checkOnlyContainsLowercaseAlphanumeric
           (arg : option str) (optional : bool) : result unit :=
  if optional && is_None arg then Return tt
  else match py_match LOWER_ALNUM_PATTERN arg with
       | Raise e => Raise e
       | Return found => if negb found then Raise ValueError else Return tt
       end.

Definition _checkIsHTTPURL (arg : option str) (optional : bool) : result unit :=
  if optional && is_None arg then Return tt
  else match py_match HTTP_URL_PATTERN arg with
       | Raise e => Raise e
       | Return found => if negb found then Raise ValueError else Return tt
       end.

Definition _checkIsARN (arg : option str) (optional : bool) : result unit :=
  if optional && is_None arg then Return tt
  else match py_match ARN_PATTERN arg with
       | Raise e => Raise e
       | Return found => if negb found then Raise ValueError else Return tt
       end.

Definition _checkIsIP (arg : option str) (optional : bool) : result unit :=
  if optional && is_None arg then Return tt
  else match py_match IP_PATTERN arg with
       | Raise e => Raise e
       | Return found => if negb found then Raise ValueError else Return tt
       end.

Definition _checkIsDuration (arg : option str) (optional : bool) : result unit :=
  if optional && is_None arg then Return tt
  else match py_match DURATION_PATTERN arg with
       | Raise e => Raise e
       | Return found => if negb found then Raise ValueError else Return tt
       end.

Definition _checkIsEmail (arg : option str) (optional : bool) : result unit :=
  if optional && is_None arg then Return tt
  else match py_match EMAIL_PATTERN arg with
       | Raise e => Raise e
       | Return found => if negb found then Raise ValueError else Return tt
       end.

(** [not match(twelve digits) and not match(uuid)]: the second match is
    only tried when the first finds nothing. *)
Definition _checkIsUUIDOr12Digits (arg : option str) (optional : bool)
  : result unit :=
  if optional && is_None arg then Return tt
  else match py_match TWELVE_DIGITS_PATTERN arg with
       | Raise e => Raise e
       | Return true => Return tt
       | Return false =>
           match py_match UUID_PATTERN arg with
           | Raise e => Raise e
           | Return found => if negb found then Raise ValueError else Return tt
           end
       end.

Definition _checkIsNotNegative (arg : option Z) (optional : bool)
  : result unit :=
  if optional && is_None arg then Return tt
  else match py_lt arg 0 with
       | Raise e => Raise e
       | Return negative => if negative then Raise ValueError else Return tt
       end.

(** [arg == ''] is [False] on [None]: nothing is raised. *)
Definition _checkIsNotEmpty (arg : option str) (optional : bool) : result unit :=
  if optional && is_None arg then Return tt
  else match arg with
       | Some [] => Raise ValueError
       | _ => Return tt
       end.

(** [arg < 0 or arg > 65535] *)
Definition _checkIsPort (arg : option Z) (optional : bool) : result unit :=
  if optional && is_None arg then Return tt
  else match py_lt arg 0 with
       | Raise e => Raise e
       | Return true => Raise ValueError
       | Return false =>
           match py_gt arg 65535 with
           | Raise e => Raise e
           | Return above => if above then Raise ValueError else Return tt
           end
       end.

(** ** What lies outside the SDK

    A call of a function of [requests] is recorded with its arguments. It
    returns a response or raises. *)

Record HTTPBasicAuth : Type := mkAuth { username : str; password : str }.

Record Call : Type := mkCall {
  c_verb : str;                    (* the name of the function of [requests] *)
  c_url : str;
  c_json : value;
  c_params : value;
  c_headers : list (str * str);
  c_auth : HTTPBasicAuth }.

(** [as_json] is what [response.json()] does: it raises [ValueError] with a
    message, or returns the decoded value. *)
Record Response : Type := mkResponse {
  status_code : Z;
  reason : str;
  content : bytes;
  as_json : str + value }.

Inductive outcome : Type :=
| Responded (r : Response)
| Raised (e : exn).

(** The surroundings of a run: the remote side, which answers a call knowing
    the calls made before it, and two functions of the standard library that
    [urllib.parse.urlsplit] relies on, [unicodedata.normalize('NFKC', s)]
    and whether [_check_bracketed_host] returns on a host (it raises
    [ValueError] otherwise). *)
Class Environment : Type := {
  requests_call : list Call -> Call -> outcome;
  normalize_NFKC : str -> str;
  bracketed_host_ok : str -> bool }.

(** ** [str] methods used by [urllib.parse] *)

(** [c in s] *)
Definition contains (c : codepoint) (s : str) : bool := existsb (N.eqb c) s.

(** [s.find(c, start)] *)
Fixpoint find_from (c : codepoint) (start : nat) (s : str) : option nat :=
  match s with
  | [] => None
  | x :: s' =>
      match start with
      | S n => option_map S (find_from c n s')
      | O => if N.eqb x c then Some O else option_map S (find_from c O s')
      end
  end.

Definition find (c : codepoint) (s : str) : option nat := find_from c 0 s.

(** [s.rfind(c)] *)
Fixpoint rfind (c : codepoint) (s : str) : option nat :=
  match s with
  | [] => None
  | x :: s' =>
      match rfind c s' with
      | Some i => Some (S i)
      | None => if N.eqb x c then Some O else None
      end
  end.

(** [s.split(sep)] for a separator of one character *)
Fixpoint split (sep : codepoint) (s : str) : list str :=
  match s with
  | [] => [[]]
  | x :: s' =>
      if N.eqb x sep then [] :: split sep s'
      else match split sep s' with
           | [] => [[x]]
           | h :: t => (x :: h) :: t
           end
  end.

(** [sep.join(parts)] *)
Fixpoint join (sep : str) (parts : list str) : str :=
  match parts with
  | [] => []
  | [p] => p
  | p :: rest => p ++ sep ++ join sep rest
  end.

(** [s.partition(c)]: the text before the first [c], whether [c] was found,
    and the text after it. *)
Definition partition (c : codepoint) (s : str) : str * bool * str :=
  match find c s with
  | Some i => (firstn i s, true, skipn (S i) s)
  | None => (s, false, [])
  end.

(** [s.rpartition(c)[2]] *)
Definition rpartition_last (c : codepoint) (s : str) : str :=
  match rfind c s with
  | Some i => skipn (S i) s
  | None => s
  end.

(** [s.replace(c, '')] *)
Definition remove (c : codepoint) (s : str) : str :=
  filter (fun x => negb (N.eqb x c)) s.

(** [s.lstrip(chars)] and [s.strip(chars)] *)
Fixpoint lstrip (chars : charset) (s : str) : str :=
  match s with
  | [] => []
  | x :: s' => if chars x then lstrip chars s' else s
  end.

Definition strip (chars : charset) (s : str) : str :=
  rev (lstrip chars (rev (lstrip chars s))).

Definition isascii (s : str) : bool := forallb (fun c => N.ltb c 128) s.

(** [s.lower()] on ASCII text *)
Definition ascii_lower (s : str) : str :=
  map (fun c => if rng "A" "Z" c then (c + 32)%N else c) s.

(** Membership of a string in a list of strings *)
Definition str_in (s : str) (l : list str) : bool := existsb (str_eqb s) l.

Definition nonempty {A : Type} (s : list A) : bool :=
  match s with [] => false | _ => true end.

(** ** [urllib.parse] (CPython 3.11) on [str] arguments *)

Definition uses_relative : list str :=
  map u [""; "ftp"; "http"; "gopher"; "nntp"; "imap"; "wais"; "file"; "https";
         "shttp"; "mms"; "prospero"; "rtsp"; "rtspu"; "sftp"; "svn";
         "svn+ssh"; "ws"; "wss"]%string.

Definition uses_netloc : list str :=
  map u [""; "ftp"; "http"; "gopher"; "nntp"; "telnet"; "imap"; "wais"; "file";
         "mms"; "https"; "shttp"; "snews"; "prospero"; "rtsp"; "rtspu";
         "rsync"; "svn"; "svn+ssh"; "sftp"; "nfs"; "git"; "git+ssh"; "ws";
         "wss"]%string.

Definition uses_params : list str :=
  map u [""; "ftp"; "hdl"; "prospero"; "http"; "imap"; "https"; "shttp";
         "rtsp"; "rtspu"; "sip"; "sips"; "mms"; "sftp"; "tel"]%string.

Definition scheme_chars : charset :=
  any_of [rng "a" "z"; rng "A" "Z"; rng "0" "9"; one "+"; one "-"; one "."].

(** [_WHATWG_C0_CONTROL_OR_SPACE]: the code points 0 to 32 *)
Definition _WHATWG_C0_CONTROL_OR_SPACE : charset := fun c => N.leb c 32.

(** [_UNSAFE_URL_BYTES_TO_REMOVE]: tab, carriage return, line feed *)
Definition _UNSAFE_URL_BYTES_TO_REMOVE : list codepoint := [9; 13; 10]%N.

Record SplitResult : Type := mkSplit {
  s_scheme : str; s_netloc : str; s_path : str; s_query : str;
  s_fragment : str }.

Record ParseResult : Type := mkParse {
  p_scheme : str; p_netloc : str; p_path : str; p_params : str;
  p_query : str; p_fragment : str }.

(** [_splitnetloc(url, start)]: the earliest of the delimiters that occur
    from [start] on ends the network location. *)
Definition _splitnetloc (url : str) (start : nat) : str * str :=
  let delim :=
    fold_left
      (fun delim c =>
         match find_from c start url with
         | Some wdelim => Nat.min delim wdelim
         | None => delim
         end)
      [chr "/"; chr "?"; chr "#"] (List.length url) in
  (skipn start (firstn delim url), skipn delim url).

Definition _splitparams (url : str) : str * str :=
  if contains (chr "/") url then
    match rfind (chr "/") url with
    | Some r =>
        match find_from (chr ";") r url with
        | Some i => (firstn i url, skipn (S i) url)
        | None => (url, [])
        end
    | None => (url, [])
    end
  else
    match find (chr ";") url with
    | Some i => (firstn i url, skipn (S i) url)
    | None => (firstn (List.length url - 1) url, url)
    end.

Definition urlunsplit (c : SplitResult) : str :=
  let '(mkSplit scheme netloc url query fragment) := c in
  let url :=
    if nonempty netloc ||
       (nonempty scheme && str_in scheme uses_netloc &&
        negb (str_eqb (firstn 2 url) (u "//")))
    then
      let url :=
        if nonempty url && negb (str_eqb (firstn 1 url) (u "/"))
        then u "/" ++ url else url in
      u "//" ++ netloc ++ url
    else url in
  let url := if nonempty scheme then scheme ++ u ":" ++ url else url in
  let url := if nonempty query then url ++ u "?" ++ query else url in
  if nonempty fragment then url ++ u "#" ++ fragment else url.

Definition urlunparse (c : ParseResult) : str :=
  let '(mkParse scheme netloc url params query fragment) := c in
  let url := if nonempty params then url ++ u ";" ++ params else url in
  urlunsplit (mkSplit scheme netloc url query fragment).

(** The loop of [urljoin] over the segments: [..] pops, [.] is skipped. *)
Fixpoint resolve (segments resolved_path : list str) : list str :=
  match segments with
  | [] => resolved_path
  | seg :: rest =>
      if str_eqb seg (u "..") then resolve rest (removelast resolved_path)
      else if str_eqb seg (u ".") then resolve rest resolved_path
      else resolve rest (resolved_path ++ [seg])
  end.

(** [segments[1:-1] = filter(None, segments[1:-1])] *)
Definition filter_middle (segments : list str) : list str :=
  match segments with
  | [] => []
  | first :: rest =>
      match rest with
      | [] => [first]
      | _ => first :: filter (@nonempty codepoint) (removelast rest)
                   ++ [last rest []]
      end
  end.

Section Urllib.

Context {env : Environment}.

Definition _checknetloc (netloc : str) : result unit :=
  if negb (nonempty netloc) || isascii netloc then Return tt
  else
    let n := remove (chr "?") (remove (chr "#") (remove (chr ":")
               (remove (chr "@") netloc))) in
    let netloc2 := normalize_NFKC n in
    if str_eqb n netloc2 then Return tt
    else if existsb (fun c => contains c netloc2)
              [chr "/"; chr "?"; chr "#"; chr "@"; chr ":"]
         then Raise ValueError
         else Return tt.

Definition _check_bracketed_netloc (netloc : str) : result unit :=
  let hostname_and_port := rpartition_last (chr "@") netloc in
  let '(before_bracket, have_open_br, bracketed) :=
    partition (chr "[") hostname_and_port in
  let hostname : result str :=
    if have_open_br then
      if nonempty before_bracket then Raise ValueError
      else
        let '(hostname, _, port) := partition (chr "]") bracketed in
        if nonempty port && negb (str_eqb (firstn 1 port) (u ":"))
        then Raise ValueError
        else Return hostname
    else
      let '(hostname, _, _) := partition (chr ":") hostname_and_port in
      Return hostname in
  match hostname with
  | Raise e => Raise e
  | Return hostname =>
      if bracketed_host_ok hostname then Return tt else Raise ValueError
  end.

Definition urlsplit (url scheme : str) (allow_fragments : bool)
  : result SplitResult :=
  let url := lstrip _WHATWG_C0_CONTROL_OR_SPACE url in
  let scheme := strip _WHATWG_C0_CONTROL_OR_SPACE scheme in
  let url := fold_left (fun s b => remove b s) _UNSAFE_URL_BYTES_TO_REMOVE url in
  let scheme :=
    fold_left (fun s b => remove b s) _UNSAFE_URL_BYTES_TO_REMOVE scheme in
  let '(scheme, url) :=
    match find (chr ":") url, url with
    | Some (S _ as i), c0 :: _ =>
        if N.ltb c0 128 && alpha c0 then
          if forallb scheme_chars (firstn i url)
          then (ascii_lower (firstn i url), skipn (S i) url)
          else (scheme, url)
        else (scheme, url)
    | _, _ => (scheme, url)
    end in
  let after_netloc :=
    if str_eqb (firstn 2 url) (u "//") then
      let '(netloc, url) := _splitnetloc url 2 in
      let open := contains (chr "[") netloc in
      let close := contains (chr "]") netloc in
      if (open && negb close) || (close && negb open) then Raise ValueError
      else if open && close then
             match _check_bracketed_netloc netloc with
             | Raise e => Raise e
             | Return _ => Return (netloc, url)
             end
           else Return (netloc, url)
    else Return ([], url) in
  match after_netloc with
  | Raise e => Raise e
  | Return (netloc, url) =>
      let '(url, fragment) :=
        if allow_fragments && contains (chr "#") url
        then let '(a, _, b) := partition (chr "#") url in (a, b)
        else (url, []) in
      let '(url, query) :=
        if contains (chr "?") url
        then let '(a, _, b) := partition (chr "?") url in (a, b)
        else (url, []) in
      match _checknetloc netloc with
      | Raise e => Raise e
      | Return _ => Return (mkSplit scheme netloc url query fragment)
      end
  end.

Definition urlparse (url scheme : str) (allow_fragments : bool)
  : result ParseResult :=
  match urlsplit url scheme allow_fragments with
  | Raise e => Raise e
  | Return (mkSplit scheme netloc url query fragment) =>
      let '(url, params) :=
        if str_in scheme uses_params && contains (chr ";") url
        then _splitparams url
        else (url, []) in
      Return (mkParse scheme netloc url params query fragment)
  end.

Definition urljoin (base url : str) (allow_fragments : bool) : result str :=
  if negb (nonempty base) then Return url
  else if negb (nonempty url) then Return base
  else
    match urlparse base [] allow_fragments with
    | Raise e => Raise e
    | Return (mkParse bscheme bnetloc bpath bparams bquery bfragment) =>
    match urlparse url bscheme allow_fragments with
    | Raise e => Raise e
    | Return (mkParse scheme netloc path params query fragment) =>
        if negb (str_eqb scheme bscheme) || negb (str_in scheme uses_relative)
        then Return url
        else if str_in scheme uses_netloc && nonempty netloc
        then Return (urlunparse
                       (mkParse scheme netloc path params query fragment))
        else
          let netloc := if str_in scheme uses_netloc then bnetloc else netloc in
          if negb (nonempty path) && negb (nonempty params) then
            let query := if negb (nonempty query) then bquery else query in
            Return (urlunparse
                      (mkParse scheme netloc bpath bparams query fragment))
          else
            let base_parts := split (chr "/") bpath in
            let base_parts :=
              if negb (str_eqb (last base_parts []) [])
              then removelast base_parts else base_parts in
            let segments :=
              if str_eqb (firstn 1 path) (u "/") then split (chr "/") path
              else filter_middle (base_parts ++ split (chr "/") path) in
            let resolved_path := resolve segments [] in
            let resolved_path :=
              if str_in (last segments []) [u "."; u ".."]
              then resolved_path ++ [[]] else resolved_path in
            let joined := join (u "/") resolved_path in
            Return (urlunparse
                      (mkParse scheme netloc
                               (if nonempty joined then joined else u "/")
                               params query fragment))
    end
    end.

End Urllib.

(** ** Methods: state and exceptions

    A method runs on a world: the attributes of [self] and the calls of
    [requests] made so far. It returns or raises, and leaves a world. *)

Record world (I : Type) : Type := mkWorld { self : I; sent : list Call }.
Arguments mkWorld {I} self sent.
Arguments self {I} w.
Arguments sent {I} w.

Definition M (I A : Type) : Type := world I -> result A * world I.

Definition ret {I A : Type} (a : A) : M I A := fun w => (Return a, w).

Definition raise {I A : Type} (e : exn) : M I A := fun w => (Raise e, w).

Definition bind {I A B : Type} (c : M I A) (k : A -> M I B) : M I B :=
  fun w =>
    match c w with
    | (Return a, w') => k a w'
    | (Raise e, w') => (Raise e, w')
    end.

Notation "x <- c ;; k" := (bind c (fun x => k))
  (at level 100, c at next level, right associativity).
Notation "c ;; k" := (bind c (fun _ => k))
  (at level 100, right associativity).

(** A call of a static method *)
Definition lift {I A : Type} (r : result A) : M I A := fun w => (r, w).

Definition get_self {I : Type} : M I I := fun w => (Return (self w), w).

Definition set_self {I : Type} (i : I) : M I unit :=
  fun w => (Return tt, mkWorld i (sent w)).

(** Reading an attribute that may not have been set *)
Definition getattr {I A : Type} (field : I -> option A) : M I A :=
  fun w =>
    match field (self w) with
    | Some a => (Return a, w)
    | None => (Raise AttributeError, w)
    end.

(** [try: body except ...: handler]: [handler e] is the body of the clause
    that catches [e], if there is one. *)
Definition try_except {I A : Type} (body : M I A)
           (handler : exn -> option (M I A)) : M I A :=
  fun w =>
    match body w with
    | (Return a, w') => (Return a, w')
    | (Raise e, w') =>
        match handler e with
        | Some h => h w'
        | None => (Raise e, w')
        end
    end.

(** [getattr(requests, verb)(url=..., json=..., params=..., headers=...,
    auth=...)]: the call is recorded, then answered. *)
Definition request {env : Environment} {I : Type} (c : Call) : M I Response :=
  fun w =>
    let w' := mkWorld (self w) (sent w ++ [c]) in
    match requests_call (sent w) c with
    | Responded r => (Return r, w')
    | Raised e => (Raise e, w')
    end.

(** [x in range(start, stop)] for an [int] *)
Definition in_range (x start stop : Z) : bool :=
  Z.leb start x && Z.ltb x stop.

(** ['{}'.format(n)] for an [int] *)
Definition str_of_int (n : Z) : str :=
  u (DecimalString.NilZero.string_of_int (Z.to_int n)).

(** ** Python values in the bodies of the methods *)

(** A member of an [Enum] class of [dome9_api_consts] ([Protocols],
    [Regions], [OperationModes], [ProtectionModes], [CloudAccountTypes]):
    its name and its [.value]. *)
Record Enum : Type := mkEnum { member_name : str; member_value : value }.

Definition of_enum (e : Enum) : value := VEnum (member_name e) (member_value e).

Definition ostr (x : option str) : value :=
  match x with Some s => VStr s | None => VNone end.
Definition oint (x : option Z) : value :=
  match x with Some z => VInt z | None => VNone end.
Definition obool (x : option bool) : value :=
  match x with Some b => VBool b | None => VNone end.
Definition oenum (x : option Enum) : value :=
  match x with Some e => of_enum e | None => VNone end.

(** [x.value] where [x] may be [None] *)
Definition dot_value (x : option Enum) : result value :=
  match x with
  | Some e => Return (member_value e)
  | None => Raise AttributeError
  end.

(** [d[key]] for a key that is a [str]: only a [dict] answers. *)
Fixpoint lookup (key : str) (items : list (str * value)) : option value :=
  match items with
  | [] => None
  | (k, v) :: rest => if str_eqb k key then Some v else lookup key rest
  end.

Definition subscript (d : value) (key : str) : result value :=
  match d with
  | VDict items =>
      match lookup key items with
      | Some v => Return v
      | None => Raise KeyError
      end
  | _ => Raise TypeError
  end.

(** [for x in v]: the elements of a list or of a set, the keys of a [dict],
    the characters of a [str]. *)
Definition iterate (v : value) : result (list value) :=
  match v with
  | VList l => Return l
  | VSet l => Return l
  | VDict items => Return (map (fun kv => VStr (fst kv)) items)
  | VStr s => Return (map (fun c => VStr [c]) s)
  | _ => Raise TypeError
  end.

Definition hashable (v : value) : bool :=
  match v with
  | VList _ | VDict _ | VSet _ => false
  | _ => true
  end.

(** [{region['region'] for region in regions}] *)
Fixpoint region_names (regions collected : list value) : result value :=
  match regions with
  | [] => Return (VSet collected)
  | region :: rest =>
      match subscript region (u "region") with
      | Raise e => Raise e
      | Return name =>
          if hashable name then region_names rest (collected ++ [name])
          else Raise TypeError
      end
  end.

(** ** The current SDK: class [Dome9APISDK] *)

Module Dome9APISDK.

Inductive _RequestMethods : Type := GET | POST | PATCH | PUT | DELETE.

(** [method.value] *)
Definition method_value (method : _RequestMethods) : str :=
  match method with
  | GET => u "get"
  | POST => u "post"
  | PATCH => u "patch"
  | PUT => u "put"
  | DELETE => u "delete"
  end.

Definition _ORIGIN : str := u "https://api.dome9.com/v2/".

(** The attributes of an object of the class; [None] for one that is not
    set. *)
Record instance : Type := mkInstance {
  _origin : option str;
  _clientAuth : option HTTPBasicAuth }.

(** The object as [__init__] receives it *)
Definition blank : instance := mkInstance None None.

(** Modelled from the spec: [dome9_api_exceptions.py], from which
    [dome9_api_sdk.py] imports its [Dome9APIException], is not among the
    sources. The spec gives the error (APIError) a message, an optional code
    and an optional content: the class is taken to be the one of
    [dome9/exceptions.py], where code and content are [None] when they are
    not given. *)
Definition Dome9APIException (message : str) (code : option Z)
           (content : option bytes) : exn :=
  Dome9APIException message code content.

Section Methods.

Context {env : Environment}.

Definition __init__ (key secret origin : str) : M instance unit :=
  lift (_checkIsUUID (Some key) false) ;;
  lift (_checkOnlyContainsLowercaseAlphanumeric (Some secret) false) ;;
  lift (_checkIsHTTPURL (Some origin) false) ;;
  self <- get_self ;;
  set_self (mkInstance (Some origin) (_clientAuth self)) ;;
  self <- get_self ;;
  set_self (mkInstance (_origin self) (Some (mkAuth key secret))).

Definition _request (method : _RequestMethods) (route : str)
           (body params : value) : M instance value :=
  origin <- getattr _origin ;;
  url <- lift (urljoin origin route true) ;;
  let headers :=
    [(u "Accept", u "application/json");
     (u "Content-Type", u "application/json")] in
  response <-
    try_except
      (clientAuth <- getattr _clientAuth ;;
       request (mkCall (method_value method) url body params headers
                       clientAuth))
      (fun e =>
         match e with
         | RequestsError cls connectionError =>
             if is_ConnectionError cls
             then Some (raise (Dome9APIException
                                 (url ++ u " " ++ connectionError)
                                 None None))
             else None
         | _ => None
         end) ;;
  if negb (in_range (status_code response) 200 299) then
    raise (Dome9APIException (reason response)
                             (Some (status_code response))
                             (Some (content response)))
  else if nonempty (content response) then
    match as_json response with
    | inr jsonResponse => ret jsonResponse
    | inl valueError =>
        raise (Dome9APIException valueError
                                 (Some (status_code response))
                                 (Some (content response)))
    end
  else ret VNone.

Definition getAllUsers : M instance value :=
  let route := u "user" in
  _request GET route VNone VNone.

Definition getCloudAccounts : M instance value :=
  let route := u "CloudAccounts" in
  _request GET route VNone VNone.

Definition getCloudAccountId (cloudAccountId : str) : M instance value :=
  lift (_checkIsUUIDOr12Digits (Some cloudAccountId) false) ;;
  let route := u "CloudAccounts/" ++ cloudAccountId in
  _request GET route VNone VNone.

Definition getCloudAccountRegions (cloudAccountId : str)
  : M instance value :=
  lift (_checkIsUUIDOr12Digits (Some cloudAccountId) false) ;;
  cloudAccountId <- getCloudAccountId cloudAccountId ;;
  netSec <- lift (subscript cloudAccountId (u "netSec")) ;;
  regions <- lift (subscript netSec (u "regions")) ;;
  regions <- lift (iterate regions) ;;
  lift (region_names regions []).

Definition getRoles : M instance value :=
  let route := u "role" in
  _request GET route VNone VNone.

Definition onBoardingAwsAccount (arn secret : str)
           (fullProtection allowReadOnly : bool) (name : option str)
  : M instance value :=
  lift (_checkIsARN (Some arn) false) ;;
  lift (_checkOnlyContainsLowercaseAlphanumeric (Some secret) false) ;;
  let route := u "CloudAccounts" in
  let body :=
    VDict [(u "name", ostr name);
           (u "credentials",
            VDict [(u "arn", VStr arn); (u "secret", VStr secret);
                   (u "type", VStr (u "RoleBased"))]);
           (u "fullProtection", VBool fullProtection);
           (u "allowReadOnly", VBool allowReadOnly)] in
  _request POST route body VNone ;;
  ret VNone.

Definition onBoardingAzureAccount
           (subscriptionId tenantId clientId clientPassword : str)
           (name : option str) (operationMode : Enum)
  : M instance value :=
  lift (_checkIsUUID (Some subscriptionId) false) ;;
  lift (_checkIsUUID (Some tenantId) false) ;;
  lift (_checkIsUUID (Some clientId) false) ;;
  let route := u "AzureCloudAccount" in
  let body :=
    VDict [(u "name", ostr name);
           (u "subscriptionId", VStr subscriptionId);
           (u "tenantId", VStr tenantId);
           (u "credentials",
            VDict [(u "clientId", VStr clientId);
                   (u "clientPassword", VStr clientPassword)]);
           (u "operationMode", member_value operationMode)] in
  _request POST route body VNone ;;
  ret VNone.

Definition updateAwsAccountCredentials (arn secret : str)
           (externalAccountNumber cloudAccountId : option str)
  : M instance value :=
  lift (_checkIsARN (Some arn) false) ;;
  lift (_checkOnlyContainsLowercaseAlphanumeric (Some secret) false) ;;
  lift (_checkIsUUID cloudAccountId true) ;;
  let route := u "CloudAccounts/credentials" in
  let body :=
    VDict [(u "cloudAccountId", ostr cloudAccountId);
           (u "externalAccountNumber", ostr externalAccountNumber);
           (u "data",
            VDict [(u "arn", VStr arn); (u "secret", VStr secret);
                   (u "type", VStr (u "RoleBased"))])] in
  _request PUT route body VNone ;;
  ret VNone.

Definition updateOrganizationalUnitForAWSCloudAccount
           (cloudAccountId : str) (organizationalUnitId : option str)
  : M instance value :=
  lift (_checkIsUUID (Some cloudAccountId) false) ;;
  lift (_checkIsUUID organizationalUnitId true) ;;
  let route :=
    u "cloudaccounts/" ++ cloudAccountId ++ u "/organizationalUnit" in
  let body :=
    VDict [(u "organizationalUnitId", ostr organizationalUnitId)] in
  _request PUT route body VNone.

Definition updateOrganizationalUnitForAzureCloudAccount
           (cloudAccountId : str) (organizationalUnitId : option str)
  : M instance value :=
  lift (_checkIsUUID (Some cloudAccountId) false) ;;
  lift (_checkIsUUID organizationalUnitId true) ;;
  let route :=
    u "AzureCloudAccount/" ++ cloudAccountId ++ u "/organizationalUnit" in
  let body :=
    VDict [(u "organizationalUnitId", ostr organizationalUnitId)] in
  _request PUT route body VNone.

Definition updateRoleById (roleId : Z) (roleName : str)
           (access manage create view crossAccountAccess : value)
  : M instance value :=
  lift (_checkIsNotNegative (Some roleId) false) ;;
  lift (_checkIsNotEmpty (Some roleName) false) ;;
  let body :=
    VDict [(u "name", VStr roleName);
           (u "permissions",
            VDict [(u "access", access); (u "manage", manage);
                   (u "create", create); (u "view", view);
                   (u "crossAccountAccess", crossAccountAccess)])] in
  let route := u "Role/" ++ str_of_int roleId in
  _request PUT route body VNone ;;
  ret VNone.

Definition getRoleById (roleId : Z) : M instance value :=
  lift (_checkIsNotNegative (Some roleId) false) ;;
  let route := u "Role/" ++ str_of_int roleId in
  _request GET route VNone VNone.

Definition updateCloudAccountID (cloudAccountId : str)
           (name : option str) (fullProtection allowReadOnly : option bool)
           (organizationalUnitId organizationalUnitPath
            organizationalUnitName : option str)
           (lambdaScanner : option bool) (arn secret : option str)
  : M instance value :=
  lift (_checkIsUUID (Some cloudAccountId) false) ;;
  lift (_checkIsUUID organizationalUnitId true) ;;
  lift (_checkIsARN arn false) ;;
  lift (_checkOnlyContainsLowercaseAlphanumeric secret false) ;;
  let route := u "CloudAccounts/" ++ cloudAccountId in
  let body :=
    VDict [(u "name", ostr name);
           (u "fullProtection", obool fullProtection);
           (u "allowReadOnly", obool allowReadOnly);
           (u "organizationalUnitId", ostr organizationalUnitId);
           (u "organizationalUnitPath", ostr organizationalUnitPath);
           (u "organizationalUnitName", ostr organizationalUnitName);
           (u "lambdaScanner", obool lambdaScanner);
           (u "CloudAccountCredentials",
            VDict [(u "arn", ostr arn); (u "secret", ostr secret);
                   (u "type", VStr (u "RoleBased"))])] in
  _request PATCH route body VNone ;;
  ret VNone.

Definition getCloudTrail : M instance value :=
  let route := u "CloudTrail" in
  _request GET route VNone VNone.

Definition getFlatOrganizationalUnits : M instance value :=
  let route := u "organizationalunit/GetFlatOrganizationalUnits" in
  _request GET route VNone VNone.

Definition getAwsSecurityGroups : M instance value :=
  _request GET (u "view/awssecuritygroup/index") VNone VNone.

Definition getCloudSecurityGroup (cloudAccountId : str) (regionId : Enum)
  : M instance value :=
  lift (_checkIsUUID (Some cloudAccountId) false) ;;
  let route := u "cloudsecuritygroup/" ++ cloudAccountId in
  let params :=
    VDict [(u "cloudAccountId", VStr cloudAccountId);
           (u "regionId", member_value regionId)] in
  _request GET route VNone params.

Definition getAllEntityFetchStatus (cloudAccountId : str)
  : M instance value :=
  lift (_checkIsUUID (Some cloudAccountId) false) ;;
  let route := u "EntityFetchStatus" in
  let params := VDict [(u "cloudAccountId", VStr cloudAccountId)] in
  _request GET route VNone params.

Definition cloudAccountSyncNow (cloudAccountId : str) : M instance value :=
  lift (_checkIsUUID (Some cloudAccountId) false) ;;
  let route := u "cloudaccounts/" ++ cloudAccountId ++ u "/SyncNow" in
  _request POST route VNone VNone.

Definition setCloudSecurityGroupProtectionMode (securityGroupId : str)
           (protectionMode : Enum) : M instance value :=
  let route :=
    u "cloudsecuritygroup/" ++ securityGroupId ++ u "/protection-mode" in
  let body := VDict [(u "protectionMode", of_enum protectionMode)] in
  _request POST route body VNone ;;
  ret VNone.

Definition runAssessmentBundle (bundleId : Z) (cloudAccountId : str)
           (cloudAccountType : Enum) (name description : option str)
           (isCft : option bool)
           (dome9CloudAccountId externalCloudAccountId : option str)
           (region : option Enum) (cloudNetwork rootName : option str)
           (params files : value) : M instance value :=
  lift (_checkIsNotNegative (Some bundleId) false) ;;
  let route := u "assessment/bundleV2" in
  region_value <- lift (dot_value region) ;;
  let body :=
    VDict [(u "id", VInt bundleId);
           (u "cloudAccountId", VStr cloudAccountId);
           (u "cloudAccountType", member_value cloudAccountType);
           (u "name", ostr name);
           (u "description", ostr description);
           (u "isCft", obool isCft);
           (u "dome9CloudAccountId", ostr dome9CloudAccountId);
           (u "externalCloudAccountId", ostr externalCloudAccountId);
           (u "region", region_value);
           (u "cloudNetwork", ostr cloudNetwork);
           (u "cft",
            VDict [(u "rootName", ostr rootName); (u "params", params);
                   (u "files", files)])] in
  _request POST route body VNone.

Definition getAccountBundles : M instance value :=
  let route := u "CompliancePolicy" in
  _request GET route VNone VNone.

Definition updateRuleBundleById (bundleId : Z) (rules : value)
  : M instance value :=
  lift (_checkIsNotNegative (Some bundleId) false) ;;
  let route := u "CompliancePolicy" in
  let body := VDict [(u "id", VInt bundleId); (u "rules", rules)] in
  _request PUT route body VNone.

Definition acquireAwsLease (cloudAccountId : str) (securityGroupId : Z)
           (ip : str) (portFrom : Z) (portTo : option Z)
           (protocol : option Enum) (duration : option str)
           (region : option Enum) (accountId : option Z)
           (name user : option str) : M instance value :=
  lift (_checkIsUUID (Some cloudAccountId) false) ;;
  lift (_checkIsNotNegative (Some securityGroupId) false) ;;
  lift (_checkIsIP (Some ip) false) ;;
  lift (_checkIsPort (Some portFrom) false) ;;
  lift (_checkIsPort portTo true) ;;
  lift (_checkIsDuration duration true) ;;
  lift (_checkIsNotNegative accountId true) ;;
  lift (_checkIsEmail user true) ;;
  let route := u "accesslease/aws" in
  let body :=
    VDict [(u "cloudAccountId", VStr cloudAccountId);
           (u "securityGroupId", VInt securityGroupId);
           (u "ip", VStr ip);
           (u "portFrom", VInt portFrom);
           (u "portTo", oint portTo);
           (u "protocol", oenum protocol);
           (u "length", ostr duration);
           (u "region", oenum region);
           (u "accountId", oint accountId);
           (u "name", ostr name);
           (u "user", ostr user)] in
  _request POST route body VNone ;;
  ret VNone.

End Methods.

End Dome9APISDK.

Module Invocation.

Import Dome9APISDK.

(** A call of one of the methods of a client, with its arguments in the
    order of their declaration. *)
Inductive invocation : Type :=
| call_getAllUsers
| call_getCloudAccounts
| call_getCloudAccountId (cloudAccountId : str)
| call_getCloudAccountRegions (cloudAccountId : str)
| call_getRoles
| call_onBoardingAwsAccount (arn secret : str)
    (fullProtection allowReadOnly : bool) (name : option str)
| call_onBoardingAzureAccount
    (subscriptionId tenantId clientId clientPassword : str)
    (name : option str) (operationMode : Enum)
| call_updateAwsAccountCredentials (arn secret : str)
    (externalAccountNumber cloudAccountId : option str)
| call_updateOrganizationalUnitForAWSCloudAccount (cloudAccountId : str)
    (organizationalUnitId : option str)
| call_updateOrganizationalUnitForAzureCloudAccount (cloudAccountId : str)
    (organizationalUnitId : option str)
| call_updateRoleById (roleId : Z) (roleName : str)
    (access manage create view crossAccountAccess : value)
| call_getRoleById (roleId : Z)
| call_updateCloudAccountID (cloudAccountId : str) (name : option str)
    (fullProtection allowReadOnly : option bool)
    (organizationalUnitId organizationalUnitPath
     organizationalUnitName : option str)
    (lambdaScanner : option bool) (arn secret : option str)
| call_getCloudTrail
| call_getFlatOrganizationalUnits
| call_getAwsSecurityGroups
| call_getCloudSecurityGroup (cloudAccountId : str) (regionId : Enum)
| call_getAllEntityFetchStatus (cloudAccountId : str)
| call_cloudAccountSyncNow (cloudAccountId : str)
| call_setCloudSecurityGroupProtectionMode (securityGroupId : str)
    (protectionMode : Enum)
| call_runAssessmentBundle (bundleId : Z) (cloudAccountId : str)
    (cloudAccountType : Enum) (name description : option str)
    (isCft : option bool)
    (dome9CloudAccountId externalCloudAccountId : option str)
    (region : option Enum) (cloudNetwork rootName : option str)
    (params files : value)
| call_getAccountBundles
| call_updateRuleBundleById (bundleId : Z) (rules : value)
| call_acquireAwsLease (cloudAccountId : str) (securityGroupId : Z)
    (ip : str) (portFrom : Z) (portTo : option Z) (protocol : option Enum)
    (duration : option str) (region : option Enum) (accountId : option Z)
    (name user : option str).

Definition invoke {env : Environment} (c : invocation) : M instance value :=
  match c with
  | call_getAllUsers => getAllUsers
  | call_getCloudAccounts => getCloudAccounts
  | call_getCloudAccountId a => getCloudAccountId a
  | call_getCloudAccountRegions a => getCloudAccountRegions a
  | call_getRoles => getRoles
  | call_onBoardingAwsAccount a b c d e => onBoardingAwsAccount a b c d e
  | call_onBoardingAzureAccount a b c d e f =>
      onBoardingAzureAccount a b c d e f
  | call_updateAwsAccountCredentials a b c d =>
      updateAwsAccountCredentials a b c d
  | call_updateOrganizationalUnitForAWSCloudAccount a b =>
      updateOrganizationalUnitForAWSCloudAccount a b
  | call_updateOrganizationalUnitForAzureCloudAccount a b =>
      updateOrganizationalUnitForAzureCloudAccount a b
  | call_updateRoleById a b c d e f g => updateRoleById a b c d e f g
  | call_getRoleById a => getRoleById a
  | call_updateCloudAccountID a b c d e f g h i j =>
      updateCloudAccountID a b c d e f g h i j
  | call_getCloudTrail => getCloudTrail
  | call_getFlatOrganizationalUnits => getFlatOrganizationalUnits
  | call_getAwsSecurityGroups => getAwsSecurityGroups
  | call_getCloudSecurityGroup a b => getCloudSecurityGroup a b
  | call_getAllEntityFetchStatus a => getAllEntityFetchStatus a
  | call_cloudAccountSyncNow a => cloudAccountSyncNow a
  | call_setCloudSecurityGroupProtectionMode a b =>
      setCloudSecurityGroupProtectionMode a b
  | call_runAssessmentBundle a b c d e f g h i j k l m =>
      runAssessmentBundle a b c d e f g h i j k l m
  | call_getAccountBundles => getAccountBundles
  | call_updateRuleBundleById a b => updateRuleBundleById a b
  | call_acquireAwsLease a b c d e f g h i j k =>
      acquireAwsLease a b c d e f g h i j k
  end.

(** The validator of every validated argument of a call, the arguments
    taken from left to right in the [def] line of the method. *)
Definition validations (c : invocation) : list (result unit) :=
  match c with
  | call_getCloudAccountId cloudAccountId
  | call_getCloudAccountRegions cloudAccountId =>
      [_checkIsUUIDOr12Digits (Some cloudAccountId) false]
  | call_onBoardingAwsAccount arn secret _ _ _ =>
      [_checkIsARN (Some arn) false;
       _checkOnlyContainsLowercaseAlphanumeric (Some secret) false]
  | call_onBoardingAzureAccount subscriptionId tenantId clientId _ _ _ =>
      [_checkIsUUID (Some subscriptionId) false;
       _checkIsUUID (Some tenantId) false;
       _checkIsUUID (Some clientId) false]
  | call_updateAwsAccountCredentials arn secret _ cloudAccountId =>
      [_checkIsARN (Some arn) false;
       _checkOnlyContainsLowercaseAlphanumeric (Some secret) false;
       _checkIsUUID cloudAccountId true]
  | call_updateOrganizationalUnitForAWSCloudAccount cloudAccountId
      organizationalUnitId
  | call_updateOrganizationalUnitForAzureCloudAccount cloudAccountId
      organizationalUnitId =>
      [_checkIsUUID (Some cloudAccountId) false;
       _checkIsUUID organizationalUnitId true]
  | call_updateRoleById roleId roleName _ _ _ _ _ =>
      [_checkIsNotNegative (Some roleId) false;
       _checkIsNotEmpty (Some roleName) false]
  | call_getRoleById roleId => [_checkIsNotNegative (Some roleId) false]
  | call_updateCloudAccountID cloudAccountId _ _ _ organizationalUnitId _ _ _
      arn secret =>
      [_checkIsUUID (Some cloudAccountId) false;
       _checkIsUUID organizationalUnitId true;
       _checkIsARN arn false;
       _checkOnlyContainsLowercaseAlphanumeric secret false]
  | call_getCloudSecurityGroup cloudAccountId _
  | call_getAllEntityFetchStatus cloudAccountId
  | call_cloudAccountSyncNow cloudAccountId =>
      [_checkIsUUID (Some cloudAccountId) false]
  | call_runAssessmentBundle bundleId _ _ _ _ _ _ _ _ _ _ _ _ =>
      [_checkIsNotNegative (Some bundleId) false]
  | call_updateRuleBundleById bundleId _ =>
      [_checkIsNotNegative (Some bundleId) false]
  | call_acquireAwsLease cloudAccountId securityGroupId ip portFrom portTo _
      duration _ accountId _ user =>
      [_checkIsUUID (Some cloudAccountId) false;
       _checkIsNotNegative (Some securityGroupId) false;
       _checkIsIP (Some ip) false;
       _checkIsPort (Some portFrom) false;
       _checkIsPort portTo true;
       _checkIsDuration duration true;
       _checkIsNotNegative accountId true;
       _checkIsEmail user true]
  | _ => []
  end.

(** The exception of the first check of a list that raises *)
Fixpoint first_failure (checks : list (result unit)) : option exn :=
  match checks with
  | [] => None
  | Raise e :: _ => Some e
  | Return _ :: rest => first_failure rest
  end.

(** The world after a sequence of calls, whatever they return or raise *)
Fixpoint run_all {env : Environment} (calls : list invocation)
         (w : world instance) : world instance :=
  match calls with
  | [] => w
  | c :: rest => run_all rest (snd (invoke c w))
  end.

End Invocation.

(** ** The legacy client: class [Client] of [dome9/client.py] *)

Module Client.

Definition _DEFAULT_SITE : str := u "https://api.dome9.com/v2/".
Definition _DEFAULT_FORMAT : str := u "application/json".

(** [range(200, 299)], by its bounds *)
Definition _HTTP_OK_RANGE : Z * Z := (200, 299)%Z.

Record instance : Type := mkInstance {
  _baseURL : option str;
  _clientAuth : option HTTPBasicAuth }.

Definition blank : instance := mkInstance None None.

Section Methods.

Context {env : Environment}.

(** [dome9.consts] and [dome9.statics] are not among the sources: the
    class [RequestMethods] with the [.value] of its members, and the
    three checks of [Statics] that [__init__] calls, are taken as
    given. *)
Variable RequestMethods : Type.
Variable method_value : RequestMethods -> str.
Variable checkIsUUID : str -> result unit.
Variable checkOnlyContainsLowercaseAlphanumeric : str -> result unit.
Variable checkIsHTTPURL : str -> result unit.

Definition __init__ (apiKey apiSecret baseURL : str) : M instance unit :=
  lift (checkIsUUID apiKey) ;;
  lift (checkOnlyContainsLowercaseAlphanumeric apiSecret) ;;
  lift (checkIsHTTPURL baseURL) ;;
  self <- get_self ;;
  set_self (mkInstance (Some baseURL) (_clientAuth self)) ;;
  self <- get_self ;;
  set_self (mkInstance (_baseURL self) (Some (mkAuth apiKey apiSecret))).

Definition _request (method : RequestMethods) (route : str)
           (body params : value) : M instance value :=
  baseURL <- getattr _baseURL ;;
  url <- lift (urljoin baseURL route true) ;;
  let headers :=
    [(u "Accept", _DEFAULT_FORMAT); (u "Content-Type", _DEFAULT_FORMAT)] in
  response <-
    try_except
      (clientAuth <- getattr _clientAuth ;;
       request (mkCall (method_value method) url body params headers
                       clientAuth))
      (fun e =>
         match e with
         | RequestsError cls connectionError =>
             if is_ConnectionError cls
             then Some (raise (Dome9APIException
                                 (url ++ u " " ++ connectionError)
                                 None None))
             else None
         | _ => None
         end) ;;
  if negb (in_range (status_code response)
                    (fst _HTTP_OK_RANGE) (snd _HTTP_OK_RANGE)) then
    raise (Dome9APIException (reason response)
                             (Some (status_code response))
                             (Some (content response)))
  else if nonempty (content response) then
    match as_json response with
    | inr jsonResponse => ret jsonResponse
    | inl valueError =>
        raise (Dome9APIException valueError
                                 (Some (status_code response))
                                 (Some (content response)))
    end
  else ret VNone.

End Methods.

End Client.

(** ** The shapes that the specification names *)

(** Canonical 8-4-4-4-12 lowercase hexadecimal form with hyphens: the
    hyphens cut the string in five groups of 8, 4, 4, 4 and 12 characters
    among [0-9a-f]. *)
Definition lower_hex : charset := any_of [rng "0" "9"; rng "a" "f"].

Definition hex_group (n : nat) (g : str) : bool :=
  Nat.eqb (List.length g) n && forallb lower_hex g.

Definition canonical_uuid (s : str) : bool :=
  match split (chr "-") s with
  | [g1; g2; g3; g4; g5] =>
      hex_group 8 g1 && hex_group 4 g2 && hex_group 4 g3 && hex_group 4 g4 &&
      hex_group 12 g5
  | _ => false
  end.

(** Four dot-separated decimal octets, each denoting a value in 0-255. *)
Definition decimal_value (o : str) : N :=
  fold_left (fun acc c => (10 * acc + (c - chr "0"))%N) o 0%N.

Definition decimal_octet (o : str) : bool :=
  nonempty o && forallb (rng "0" "9") o && N.leb (decimal_value o) 255.

Definition dotted_decimal_octets (s : str) : bool :=
  match split (chr ".") s with
  | [o1; o2; o3; o4] => forallb decimal_octet [o1; o2; o3; o4]
  | _ => false
  end.

(** What the pattern of [_checkIsIP] takes for an octet: one digit; a
    digit 1-9 and a digit; 1 and two digits; 2, a digit 0-4 and a digit;
    2, 5 and a digit 0-5. Where the pattern says [\d] the digit is any
    decimal digit of Unicode. *)
Definition octet_form (o : str) : bool :=
  match o with
  | [a] => digit a
  | [a; b] => rng "1" "9" a && digit b
  | [a; b; c] =>
      (one "1" a && digit b && digit c)
      || (one "2" a && rng "0" "4" b && digit c)
      || (one "2" a && one "5" b && rng "0" "5" c)
  | _ => false
  end.

Definition dotted_quad (s : str) : bool :=
  match split (chr ".") s with
  | [o1; o2; o3; o4] => forallb octet_form [o1; o2; o3; o4]
  | _ => false
  end.

(** ** What a pattern matches

    [den r b s b' s']: from the position [(b, s)] the pattern [r] can match
    up to the position [(b', s')]. *)

Fixpoint den_rep (dr : bool -> str -> bool -> str -> Prop) (fuel lo : nat)
         (b : bool) (s : str) (b' : bool) (s' : str) {struct fuel} : Prop :=
  match lo with
  | O =>
      (b' = b /\ s' = s) \/
      match fuel with
      | O => False
      | S f => exists b1 s1, dr b s b1 s1 /\ den_rep dr f O b1 s1 b' s'
      end
  | S lo' =>
      match fuel with
      | O => False
      | S f => exists b1 s1, dr b s b1 s1 /\ den_rep dr f lo' b1 s1 b' s'
      end
  end.

Fixpoint den (r : regex) (b : bool) (s : str) (b' : bool) (s' : str) : Prop :=
  match r with
  | Eps => b' = b /\ s' = s
  | Cls p => exists c, s = c :: s' /\ p c = true /\ b' = false
  | Cat r1 r2 => exists b1 s1, den r1 b s b1 s1 /\ den r2 b1 s1 b' s'
  | Alt r1 r2 => den r1 b s b' s' \/ den r2 b s b' s'
  | Rep r lo hi =>
      den_rep (den r)
              (match hi with Some h => h | None => lo + List.length s end)
              lo b s b' s'
  | Bos => b = true /\ b' = b /\ s' = s
  | Eos => at_eos s = true /\ b' = b /\ s' = s
  end.

(** [n] matches in a row *)
Inductive iter (dr : bool -> str -> bool -> str -> Prop)
  : nat -> bool -> str -> bool -> str -> Prop :=
| iter_O b s : iter dr 0 b s b s
| iter_S n b s b1 s1 b' s' :
    dr b s b1 s1 -> iter dr n b1 s1 b' s' -> iter dr (S n) b s b' s'.

(** ** Properties of methods *)

(** A computation that leaves the attributes of [self] as they were *)
Definition keeps_self {I A : Type} (c : M I A) : Prop :=
  forall w, self (snd (c w)) = self w.

(** The regex-based validators *)
Definition regex_validators : list (option str -> bool -> result unit) :=
  [_checkIsUUID; _checkOnlyContainsLowercaseAlphanumeric; _checkIsHTTPURL;
   _checkIsARN; _checkIsIP; _checkIsDuration; _checkIsEmail;
   _checkIsUUIDOr12Digits].

(** ** Sample surroundings and values *)

(** The headers that [_request] sends *)
Definition json_headers : list (str * str) :=
  [(u "Accept", u "application/json");
   (u "Content-Type", u "application/json")].

(** A remote side that gives the same answer to every call *)
Definition answering (answer : outcome) : Environment :=
  {| requests_call := fun _ _ => answer;
     normalize_NFKC := fun s => s;
     bracketed_host_ok := fun _ => false |}.

Definition sample_key : str := u "01234567-89ab-cdef-0123-456789abcdef".
Definition sample_secret : str := u "s3cr3t".
Definition sample_auth : HTTPBasicAuth := mkAuth sample_key sample_secret.

Definition sample_client : Dome9APISDK.instance :=
  Dome9APISDK.mkInstance (Some Dome9APISDK._ORIGIN) (Some sample_auth).

Definition no_content : Response :=
  mkResponse 204 (u "No Content") [] (inl (u "Expecting value")).

Definition not_found : Response :=
  mkResponse 404 (u "Not Found") [Byte.x7b; Byte.x7d] (inr (VDict [])).

Definition ok_list : Response :=
  mkResponse 200 (u "OK") [Byte.x5b; Byte.x5d] (inr (VList [])).

Definition ok_not_json : Response :=
  mkResponse 200 (u "OK") [Byte.x6e; Byte.x6f] (inl (u "Expecting value")).

Inductive sample_methods : Type := sample_get.

(** ** More shapes of arguments *)

(** One or more characters among [0-9a-z] *)
Definition lowercase_alphanumeric (s : str) : bool :=
  nonempty s && forallb (any_of [rng "0" "9"; rng "a" "z"]) s.

(** Twelve decimal digits *)
Definition twelve_digits (s : str) : bool :=
  Nat.eqb (List.length s) 12 && forallb digit s.

(** [s.startswith(p)] *)
Definition starts_with (p s : str) : bool :=
  str_eqb (firstn (List.length p) s) p.

(** Six or seven segments between colons, the first [arn], the second
    starting with [aws]. *)
Definition arn_shape (s : str) : bool :=
  match split (chr ":") s with
  | [a; p; _; _; _; _] | [a; p; _; _; _; _; _] =>
      str_eqb a (u "arn") && starts_with (u "aws") p
  | _ => false
  end.

(** The parts of a duration as its pattern takes them: hours are a digit, 1
    and a digit, or 2 and a digit 0-4; minutes and seconds are a digit, or a
    digit 1-5 and a digit; days are 0, or a digit 1-9 and digits. *)
Definition hour_form (o : str) : bool :=
  match o with
  | [a] => digit a
  | [a; b] => (one "1" a && digit b) || (one "2" a && rng "0" "4" b)
  | _ => false
  end.

Definition minute_form (o : str) : bool :=
  match o with
  | [a] => digit a
  | [a; b] => rng "1" "5" a && digit b
  | _ => false
  end.

Definition days_form (o : str) : bool :=
  match o with
  | [] => false
  | a :: t =>
      (one "0" a && negb (nonempty t)) || (rng "1" "9" a && forallb digit t)
  end.

(** [[D.]H:M:S] *)
Definition duration_shape (s : str) : bool :=
  match split (chr ":") s with
  | [dh; mi; se] =>
      minute_form mi && minute_form se &&
      (hour_form dh ||
       match split (chr ".") dh with
       | [da; ho] => days_form da && hour_form ho
       | _ => false
       end)
  | _ => false
  end.

(** The parts of an e-mail address as its pattern takes them: before the
    [@] one or more characters among [a-zA-Z0-9_.+-]; after it one or more
    among [a-zA-Z0-9-], a dot, and one or more among [a-zA-Z0-9-.]. *)
Definition email_local : charset :=
  any_of [rng "a" "z"; rng "A" "Z"; rng "0" "9"; one "_"; one "."; one "+";
          one "-"].

Definition email_tail : charset :=
  any_of [rng "a" "z"; rng "A" "Z"; rng "0" "9"; one "-"; one "."].

Definition email_shape (s : str) : bool :=
  match split (chr "@") s with
  | [l; dom] =>
      nonempty l && forallb email_local l &&
      match partition (chr ".") dom with
      | (dn, true, t) =>
          nonempty dn && forallb alnum_dash dn &&
          nonempty t && forallb email_tail t
      | _ => false
      end
  | _ => false
  end.

(** Every class of a pattern lies within a set of characters *)
Fixpoint classes_within (P : charset) (r : regex) : Prop :=
  match r with
  | Cls p => forall c, p c = true -> P c = true
  | Cat r1 r2 | Alt r1 r2 => classes_within P r1 /\ classes_within P r2
  | Rep r _ _ => classes_within P r
  | Eps | Bos | Eos => True
  end.

(** ** What a call of a method does with [requests] *)

(** A computation that makes no call of [requests] and leaves the client *)
Definition quiet {I A : Type} (c : M I A) : Prop := forall w, snd (c w) = w.

(** The exceptions of the checks of the arguments, of [urljoin] and of an
    attribute that is missing *)
Definition before_request (e : exn) : Prop :=
  e = ValueError \/ e = TypeError \/ e = AttributeError.

(** A computation that leaves the client and makes one call of [requests],
    one that satisfies [P], or raises without any, an exception among
    [before_request]. *)
Definition one_call {I A : Type} (P : I -> Call -> Prop) (c : M I A)
  : Prop :=
  forall w,
    self (snd (c w)) = self w /\
    ((exists call, sent (snd (c w)) = sent w ++ [call] /\ P (self w) call) \/
     (sent (snd (c w)) = sent w /\
      exists e, fst (c w) = Raise e /\ before_request e)).

(** The calls that a client makes: the two JSON headers, its credentials, a
    URL joined to its origin, one of four functions of [requests]; a body
    only when the function is not [get], parameters only when it is. *)
Definition well_formed {env : Environment} (i : Dome9APISDK.instance)
           (call : Call) : Prop :=
  c_headers call = json_headers /\
  Dome9APISDK._clientAuth i = Some (c_auth call) /\
  In (c_verb call) [u "get"; u "post"; u "put"; u "patch"] /\
  (exists origin route,
      Dome9APISDK._origin i = Some origin /\
      urljoin origin route true = Return (c_url call)) /\
  (c_verb call = u "get" -> c_json call = VNone) /\
  (c_verb call <> u "get" -> c_params call = VNone).

(** A computation that returns only after a call of [requests] that was
    answered with a status code of [range(200, 299)]. *)
Definition returns_on_success {env : Environment} {I A : Type} (c : M I A)
  : Prop :=
  forall w a,
    fst (c w) = Return a ->
    exists call r,
      sent (snd (c w)) = sent w ++ [call] /\
      requests_call (sent w) call = Responded r /\
      (200 <= status_code r < 299)%Z.

(** The exceptions that a computation raises *)
Definition raises_only {I A : Type} (E : exn -> Prop) (c : M I A) : Prop :=
  forall w e, fst (c w) = Raise e -> E e.

(** The values that a computation returns *)
Definition returns_only {I A : Type} (Q : A -> Prop) (c : M I A) : Prop :=
  forall w a, fst (c w) = Return a -> Q a.

(** An exception that is not a [requests.ConnectionError] *)
Definition not_ConnectionError (e : exn) : Prop :=
  match e with
  | RequestsError cls _ => is_ConnectionError cls = false
  | _ => True
  end.

(** The methods declared [-> None] *)
Definition returns_None (c : Invocation.invocation) : bool :=
  match c with
  | Invocation.call_onBoardingAwsAccount _ _ _ _ _
  | Invocation.call_onBoardingAzureAccount _ _ _ _ _ _
  | Invocation.call_updateAwsAccountCredentials _ _ _ _
  | Invocation.call_updateRoleById _ _ _ _ _ _ _
  | Invocation.call_updateCloudAccountID _ _ _ _ _ _ _ _ _ _
  | Invocation.call_setCloudSecurityGroupProtectionMode _ _
  | Invocation.call_acquireAwsLease _ _ _ _ _ _ _ _ _ _ _ => true
  | _ => false
  end.

(** The exceptions that a function raises *)
Definition raising {A : Type} (E : exn -> Prop) (r : result A) : Prop :=
  forall e, r = Raise e -> E e.

(** The exceptions of the checks of the arguments *)
Definition argument_error (e : exn) : Prop :=
  e = ValueError \/ e = TypeError.

(** The methods that return what [_request] returns *)
Definition returns_answer (c : Invocation.invocation) : bool :=
  match c with
  | Invocation.call_getCloudAccountRegions _ => false
  | _ => negb (returns_None c)
  end.

(** What [_request] returns on an answer: the decoded body, [None] when the
    answer has no content. *)
Definition body_of (r : Response) (v : value) : Prop :=
  if nonempty (content r) then as_json r = inr v else v = VNone.

(** A computation that returns the body of the answer to its call of
    [requests] *)
Definition returns_body {env : Environment} {I : Type} (c : M I value)
  : Prop :=
  forall w v,
    fst (c w) = Return v ->
    exists call r,
      sent (snd (c w)) = sent w ++ [call] /\
      requests_call (sent w) call = Responded r /\ body_of r v.

(** An answer to [getCloudAccountId]: an account with two regions *)
Definition account_answer : Response :=
  mkResponse 200 (u "OK") [Byte.x7b; Byte.x7d]
    (inr (VDict
            [(u "id", VStr sample_key);
             (u "netSec",
              VDict [(u "regions",
                      VList [VDict [(u "region", VStr (u "us_east_1"))];
                             VDict [(u "region", VStr (u "eu_west_1"))]])])])).

(** ** Routes made of plain segments *)

(** The characters of the identifiers that the checks let through *)
Definition plain : charset := any_of [digit; alnum; one "-"].

(** A segment of a route: not empty, of plain characters *)
Definition plain_segment (g : str) : bool := nonempty g && forallb plain g.

(** The characters of a path of plain segments *)
Definition path_char : charset := fun c => plain c || N.eqb c (chr "/").

(** [url] without the characters that [urlsplit] removes *)
Definition without_unsafe (url : str) : str :=
  fold_left (fun s b => remove b s) _UNSAFE_URL_BYTES_TO_REMOVE url.

(** The URLs that a call of a method asks [requests] for *)
Definition requested {env : Environment} (c : Invocation.invocation)
           (w : world Dome9APISDK.instance) : list str :=
  map c_url (skipn (List.length (sent w))
                   (sent (snd (Invocation.invoke c w)))).

(** A client of the default origin *)
Definition default_client (clientAuth : HTTPBasicAuth)
  : Dome9APISDK.instance :=
  Dome9APISDK.mkInstance (Some Dome9APISDK._ORIGIN) (Some clientAuth).

(** ** URLs of the web *)

(** The scheme of an origin *)
Definition web_scheme (scheme : str) : Prop :=
  scheme = u "http" \/ scheme = u "https".

(** The characters of a host and of its port *)
Definition netloc_char : charset :=
  any_of [alnum; one "-"; one "."; one ":"].

(** The characters of a path whose segments are plain, [.] or [..] *)
Definition rel_char : charset := any_of [plain; one "."; one "/"].

(** The path that [urljoin] makes of the path of the base and of the path
    of a URL that has neither scheme nor network location: the lines of
    [urljoin] from [base_parts = bpath.split('/')] to the last one, where
    an empty result is replaced by [/]. *)
Definition joined_path (bpath path : str) : str :=
  let base_parts := split (chr "/") bpath in
  let base_parts :=
    if negb (str_eqb (last base_parts []) [])
    then removelast base_parts else base_parts in
  let segments :=
    if str_eqb (firstn 1 path) (u "/") then split (chr "/") path
    else filter_middle (base_parts ++ split (chr "/") path) in
  let resolved_path := resolve segments [] in
  let resolved_path :=
    if str_in (last segments []) [u "."; u ".."]
    then resolved_path ++ [[]] else resolved_path in
  let joined := join (u "/") resolved_path in
  if nonempty joined then joined else u "/".

(** * Properties *)

(** ** Strings *)

Lemma str_eqb_eq (a b : str) : str_eqb a b = true <-> a = b.
Proof.
  unfold str_eqb. destruct (list_eq_dec N.eq_dec a b); split; congruence.
Qed.

Lemma if_true_or (a b : bool) :
  (if a then true else b) = true <-> a = true \/ b = true.
Proof. destruct a, b; intuition congruence. Qed.

Lemma if_false_and (a b : bool) :
  (if a then b else false) = true <-> a = true /\ b = true.
Proof. destruct a, b; intuition congruence. Qed.

Lemma at_eos_spec (s : str) : at_eos s = true <-> s = [] \/ s = [LF].
Proof.
  destruct s as [|c [|c' s]]; simpl.
  - intuition.
  - rewrite N.eqb_eq. split.
    + intros ->. now right.
    + intros [H|H]; [discriminate | now inversion H].
  - split; [discriminate | intros [H|H]; discriminate].
Qed.

(** ** The matcher meets the meaning of the patterns *)

Section MatcherSpec.

Variable mr : bool -> str -> cont -> bool.
Variable dr : bool -> str -> bool -> str -> Prop.
Hypothesis mr_spec : forall b s k,
    mr b s k = true <-> exists b' s', dr b s b' s' /\ k b' s' = true.

Lemma rep_spec (k : cont) (fuel : nat) : forall lo b s,
    rep mr k fuel lo b s = true <->
    exists b' s', den_rep dr fuel lo b s b' s' /\ k b' s' = true.
Proof.
  induction fuel as [|f IH]; intros lo b s; destruct lo as [|lo']; simpl.
  - rewrite if_true_or. split.
    + intros [H|H]; [|discriminate]. exists b, s. auto.
    + intros (b' & s' & [[-> ->]|[]] & H). now left.
  - split; [discriminate | intros (b' & s' & [] & _)].
  - rewrite if_true_or, mr_spec. split.
    + intros [H|(b1 & s1 & H1 & H2)].
      * exists b, s. auto.
      * apply IH in H2. destruct H2 as (b' & s' & H2 & H3).
        exists b', s'. split; [right; eauto | assumption].
    + intros (b' & s' & [[-> ->]|(b1 & s1 & H1 & H2)] & H3).
      * now left.
      * right. exists b1, s1. split; [assumption|]. apply IH. eauto.
  - rewrite mr_spec. split.
    + intros (b1 & s1 & H1 & H2). apply IH in H2.
      destruct H2 as (b' & s' & H2 & H3). exists b', s'. eauto.
    + intros (b' & s' & (b1 & s1 & H1 & H2) & H3).
      exists b1, s1. split; [assumption|]. apply IH. eauto.
Qed.

End MatcherSpec.

Lemma m_spec (r : regex) : forall b s k,
    m r b s k = true <-> exists b' s', den r b s b' s' /\ k b' s' = true.
Proof.
  induction r as [|p|r1 IH1 r2 IH2|r1 IH1 r2 IH2|r IH lo hi| |];
    intros b s k; simpl.
  - split; [eauto | intros (b' & s' & [-> ->] & H); exact H].
  - destruct s as [|c s0].
    + split; [discriminate | intros (b' & s' & (c & H & _) & _); discriminate].
    + rewrite if_false_and. split.
      * intros [H1 H2]. exists false, s0. eauto.
      * intros (b' & s' & (c' & H & Hp & ->) & Hk). inversion H; subst. auto.
  - rewrite IH1. split.
    + intros (b1 & s1 & H1 & H2). apply IH2 in H2.
      destruct H2 as (b' & s' & H2 & H3). exists b', s'. eauto.
    + intros (b' & s' & (b1 & s1 & H1 & H2) & H3).
      exists b1, s1. split; [assumption|]. apply IH2. eauto.
  - rewrite if_true_or, IH1, IH2. split.
    + intros [(b' & s' & H1 & H2)|(b' & s' & H1 & H2)]; exists b', s'; auto.
    + intros (b' & s' & [H1|H1] & H2); [left|right]; eauto.
  - apply rep_spec. exact IH.
  - rewrite if_false_and. split.
    + intros [-> H]. exists true, s. auto.
    + intros (b' & s' & (-> & -> & ->) & H). auto.
  - rewrite if_false_and. split.
    + intros [H1 H2]. exists b, s. auto.
    + intros (b' & s' & (H1 & -> & ->) & H). auto.
Qed.

Lemma re_match_spec (r : regex) (s : str) :
  re_match r s = true <-> exists b' s', den r true s b' s'.
Proof.
  unfold re_match. rewrite m_spec. split.
  - intros (b' & s' & H & _). eauto.
  - intros (b' & s' & H). eauto.
Qed.

(** ** Repetition: the bound on the iterations loses nothing *)

Section Iterations.

Variable dr : bool -> str -> bool -> str -> Prop.

Lemma den_rep_iter (fuel : nat) : forall lo b s b' s',
    den_rep dr fuel lo b s b' s' <->
    exists n, lo <= n <= fuel /\ iter dr n b s b' s'.
Proof.
  induction fuel as [|f IH]; intros lo b s b' s'; destruct lo as [|lo'];
    simpl.
  - split.
    + intros [[-> ->]|[]]. exists 0. split; [lia | constructor].
    + intros (n & Hn & Hi). assert (n = 0) by lia. subst n.
      inversion Hi; subst. now left.
  - split; [intros [] | intros (n & Hn & _); lia].
  - split.
    + intros [[-> ->]|(b1 & s1 & H1 & H2)].
      * exists 0. split; [lia | constructor].
      * apply IH in H2. destruct H2 as (n & Hn & Hi).
        exists (S n). split; [lia | econstructor; eauto].
    + intros (n & Hn & Hi). inversion Hi; subst.
      * now left.
      * right. exists b1, s1. split; [assumption|].
        apply IH. eexists. split; [|eassumption]. lia.
  - split.
    + intros (b1 & s1 & H1 & H2). apply IH in H2.
      destruct H2 as (n & Hn & Hi).
      exists (S n). split; [lia | econstructor; eauto].
    + intros (n & Hn & Hi). inversion Hi; subst; [lia|].
      exists b1, s1. split; [assumption|].
      apply IH. eexists. split; [|eassumption]. lia.
Qed.

(** A match goes forward in the string; when it consumes nothing it leaves
    the position as it was. *)
Hypothesis dr_forward : forall b s b' s',
    dr b s b' s' -> exists g, s = g ++ s' /\ (g = [] -> b' = b).

Lemma iter_forward (n : nat) (b : bool) (s : str) (b' : bool) (s' : str) :
  iter dr n b s b' s' -> exists g, s = g ++ s' /\ (g = [] -> b' = b).
Proof.
  induction 1 as [b s|n b s b1 s1 b' s' H1 _ IH].
  - exists []. auto.
  - destruct (dr_forward H1) as (g1 & -> & Hb1).
    destruct IH as (g2 & -> & Hb2).
    exists (g1 ++ g2). split; [apply app_assoc|].
    intros E. apply app_eq_nil in E. destruct E as [E1 E2].
    rewrite (Hb2 E2). auto.
Qed.

(** Iterations that consume nothing can be left out, down to [lo] of
    them. *)
Lemma iter_pump_down (n : nat) (b : bool) (s : str) (b' : bool) (s' : str) :
  iter dr n b s b' s' ->
  forall lo, lo <= n ->
  exists n', lo <= n' /\ n' + List.length s' <= lo + List.length s /\
             iter dr n' b s b' s'.
Proof.
  induction 1 as [b s|n b s b1 s1 b' s' H1 H2 IH]; intros lo Hlo.
  - exists 0. repeat split; [lia | lia | constructor].
  - destruct (dr_forward H1) as (g1 & E1 & Hb1).
    assert (L1 : List.length s = List.length g1 + List.length s1)
      by (rewrite E1; apply length_app).
    destruct lo as [|lo0].
    + destruct (IH 0) as (n' & _ & Hn' & Hi); [lia|].
      destruct g1 as [|c g1].
      * simpl in E1. subst s1. rewrite (Hb1 eq_refl) in Hi.
        exists n'. repeat split; [lia | lia | exact Hi].
      * simpl in L1. exists (S n').
        repeat split; [lia | lia | econstructor; eauto].
    + destruct (IH lo0) as (n' & Hlo' & Hn' & Hi); [lia|].
      exists (S n'). repeat split; [lia | lia | econstructor; eauto].
Qed.

Lemma den_rep_unbounded (lo : nat) (b : bool) (s : str) (b' : bool)
      (s' : str) :
  den_rep dr (lo + List.length s) lo b s b' s' <->
  exists n, lo <= n /\ iter dr n b s b' s'.
Proof.
  rewrite den_rep_iter. split.
  - intros (n & Hn & Hi). exists n. split; [lia | exact Hi].
  - intros (n & Hn & Hi).
    destruct (iter_pump_down Hi Hn) as (n' & H1 & H2 & H3).
    exists n'. split; [lia | exact H3].
Qed.

End Iterations.

Lemma den_rep_forward (dr : bool -> str -> bool -> str -> Prop) :
  (forall b s b' s', dr b s b' s' ->
                     exists g, s = g ++ s' /\ (g = [] -> b' = b)) ->
  forall fuel lo b s b' s',
    den_rep dr fuel lo b s b' s' ->
    exists g, s = g ++ s' /\ (g = [] -> b' = b).
Proof.
  intros Hdr fuel lo b s b' s' H. apply den_rep_iter in H.
  destruct H as (n & _ & Hi). exact (iter_forward Hdr Hi).
Qed.

Lemma den_forward (r : regex) : forall b s b' s',
    den r b s b' s' -> exists g, s = g ++ s' /\ (g = [] -> b' = b).
Proof.
  induction r as [|p|r1 IH1 r2 IH2|r1 IH1 r2 IH2|r IH lo hi| |];
    intros b s b' s'; simpl.
  - intros [-> ->]. exists []. auto.
  - intros (c & -> & _ & ->). exists [c]. split; [reflexivity | discriminate].
  - intros (b1 & s1 & H1 & H2).
    destruct (IH1 _ _ _ _ H1) as (g1 & -> & Hb1).
    destruct (IH2 _ _ _ _ H2) as (g2 & -> & Hb2).
    exists (g1 ++ g2). split; [apply app_assoc|].
    intros E. apply app_eq_nil in E. destruct E as [E1 E2].
    rewrite (Hb2 E2). auto.
  - intros [H|H]; [apply IH1 | apply IH2]; exact H.
  - apply den_rep_forward. exact IH.
  - intros (_ & -> & ->). exists []. auto.
  - intros (_ & -> & ->). exists []. auto.
Qed.

(** What a repetition matches: [n] matches of [r] in a row, with [n] at
    least [lo], and at most [hi] when there is an upper bound. *)
Lemma den_Rep (r : regex) (lo : nat) (hi : option nat) (b : bool) (s : str)
      (b' : bool) (s' : str) :
  den (Rep r lo hi) b s b' s' <->
  exists n, lo <= n /\ match hi with Some h => n <= h | None => True end /\
            iter (den r) n b s b' s'.
Proof.
  destruct hi as [h|]; simpl.
  - rewrite den_rep_iter. split.
    + intros (n & [H1 H2] & Hi). exists n. auto.
    + intros (n & H1 & H2 & Hi). exists n. auto.
  - rewrite (@den_rep_unbounded (den r) (den_forward r)). split.
    + intros (n & Hn & Hi). exists n. auto.
    + intros (n & Hn & _ & Hi). exists n. auto.
Qed.

(** ** Fixed-length runs of a class, single characters *)

Lemma den_rep_cls (p : charset) (n : nat) : forall b s b' s',
    den_rep (den (Cls p)) n n b s b' s' <->
    exists g, s = g ++ s' /\ List.length g = n /\ forallb p g = true /\
              b' = match n with O => b | S _ => false end.
Proof.
  induction n as [|n IH]; intros b s b' s'; simpl.
  - split.
    + intros [[-> ->]|[]]. exists []. auto.
    + intros (g & -> & Hl & _ & ->). destruct g; [now left | discriminate].
  - split.
    + intros (b1 & s1 & (c & -> & Hc & ->) & H). apply IH in H.
      destruct H as (g & -> & Hl & Hg & Hb). exists (c :: g). simpl.
      rewrite Hc, Hg, Hl. repeat split. destruct n; assumption.
    + intros (g & -> & Hl & Hg & ->). destruct g as [|c g]; [discriminate|].
      simpl in Hl, Hg. apply andb_true_iff in Hg. destruct Hg as [Hc Hg].
      exists false, (g ++ s'). split; [exists c; auto|].
      apply IH. exists g. repeat split; [congruence | assumption |].
      destruct n; reflexivity.
Qed.

Lemma den_times_cls (p : charset) (n : nat) (b : bool) (s : str) (b' : bool)
      (s' : str) :
  den (Times (Cls p) n) b s b' s' <->
  exists g, s = g ++ s' /\ List.length g = n /\ forallb p g = true /\
            b' = match n with O => b | S _ => false end.
Proof. apply den_rep_cls. Qed.

Lemma den_chr (a : ascii) (b : bool) (s : str) (b' : bool) (s' : str) :
  den (Chr a) b s b' s' <-> s = chr a :: s' /\ b' = false.
Proof.
  unfold Chr, one; simpl. split.
  - intros (c & -> & Hc & ->). apply N.eqb_eq in Hc. now subst.
  - intros [-> ->]. exists (chr a). rewrite N.eqb_refl. auto.
Qed.

Lemma hex_group_spec (n : nat) (g : str) :
  hex_group n g = true <-> List.length g = n /\ forallb lower_hex g = true.
Proof.
  unfold hex_group. rewrite andb_true_iff, Nat.eqb_eq. reflexivity.
Qed.

(** What [match] finds with the pattern of [_checkIsUUID] *)
Lemma uuid_match_spec (s : str) :
  re_match UUID_PATTERN s = true <->
  exists g1 g2 g3 g4 g5 rest,
    s = g1 ++ chr "-" :: g2 ++ chr "-" :: g3 ++ chr "-" :: g4 ++ chr "-"
           :: g5 ++ rest /\
    hex_group 8 g1 = true /\ hex_group 4 g2 = true /\ hex_group 4 g3 = true /\
    hex_group 4 g4 = true /\ hex_group 12 g5 = true /\ at_eos rest = true.
Proof.
  rewrite re_match_spec. unfold UUID_PATTERN, hex. split.
  - intros (b' & s' & H).
    destruct H as (b0 & s0 & (_ & Eb0 & Es0) & H).
    destruct H as (b1 & s1 & H1 & H). apply den_times_cls in H1.
    destruct H1 as (g1 & E1 & L1 & F1 & Eb1).
    destruct H as (c1 & t1 & H1 & H). apply den_chr in H1. destruct H1 as [D1 _].
    destruct H as (b2 & s2 & H2 & H). apply den_times_cls in H2.
    destruct H2 as (g2 & E2 & L2 & F2 & Eb2).
    destruct H as (c2 & t2 & H2 & H). apply den_chr in H2. destruct H2 as [D2 _].
    destruct H as (b3 & s3 & H3 & H). apply den_times_cls in H3.
    destruct H3 as (g3 & E3 & L3 & F3 & Eb3).
    destruct H as (c3 & t3 & H3 & H). apply den_chr in H3. destruct H3 as [D3 _].
    destruct H as (b4 & s4 & H4 & H). apply den_times_cls in H4.
    destruct H4 as (g4 & E4 & L4 & F4 & Eb4).
    destruct H as (c4 & t4 & H4 & H). apply den_chr in H4. destruct H4 as [D4 _].
    destruct H as (b5 & s5 & H5 & H). apply den_times_cls in H5.
    destruct H5 as (g5 & E5 & L5 & F5 & Eb5).
    destruct H as (He & _ & Es).
    exists g1, g2, g3, g4, g5, s5. rewrite !hex_group_spec.
    repeat split; try assumption. congruence.
  - intros (g1 & g2 & g3 & g4 & g5 & rest & -> & H1 & H2 & H3 & H4 & H5 & He).
    rewrite hex_group_spec in H1, H2, H3, H4, H5.
    destruct H1 as [L1 F1], H2 as [L2 F2], H3 as [L3 F3], H4 as [L4 F4],
             H5 as [L5 F5].
    exists false, rest.
    eexists true, _. split; [simpl; eauto|].
    eexists false, _. split; [apply den_times_cls; exists g1; eauto|].
    eexists false, _. split; [apply den_chr; eauto|].
    eexists false, _. split; [apply den_times_cls; exists g2; eauto|].
    eexists false, _. split; [apply den_chr; eauto|].
    eexists false, _. split; [apply den_times_cls; exists g3; eauto|].
    eexists false, _. split; [apply den_chr; eauto|].
    eexists false, _. split; [apply den_times_cls; exists g4; eauto|].
    eexists false, _. split; [apply den_chr; eauto|].
    eexists false, _. split; [apply den_times_cls; exists g5; eauto|].
    simpl. auto.
Qed.

(** ** Splitting on a separator *)

Lemma split_not_nil (sep : codepoint) (s : str) : split sep s <> [].
Proof.
  destruct s as [|x s]; simpl; [discriminate|].
  destruct (N.eqb x sep); [discriminate|].
  destruct (split sep s); discriminate.
Qed.

Lemma join_split (sep : codepoint) (s : str) : join [sep] (split sep s) = s.
Proof.
  induction s as [|x s IH]; simpl; [reflexivity|].
  destruct (N.eqb x sep) eqn:E.
  - apply N.eqb_eq in E. subst x.
    pose proof (split_not_nil sep s) as Hn.
    destruct (split sep s) as [|h t] eqn:Es; [contradiction|].
    change (join [sep] ([] :: h :: t)) with ([] ++ [sep] ++ join [sep] (h :: t)).
    rewrite IH. reflexivity.
  - pose proof (split_not_nil sep s) as Hn.
    destruct (split sep s) as [|h t] eqn:Es; [contradiction|].
    destruct t as [|h' t].
    + simpl in IH |- *. congruence.
    + change (join [sep] ((x :: h) :: h' :: t))
        with ((x :: h) ++ [sep] ++ join [sep] (h' :: t)).
      change (join [sep] (h :: h' :: t))
        with (h ++ [sep] ++ join [sep] (h' :: t)) in IH.
      rewrite <- IH. reflexivity.
Qed.

Lemma split_without (sep : codepoint) (g : str) :
  forallb (fun c => negb (N.eqb c sep)) g = true -> split sep g = [g].
Proof.
  induction g as [|x g IH]; simpl; [reflexivity|].
  intros H. apply andb_true_iff in H. destruct H as [Hx Hg].
  apply negb_true_iff in Hx. rewrite Hx, (IH Hg). reflexivity.
Qed.

Lemma split_app_sep (sep : codepoint) (g rest : str) :
  forallb (fun c => negb (N.eqb c sep)) g = true ->
  split sep (g ++ sep :: rest) = g :: split sep rest.
Proof.
  induction g as [|x g IH]; simpl.
  - intros _. rewrite N.eqb_refl. reflexivity.
  - intros H. apply andb_true_iff in H. destruct H as [Hx Hg].
    apply negb_true_iff in Hx. rewrite Hx, (IH Hg). reflexivity.
Qed.

Lemma forallb_weaken {A : Type} (p q : A -> bool) (l : list A) :
  (forall x, p x = true -> q x = true) ->
  forallb p l = true -> forallb q l = true.
Proof.
  intros Hpq. induction l as [|x l IH]; simpl; [reflexivity|].
  intros H. apply andb_true_iff in H. destruct H as [Hx Hl].
  rewrite (Hpq _ Hx), (IH Hl). reflexivity.
Qed.

Lemma lower_hex_not_hyphen (c : codepoint) :
  lower_hex c = true -> negb (N.eqb c (chr "-")) = true.
Proof.
  intros H. destruct (N.eqb c (chr "-")) eqn:E; [|reflexivity].
  apply N.eqb_eq in E. subst c. discriminate H.
Qed.

Lemma hex_group_no_hyphen (n : nat) (g : str) :
  hex_group n g = true -> forallb (fun c => negb (N.eqb c (chr "-"))) g = true.
Proof.
  intros H. apply hex_group_spec in H. destruct H as [_ H].
  revert H. apply forallb_weaken, lower_hex_not_hyphen.
Qed.

(** The canonical form, as a decomposition *)
Lemma canonical_uuid_spec (s : str) :
  canonical_uuid s = true <->
  exists g1 g2 g3 g4 g5,
    s = g1 ++ chr "-" :: g2 ++ chr "-" :: g3 ++ chr "-" :: g4 ++ chr "-" :: g5 /\
    hex_group 8 g1 = true /\ hex_group 4 g2 = true /\ hex_group 4 g3 = true /\
    hex_group 4 g4 = true /\ hex_group 12 g5 = true.
Proof.
  unfold canonical_uuid. split.
  - intros H. pose proof (join_split (chr "-") s) as J.
    destruct (split (chr "-") s) as [|g1 [|g2 [|g3 [|g4 [|g5 [|g6 t]]]]]];
      try discriminate.
    rewrite !andb_true_iff in H. destruct H as [[[[H1 H2] H3] H4] H5].
    exists g1, g2, g3, g4, g5. repeat split; try assumption.
    rewrite <- J. reflexivity.
  - intros (g1 & g2 & g3 & g4 & g5 & -> & H1 & H2 & H3 & H4 & H5).
    rewrite !split_app_sep, split_without by eauto using hex_group_no_hyphen.
    rewrite H1, H2, H3, H4, H5. reflexivity.
Qed.

(** The strings that [match] accepts with the pattern of [_checkIsUUID]:
    the canonical ones, and the canonical ones followed by a line feed. *)
Lemma uuid_match_canonical (s : str) :
  re_match UUID_PATTERN s = true <->
  canonical_uuid s = true \/
  exists s', s = s' ++ [LF] /\ canonical_uuid s' = true.
Proof.
  rewrite uuid_match_spec. split.
  - intros (g1 & g2 & g3 & g4 & g5 & rest & -> & H1 & H2 & H3 & H4 & H5 & He).
    apply at_eos_spec in He. destruct He as [-> | ->].
    + left. apply canonical_uuid_spec. exists g1, g2, g3, g4, g5.
      rewrite app_nil_r. auto 10.
    + right.
      exists (g1 ++ chr "-" :: g2 ++ chr "-" :: g3 ++ chr "-" :: g4 ++ chr "-"
                 :: g5).
      split.
      * repeat (rewrite <- app_assoc; rewrite <- app_comm_cons). reflexivity.
      * apply canonical_uuid_spec. exists g1, g2, g3, g4, g5. auto 10.
  - intros [H | (s' & -> & H)]; apply canonical_uuid_spec in H;
      destruct H as (g1 & g2 & g3 & g4 & g5 & -> & H1 & H2 & H3 & H4 & H5).
    + exists g1, g2, g3, g4, g5, []. rewrite app_nil_r. auto 10.
    + exists g1, g2, g3, g4, g5, [LF]. repeat split; try assumption.
      repeat (rewrite <- app_assoc; rewrite <- app_comm_cons). reflexivity.
Qed.

(** ** The octets of the pattern of [_checkIsIP] *)

Lemma rng_bounds (lo hi : ascii) (c : codepoint) :
  rng lo hi c = true <-> (chr lo <= c <= chr hi)%N.
Proof.
  unfold rng. rewrite andb_true_iff, !N.leb_le. reflexivity.
Qed.

Lemma ascii_digit_is_digit (c : codepoint) :
  rng "0" "9" c = true -> digit c = true.
Proof.
  rewrite rng_bounds. change (chr "0") with 48%N. change (chr "9") with 57%N.
  intros [H1 H2]. unfold digit, decimal_zeros.
  change (existsb ?f (48%N :: ?l)) with (f 48%N || existsb f l).
  apply orb_true_iff. left. apply andb_true_iff. split.
  - apply N.leb_le. exact H1.
  - apply N.ltb_lt. lia.
Qed.

Lemma rng_is_digit (lo hi : ascii) (c : codepoint) :
  (chr "0" <= chr lo)%N -> (chr hi <= chr "9")%N ->
  rng lo hi c = true -> digit c = true.
Proof.
  intros Hlo Hhi H. apply ascii_digit_is_digit.
  apply rng_bounds in H. apply rng_bounds. lia.
Qed.

Lemma one_is_digit (a : ascii) (c : codepoint) :
  digit (chr a) = true -> one a c = true -> digit c = true.
Proof.
  intros Ha H. unfold one in H. apply N.eqb_eq in H. now subst.
Qed.

Lemma octet_form_digits (o : str) :
  octet_form o = true -> forallb digit o = true.
Proof.
  destruct o as [|a [|b [|c [|x t]]]]; simpl; try discriminate.
  - intros ->. reflexivity.
  - rewrite andb_true_iff. intros [Ha ->].
    rewrite (rng_is_digit "1" "9" a); [reflexivity | discriminate .. | exact Ha].
  - rewrite !orb_true_iff, !andb_true_iff.
    intros [[[[Ha Hb] Hc] | [[Ha Hb] Hc]] | [[Ha Hb] Hc]].
    + rewrite (one_is_digit "1" a), Hb, Hc; auto.
    + rewrite (one_is_digit "2" a), (rng_is_digit "0" "4" b), Hc; auto;
        discriminate.
    + rewrite (one_is_digit "2" a), (one_is_digit "5" b),
        (rng_is_digit "0" "5" c); auto; discriminate.
Qed.

Lemma digit_not_dot (c : codepoint) :
  digit c = true -> negb (N.eqb c (chr ".")) = true.
Proof.
  intros H. destruct (N.eqb c (chr ".")) eqn:E; [|reflexivity].
  apply N.eqb_eq in E. subst c. discriminate H.
Qed.

Lemma octet_form_no_dot (o : str) :
  octet_form o = true -> forallb (fun c => negb (N.eqb c (chr "."))) o = true.
Proof.
  intros H. apply octet_form_digits in H. revert H.
  apply forallb_weaken, digit_not_dot.
Qed.

Lemma den_cls (p : charset) (b : bool) (s : str) (b' : bool) (s' : str) :
  den (Cls p) b s b' s' <-> exists c, s = c :: s' /\ p c = true /\ b' = false.
Proof. reflexivity. Qed.

(** What the alternatives of an octet match *)
Lemma den_octet (b : bool) (s : str) (b' : bool) (s' : str) :
  den OCTET b s b' s' <->
  exists o, s = o ++ s' /\ octet_form o = true /\ b' = false.
Proof.
  unfold OCTET, d. split.
  - intros [H | [H | [H | [H | H]]]].
    + destruct H as (a & -> & Ha & ->). exists [a]. simpl. auto.
    + destruct H as (b1 & s1 & (a & -> & Ha & ->) & (c & -> & Hc & ->)).
      exists [a; c]. simpl. rewrite Ha, Hc. auto.
    + destruct H as (b1 & s1 & H1 & H2). apply den_chr in H1.
      destruct H1 as [-> ->]. apply den_times_cls in H2.
      destruct H2 as (g & -> & Hl & Hg & ->).
      destruct g as [|x [|y [|z t]]]; try discriminate.
      simpl in Hg. rewrite !andb_true_iff in Hg. destruct Hg as (Hx & Hy & _).
      exists [chr "1"; x; y]. simpl. rewrite Hx, Hy. auto.
    + destruct H as (b1 & s1 & H1 & b2 & s2 & (x & -> & Hx & ->)
                     & (y & -> & Hy & ->)).
      apply den_chr in H1. destruct H1 as [-> ->].
      exists [chr "2"; x; y]. simpl. rewrite Hx, Hy. simpl. auto.
    + destruct H as (b1 & s1 & H1 & b2 & s2 & H2 & (y & -> & Hy & ->)).
      apply den_chr in H1. destruct H1 as [-> ->].
      apply den_chr in H2. destruct H2 as [-> ->].
      exists [chr "2"; chr "5"; y]. simpl. rewrite Hy.
      try rewrite orb_true_r. auto.
  - intros (o & -> & Ho & ->).
    destruct o as [|x [|y [|z [|w t]]]]; simpl in Ho; try discriminate.
    + left. exists x. auto.
    + right; left. apply andb_true_iff in Ho. destruct Ho as [Hx Hy].
      exists false, (y :: s'). split; [exists x; auto | exists y; auto].
    + rewrite !orb_true_iff, !andb_true_iff in Ho.
      destruct Ho as [[[[Hx Hy] Hz] | [[Hx Hy] Hz]] | [[Hx Hy] Hz]].
      * right; right; left. apply N.eqb_eq in Hx. subst x.
        exists false, (y :: z :: s'). split; [apply den_chr; auto|].
        apply den_times_cls. exists [y; z]. simpl. rewrite Hy, Hz. auto.
      * right; right; right; left. apply N.eqb_eq in Hx. subst x.
        exists false, (y :: z :: s'). split; [apply den_chr; auto|].
        exists false, (z :: s'). split; [exists y; auto | exists z; auto].
      * right; right; right; right.
        apply N.eqb_eq in Hx. subst x. apply N.eqb_eq in Hy. subst y.
        exists false, (chr "5" :: z :: s'). split; [apply den_chr; auto|].
        exists false, (z :: s'). split; [apply den_chr; auto | exists z; auto].
Qed.

Lemma den_octet_dot (b : bool) (s : str) (b' : bool) (s' : str) :
  den (OCTET +> Chr ".") b s b' s' <->
  exists o, s = o ++ chr "." :: s' /\ octet_form o = true /\ b' = false.
Proof.
  split.
  - intros (b1 & s1 & H1 & H2). apply den_octet in H1. apply den_chr in H2.
    destruct H1 as (o & -> & Ho & ->), H2 as [-> ->]. eauto.
  - intros (o & -> & Ho & ->). exists false, (chr "." :: s'). split.
    + apply den_octet. eauto.
    + apply den_chr. auto.
Qed.

(** What [match] finds with the pattern of [_checkIsIP] *)
Lemma ip_match_spec (s : str) :
  re_match IP_PATTERN s = true <->
  exists o1 o2 o3 o4 rest,
    s = o1 ++ chr "." :: o2 ++ chr "." :: o3 ++ chr "." :: o4 ++ rest /\
    octet_form o1 = true /\ octet_form o2 = true /\ octet_form o3 = true /\
    octet_form o4 = true /\ at_eos rest = true.
Proof.
  rewrite re_match_spec. unfold IP_PATTERN. split.
  - intros (b' & s' & H).
    destruct H as (b0 & s0 & (_ & Eb0 & Es0) & H).
    destruct H as (b3 & s3 & H3 & H).
    destruct H3 as (c1 & t1 & H1 & c2 & t2 & H2 & c3 & t3 & H3 & [[_ E3]|[]]).
    apply den_octet_dot in H1, H2, H3.
    destruct H1 as (o1 & E1 & F1 & _), H2 as (o2 & E2 & F2 & _),
             H3 as (o3 & E3' & F3 & _).
    destruct H as (b4 & s4 & H4 & (He & _ & Es)).
    apply den_octet in H4. destruct H4 as (o4 & E4 & F4 & _).
    exists o1, o2, o3, o4, s4. repeat split; try assumption. congruence.
  - intros (o1 & o2 & o3 & o4 & rest & -> & F1 & F2 & F3 & F4 & He).
    exists false, rest.
    eexists true, _. split; [simpl; eauto|].
    eexists false, _. split.
    + eexists false, _. split; [apply den_octet_dot; exists o1; eauto|].
      eexists false, _. split; [apply den_octet_dot; exists o2; eauto|].
      eexists false, _. split; [apply den_octet_dot; exists o3; eauto|].
      left. split; reflexivity.
    + eexists false, _. split; [apply den_octet; exists o4; eauto|].
      simpl. auto.
Qed.

Lemma dotted_quad_spec (s : str) :
  dotted_quad s = true <->
  exists o1 o2 o3 o4,
    s = o1 ++ chr "." :: o2 ++ chr "." :: o3 ++ chr "." :: o4 /\
    octet_form o1 = true /\ octet_form o2 = true /\ octet_form o3 = true /\
    octet_form o4 = true.
Proof.
  unfold dotted_quad. split.
  - intros H. pose proof (join_split (chr ".") s) as J.
    destruct (split (chr ".") s) as [|o1 [|o2 [|o3 [|o4 [|o5 t]]]]];
      try discriminate.
    simpl in H. rewrite !andb_true_iff in H.
    destruct H as (H1 & H2 & H3 & H4 & _).
    exists o1, o2, o3, o4. repeat split; try assumption.
    rewrite <- J. reflexivity.
  - intros (o1 & o2 & o3 & o4 & -> & H1 & H2 & H3 & H4).
    rewrite !split_app_sep, split_without by eauto using octet_form_no_dot.
    simpl. rewrite H1, H2, H3, H4. reflexivity.
Qed.

(** The strings that [match] accepts with the pattern of [_checkIsIP] *)
Lemma ip_match_dotted_quad (s : str) :
  re_match IP_PATTERN s = true <->
  dotted_quad s = true \/ exists s', s = s' ++ [LF] /\ dotted_quad s' = true.
Proof.
  rewrite ip_match_spec. split.
  - intros (o1 & o2 & o3 & o4 & rest & -> & H1 & H2 & H3 & H4 & He).
    apply at_eos_spec in He. destruct He as [-> | ->].
    + left. apply dotted_quad_spec. exists o1, o2, o3, o4.
      rewrite app_nil_r. auto 10.
    + right. exists (o1 ++ chr "." :: o2 ++ chr "." :: o3 ++ chr "." :: o4).
      split.
      * repeat (rewrite <- app_assoc; rewrite <- app_comm_cons). reflexivity.
      * apply dotted_quad_spec. exists o1, o2, o3, o4. auto 10.
  - intros [H | (s' & -> & H)]; apply dotted_quad_spec in H;
      destruct H as (o1 & o2 & o3 & o4 & -> & H1 & H2 & H3 & H4).
    + exists o1, o2, o3, o4, []. rewrite app_nil_r. auto 10.
    + exists o1, o2, o3, o4, [LF]. repeat split; try assumption.
      repeat (rewrite <- app_assoc; rewrite <- app_comm_cons). reflexivity.
Qed.

(** On ASCII digits the octets of the pattern are decimal numerals of a
    value up to 255, and every such value has its numeral among them. *)
Lemma octet_form_value (o : str) :
  octet_form o = true -> forallb (rng "0" "9") o = true ->
  decimal_octet o = true.
Proof.
  unfold decimal_octet. intros H A. rewrite A, andb_true_r.
  destruct o as [|a [|b [|c [|x t]]]]; simpl in H; try discriminate;
    simpl in A; rewrite ?andb_true_iff in A; rewrite ?rng_bounds in A;
    unfold decimal_value; cbn [fold_left nonempty];
    change (chr "0") with 48%N in *; change (chr "9") with 57%N in *;
    apply N.leb_le;
    repeat match goal with x : codepoint |- _ => change N in x end.
  - lia.
  - lia.
  - rewrite !orb_true_iff, !andb_true_iff in H. unfold one in H.
    rewrite !N.eqb_eq, !rng_bounds in H.
    change (chr "0") with 48%N in *; change (chr "1") with 49%N in *;
    change (chr "2") with 50%N in *; change (chr "4") with 52%N in *;
    change (chr "5") with 53%N in *.
    lia.
Qed.

Lemma octet_form_numeral (n : Z) :
  (0 <= n <= 255)%Z -> octet_form (str_of_int n) = true.
Proof.
  intros Hn.
  assert (T : forallb (fun k => octet_form (str_of_int (Z.of_nat k)))
                      (seq 0 256) = true) by (vm_compute; reflexivity).
  rewrite forallb_forall in T. specialize (T (Z.to_nat n)).
  rewrite Z2Nat.id in T by lia. apply T. apply in_seq. lia.
Qed.

(** ** The validators on a string *)

Lemma checkIsUUID_on_str (s : str) (optional : bool) :
  _checkIsUUID (Some s) optional =
  if re_match UUID_PATTERN s then Return tt else Raise ValueError.
Proof.
  unfold _checkIsUUID. rewrite andb_false_r. simpl.
  destruct (re_match UUID_PATTERN s); reflexivity.
Qed.

Lemma checkIsIP_on_str (s : str) (optional : bool) :
  _checkIsIP (Some s) optional =
  if re_match IP_PATTERN s then Return tt else Raise ValueError.
Proof.
  unfold _checkIsIP. rewrite andb_false_r. simpl.
  destruct (re_match IP_PATTERN s); reflexivity.
Qed.

Lemma accepted_or_rejected (b : bool) (P : Prop) :
  (b = true <-> P) ->
  ((if b then Return tt else Raise ValueError) = Return tt <-> P) /\
  ((if b then Return tt else Raise ValueError) = Raise ValueError <-> ~ P).
Proof.
  intros H. destruct b.
  - assert (HP : P) by (apply H; reflexivity). split; split.
    + intros _. exact HP.
    + reflexivity.
    + discriminate.
    + intros HN. contradiction.
  - assert (HN : ~ P) by (intros HP; apply H in HP; discriminate).
    split; split.
    + discriminate.
    + intros HP. contradiction.
    + intros _. exact HN.
    + reflexivity.
Qed.

(** C4, as amended. [_checkIsUUID] returns on a string exactly when the
    string has the canonical 8-4-4-4-12 lowercase hexadecimal form with
    hyphens, or is a string of that form followed by one line feed; on
    every other string it raises [ValueError]. *)
Theorem checkIsUUID_accepts (s : str) (optional : bool) :
  (_checkIsUUID (Some s) optional = Return tt <->
   canonical_uuid s = true \/
   exists s', s = s' ++ [LF] /\ canonical_uuid s' = true) /\
  (_checkIsUUID (Some s) optional = Raise ValueError <->
   ~ (canonical_uuid s = true \/
      exists s', s = s' ++ [LF] /\ canonical_uuid s' = true)).
Proof.
  rewrite checkIsUUID_on_str. apply accepted_or_rejected.
  apply uuid_match_canonical.
Qed.

(** C4, as stated, fails: a canonical UUID followed by a line feed is not
    of the canonical form, and [_checkIsUUID] returns on it. *)
Lemma checkIsUUID_accepts_line_feed :
  canonical_uuid (u "01234567-89ab-cdef-0123-456789abcdef" ++ [LF]) = false /\
  _checkIsUUID (Some (u "01234567-89ab-cdef-0123-456789abcdef" ++ [LF])) false
  = Return tt.
Proof. split; vm_compute; reflexivity. Qed.

(** C7, as amended. [_checkIsIP] returns on a string exactly when the
    string is four octets separated by dots, or such a string followed by
    one line feed, an octet being of one of the forms [d], [[1-9]d], [1dd],
    [2[0-4]d], [25[0-5]] with [d] any decimal digit of Unicode; on every
    other string it raises [ValueError]. The decimal numeral of every value
    from 0 to 255 is such an octet, and such an octet of ASCII digits
    denotes a value from 0 to 255. *)
Theorem checkIsIP_accepts (s : str) (optional : bool) :
  (_checkIsIP (Some s) optional = Return tt <->
   dotted_quad s = true \/ exists s', s = s' ++ [LF] /\ dotted_quad s' = true) /\
  (_checkIsIP (Some s) optional = Raise ValueError <->
   ~ (dotted_quad s = true \/
      exists s', s = s' ++ [LF] /\ dotted_quad s' = true)) /\
  (forall n : Z, (0 <= n <= 255)%Z -> octet_form (str_of_int n) = true) /\
  (forall o : str, octet_form o = true -> forallb (rng "0" "9") o = true ->
                   decimal_octet o = true).
Proof.
  rewrite checkIsIP_on_str.
  destruct (accepted_or_rejected (ip_match_dotted_quad s)) as [H1 H2].
  repeat split; try apply H1; try apply H2.
  - apply octet_form_numeral.
  - apply octet_form_value.
Qed.

(** C7, as stated, fails both ways: a dotted quad followed by a line feed is
    not four dot-separated decimal octets, and [_checkIsIP] returns on it;
    [01.2.3.4] is four dot-separated decimal octets with values up to 255,
    and [_checkIsIP] raises [ValueError] on it. *)
Lemma checkIsIP_line_feed_and_leading_zero :
  (dotted_decimal_octets (u "1.2.3.4" ++ [LF]) = false /\
   _checkIsIP (Some (u "1.2.3.4" ++ [LF])) false = Return tt) /\
  (dotted_decimal_octets (u "01.2.3.4") = true /\
   _checkIsIP (Some (u "01.2.3.4")) false = Raise ValueError).
Proof. repeat split; vm_compute; reflexivity. Qed.

(** ** The dispatcher *)

Section Dispatcher.

Context {env : Environment}.

Variables (method : Dome9APISDK._RequestMethods) (route : str).
Variables (body params : value).
Variables (origin : str) (clientAuth : HTTPBasicAuth) (log : list Call).

Let w : world Dome9APISDK.instance :=
  mkWorld (Dome9APISDK.mkInstance (Some origin) (Some clientAuth)) log.

(** The run of [_request] on a client that has its attributes, step by
    step. *)
Lemma request_run :
  Dome9APISDK._request method route body params w =
  match urljoin origin route true with
  | Raise e => (Raise e, w)
  | Return url =>
      let c := mkCall (Dome9APISDK.method_value method) url body params
                      json_headers clientAuth in
      let w' := mkWorld (self w) (log ++ [c]) in
      match requests_call log c with
      | Raised (RequestsError cls text) =>
          if is_ConnectionError cls
          then (Raise (Dome9APIException (url ++ u " " ++ text) None None), w')
          else (Raise (RequestsError cls text), w')
      | Raised e => (Raise e, w')
      | Responded r =>
          if in_range (status_code r) 200 299 then
            if nonempty (content r) then
              match as_json r with
              | inr v => (Return v, w')
              | inl msg =>
                  (Raise (Dome9APIException msg (Some (status_code r))
                                            (Some (content r))), w')
              end
            else (Return VNone, w')
          else (Raise (Dome9APIException (reason r) (Some (status_code r))
                                         (Some (content r))), w')
      end
  end.
Proof.
  unfold Dome9APISDK._request, bind, getattr, lift, try_except, request,
    raise, ret, w.
  cbn [self sent Dome9APISDK._origin Dome9APISDK._clientAuth].
  destruct (urljoin origin route true) as [url|e]; [|reflexivity].
  cbn zeta. fold json_headers.
  destruct (requests_call log _) as [r|e].
  - destruct (in_range (status_code r) 200 299); cbn [negb];
      [|reflexivity].
    destruct (nonempty (content r)); [|reflexivity].
    destruct (as_json r); reflexivity.
  - destruct e as [| | | |cls text|]; try reflexivity.
    destruct (is_ConnectionError cls); reflexivity.
Qed.

End Dispatcher.

Lemma in_range_bounds (x start stop : Z) :
  in_range x start stop = true <-> (start <= x < stop)%Z.
Proof.
  unfold in_range. rewrite andb_true_iff, Z.leb_le, Z.ltb_lt. reflexivity.
Qed.

(** C1. When [requests] hands a response to [_request], the status code
    counts as a success exactly when it lies in 200..298 (299 does not):
    outside of that range [_request] raises [Dome9APIException] with the
    reason phrase as message, the status code as code and the body as
    content; inside of it the outcome is decided by the body alone. *)
Theorem status_code_classification
        (env : Environment) (method : Dome9APISDK._RequestMethods)
        (route : str) (body params : value) (origin : str)
        (clientAuth : HTTPBasicAuth) (log : list Call) (url : str)
        (r : Response) :
  urljoin origin route true = Return url ->
  requests_call log (mkCall (Dome9APISDK.method_value method) url body params
                            json_headers clientAuth) = Responded r ->
  let result :=
    fst (Dome9APISDK._request method route body params
           (mkWorld (Dome9APISDK.mkInstance (Some origin) (Some clientAuth))
                    log)) in
  (in_range (status_code r) 200 299 = true <->
   (200 <= status_code r <= 298)%Z) /\
  in_range 299 200 299 = false /\
  (~ (200 <= status_code r <= 298)%Z ->
   result = Raise (Dome9APIException (reason r) (Some (status_code r))
                                     (Some (content r)))) /\
  ((200 <= status_code r <= 298)%Z ->
   result = Return VNone /\ content r = [] \/
   (exists v, result = Return v /\ as_json r = inr v) \/
   (exists msg,
       result = Raise (Dome9APIException msg (Some (status_code r))
                                         (Some (content r))) /\
       as_json r = inl msg)).
Proof.
  intros Hurl Hcall result. subst result.
  rewrite request_run, Hurl. cbn zeta. rewrite Hcall.
  assert (Hr : in_range (status_code r) 200 299 = true <->
               (200 <= status_code r <= 298)%Z)
    by (rewrite in_range_bounds; lia).
  split; [exact Hr|]. split; [reflexivity|]. split.
  - intros Hout. destruct (in_range (status_code r) 200 299).
    + exfalso. apply Hout, Hr. reflexivity.
    + reflexivity.
  - intros Hin. apply Hr in Hin. rewrite Hin.
    destruct (content r) as [|x t]; cbn [nonempty fst].
    + left. split; reflexivity.
    + right. destruct (as_json r) as [msg|v]; [right | left].
      * exists msg. split; reflexivity.
      * exists v. split; reflexivity.
Qed.

(** A 404 with a body: the reason phrase, the code and the body travel in
    the exception. *)
Lemma status_code_classification_witness :
  fst (@Dome9APISDK._request (answering (Responded not_found)) Dome9APISDK.GET
         (u "user") VNone VNone (mkWorld sample_client []))
  = Raise (Dome9APIException (u "Not Found") (Some 404%Z)
                             (Some [Byte.x7b; Byte.x7d])).
Proof.
  refine (proj1 (proj2 (proj2
    (@status_code_classification (answering (Responded not_found))
       Dome9APISDK.GET (u "user") VNone VNone Dome9APISDK._ORIGIN sample_auth
       [] (u "https://api.dome9.com/v2/user") not_found _ _))) _).
  - reflexivity.
  - reflexivity.
  - cbn. lia.
Defined.

(** C2. On a response with a success status: an empty body makes
    [_request] return [None]; a body that [json()] decodes is returned as
    decoded; a body on which [json()] raises [ValueError] makes [_request]
    raise [Dome9APIException] with the message of that error, the status
    code and the body. *)
Theorem success_body_handling
        (env : Environment) (method : Dome9APISDK._RequestMethods)
        (route : str) (body params : value) (origin : str)
        (clientAuth : HTTPBasicAuth) (log : list Call) (url : str)
        (r : Response) :
  urljoin origin route true = Return url ->
  requests_call log (mkCall (Dome9APISDK.method_value method) url body params
                            json_headers clientAuth) = Responded r ->
  in_range (status_code r) 200 299 = true ->
  let result :=
    fst (Dome9APISDK._request method route body params
           (mkWorld (Dome9APISDK.mkInstance (Some origin) (Some clientAuth))
                    log)) in
  (content r = [] -> result = Return VNone) /\
  (content r <> [] -> forall v, as_json r = inr v -> result = Return v) /\
  (content r <> [] -> forall msg, as_json r = inl msg ->
   result = Raise (Dome9APIException msg (Some (status_code r))
                                     (Some (content r)))).
Proof.
  intros Hurl Hcall Hok result. subst result.
  rewrite request_run, Hurl. cbn zeta. rewrite Hcall, Hok.
  destruct (content r) as [|x t]; cbn [nonempty].
  - split; [reflexivity|]. split; intros H; contradiction.
  - split; [discriminate|].
    split; intros _ a Ha; rewrite Ha; reflexivity.
Qed.

(** A 204 without a body returns [None]. *)
Lemma success_body_handling_witness :
  fst (@Dome9APISDK._request (answering (Responded no_content))
         Dome9APISDK.DELETE (u "user") VNone VNone
         (mkWorld sample_client []))
  = Return VNone.
Proof.
  refine (proj1
    (@success_body_handling (answering (Responded no_content))
       Dome9APISDK.DELETE (u "user") VNone VNone Dome9APISDK._ORIGIN
       sample_auth [] (u "https://api.dome9.com/v2/user") no_content _ _ _) _);
    reflexivity.
Defined.

(** A decoded body is returned as it is; a body that does not decode raises
    with code 200. *)
Lemma success_body_examples :
  fst (@Dome9APISDK._request (answering (Responded ok_list)) Dome9APISDK.GET
         (u "user") VNone VNone (mkWorld sample_client []))
  = Return (VList []) /\
  fst (@Dome9APISDK._request (answering (Responded ok_not_json))
         Dome9APISDK.GET (u "user") VNone VNone (mkWorld sample_client []))
  = Raise (Dome9APIException (u "Expecting value") (Some 200%Z)
                             (Some [Byte.x6e; Byte.x6f])).
Proof. split; vm_compute; reflexivity. Qed.

(** C6, as amended. When the call of [requests] raises an exception of class
    [requests.ConnectionError] (or of a subclass), [_request] raises
    [Dome9APIException] whose message is the URL, a space and the text of
    that exception, without code or content. Any other exception of the
    call leaves [_request] as it was raised. *)
Theorem connection_error_wrapped
        (env : Environment) (method : Dome9APISDK._RequestMethods)
        (route : str) (body params : value) (origin : str)
        (clientAuth : HTTPBasicAuth) (log : list Call) (url : str)
        (e : exn) :
  urljoin origin route true = Return url ->
  requests_call log (mkCall (Dome9APISDK.method_value method) url body params
                            json_headers clientAuth) = Raised e ->
  let result :=
    fst (Dome9APISDK._request method route body params
           (mkWorld (Dome9APISDK.mkInstance (Some origin) (Some clientAuth))
                    log)) in
  (forall cls text, e = RequestsError cls text ->
                    is_ConnectionError cls = true ->
                    result = Raise (Dome9APIException (url ++ u " " ++ text)
                                                      None None)) /\
  ((forall cls text, e = RequestsError cls text ->
                     is_ConnectionError cls = false) ->
   result = Raise e).
Proof.
  intros Hurl Hcall result. subst result.
  rewrite request_run, Hurl. cbn zeta. rewrite Hcall. split.
  - intros cls text -> Hc. rewrite Hc. reflexivity.
  - intros Hother. destruct e as [| | | |cls text|]; try reflexivity.
    rewrite (Hother cls text eq_refl). reflexivity.
Qed.

(** A refused connection *)
Lemma connection_error_wrapped_witness :
  fst (@Dome9APISDK._request
         (answering (Raised (RequestsError ConnectionError (u "refused"))))
         Dome9APISDK.GET (u "user") VNone VNone (mkWorld sample_client []))
  = Raise (Dome9APIException (u "https://api.dome9.com/v2/user refused")
                             None None).
Proof.
  refine (proj1
    (@connection_error_wrapped
       (answering (Raised (RequestsError ConnectionError (u "refused"))))
       Dome9APISDK.GET (u "user") VNone VNone Dome9APISDK._ORIGIN sample_auth
       [] (u "https://api.dome9.com/v2/user")
       (RequestsError ConnectionError (u "refused")) _ _)
    ConnectionError (u "refused") _ _); reflexivity.
Defined.

(** C6, as stated, fails: a connection that breaks while the body is read
    makes [requests] raise [ChunkedEncodingError], which is not a
    [ConnectionError]; it reaches the caller as it is, not as a
    [Dome9APIException]. *)
Lemma broken_connection_not_wrapped :
  fst (@Dome9APISDK._request
         (answering (Raised (RequestsError ChunkedEncodingError
                                           (u "Connection broken"))))
         Dome9APISDK.GET (u "user") VNone VNone (mkWorld sample_client []))
  = Raise (RequestsError ChunkedEncodingError (u "Connection broken")).
Proof. vm_compute. reflexivity. Qed.

(** ** The legacy dispatcher *)

(** C9. The legacy [Client._request] and [Dome9APISDK._request] do the
    same: on clients with the same base URL and credentials, worlds with
    the same calls behind them, and methods with the same [.value], they
    make the same call of [requests] (URL, headers, credentials, body, query
    parameters), return the same value or raise the same exception, and
    leave their clients as they were. *)
Theorem legacy_request_equivalent
        (env : Environment) (RequestMethods : Type)
        (legacy_value : RequestMethods -> str) (legacy_method : RequestMethods)
        (method : Dome9APISDK._RequestMethods) (route : str)
        (body params : value) (base : option str)
        (clientAuth : option HTTPBasicAuth) (log : list Call) :
  legacy_value legacy_method = Dome9APISDK.method_value method ->
  let legacy :=
    Client._request legacy_value legacy_method route body params
                    (mkWorld (Client.mkInstance base clientAuth) log) in
  let current :=
    Dome9APISDK._request method route body params
                         (mkWorld (Dome9APISDK.mkInstance base clientAuth)
                                  log) in
  fst legacy = fst current /\
  sent (snd legacy) = sent (snd current) /\
  self (snd legacy) = Client.mkInstance base clientAuth /\
  self (snd current) = Dome9APISDK.mkInstance base clientAuth.
Proof.
  intros Hv legacy current. subst legacy current.
  unfold Client._request, Dome9APISDK._request, bind, getattr, lift,
    try_except, request, raise, ret.
  cbn [self sent Client._baseURL Client._clientAuth Dome9APISDK._origin
       Dome9APISDK._clientAuth].
  rewrite Hv.
  change (fst Client._HTTP_OK_RANGE) with 200%Z.
  change (snd Client._HTTP_OK_RANGE) with 299%Z.
  change Client._DEFAULT_FORMAT with (u "application/json").
  destruct base as [origin|]; [|(cbn; repeat split; reflexivity)].
  destruct (urljoin origin route true) as [url|e]; [|(cbn; repeat split; reflexivity)].
  cbn [self sent Client._clientAuth Dome9APISDK._clientAuth].
  destruct clientAuth as [a|]; [|(cbn; repeat split; reflexivity)].
  cbn [self sent]. destruct (requests_call log _) as [r|e].
  - destruct (in_range (status_code r) 200 299); cbn [negb];
      [|(cbn; repeat split; reflexivity)].
    destruct (nonempty (content r)); [|(cbn; repeat split; reflexivity)].
    destruct (as_json r); (cbn; repeat split; reflexivity).
  - destruct e as [| | | |cls text|]; try (cbn; repeat split; reflexivity).
    destruct (is_ConnectionError cls); (cbn; repeat split; reflexivity).
Qed.

(** Both dispatchers on a 404 *)
Lemma legacy_request_equivalent_witness :
  fst (@Client._request (answering (Responded not_found)) sample_methods
         (fun _ => u "get") sample_get (u "user") VNone VNone
         (mkWorld (Client.mkInstance (Some Client._DEFAULT_SITE)
                                     (Some sample_auth)) []))
  = fst (@Dome9APISDK._request (answering (Responded not_found))
           Dome9APISDK.GET (u "user") VNone VNone
           (mkWorld sample_client [])).
Proof.
  refine (proj1
    (@legacy_request_equivalent (answering (Responded not_found))
       sample_methods (fun _ => u "get") sample_get Dome9APISDK.GET (u "user")
       VNone VNone (Some Client._DEFAULT_SITE) (Some sample_auth) [] _)).
  reflexivity.
Defined.

(** ** Methods leave the client as it was *)

Lemma keeps_self_ret {I A : Type} (a : A) : keeps_self (@ret I A a).
Proof. intros w. reflexivity. Qed.

Lemma keeps_self_raise {I A : Type} (e : exn) : keeps_self (@raise I A e).
Proof. intros w. reflexivity. Qed.

Lemma keeps_self_lift {I A : Type} (r : result A) : keeps_self (@lift I A r).
Proof. intros w. reflexivity. Qed.

Lemma keeps_self_bind {I A B : Type} (c : M I A) (k : A -> M I B) :
  keeps_self c -> (forall a, keeps_self (k a)) -> keeps_self (bind c k).
Proof.
  intros Hc Hk w. unfold bind. specialize (Hc w).
  destruct (c w) as [[a|e] w']; simpl in *.
  - rewrite Hk. exact Hc.
  - exact Hc.
Qed.

Lemma keeps_self_request {env : Environment}
      (method : Dome9APISDK._RequestMethods) (route : str)
      (body params : value) :
  keeps_self (Dome9APISDK._request method route body params).
Proof.
  intros w.
  unfold Dome9APISDK._request, bind, getattr, lift, try_except, request,
    raise, ret.
  destruct (Dome9APISDK._origin (self w)) as [origin|]; [|reflexivity].
  destruct (urljoin origin route true) as [url|e]; [|reflexivity].
  destruct (Dome9APISDK._clientAuth (self w)) as [a|]; [|reflexivity].
  cbn zeta. destruct (requests_call (sent w) _) as [r|e].
  - destruct (in_range (status_code r) 200 299); cbn [negb]; [|reflexivity].
    destruct (nonempty (content r)); [|reflexivity].
    destruct (as_json r); reflexivity.
  - destruct e as [| | | |cls text|]; try reflexivity.
    destruct (is_ConnectionError cls); reflexivity.
Qed.

Ltac keeps_self :=
  repeat first
    [ apply keeps_self_request
    | apply keeps_self_lift
    | apply keeps_self_ret
    | apply keeps_self_raise
    | apply keeps_self_bind; [|intro] ].

Lemma keeps_self_invoke {env : Environment} (c : Invocation.invocation) :
  keeps_self (Invocation.invoke c).
Proof.
  destruct c; cbn [Invocation.invoke];
    unfold Dome9APISDK.getAllUsers, Dome9APISDK.getCloudAccounts,
      Dome9APISDK.getCloudAccountRegions, Dome9APISDK.getCloudAccountId,
      Dome9APISDK.getRoles,
      Dome9APISDK.onBoardingAwsAccount, Dome9APISDK.onBoardingAzureAccount,
      Dome9APISDK.updateAwsAccountCredentials,
      Dome9APISDK.updateOrganizationalUnitForAWSCloudAccount,
      Dome9APISDK.updateOrganizationalUnitForAzureCloudAccount,
      Dome9APISDK.updateRoleById, Dome9APISDK.getRoleById,
      Dome9APISDK.updateCloudAccountID, Dome9APISDK.getCloudTrail,
      Dome9APISDK.getFlatOrganizationalUnits,
      Dome9APISDK.getAwsSecurityGroups, Dome9APISDK.getCloudSecurityGroup,
      Dome9APISDK.getAllEntityFetchStatus, Dome9APISDK.cloudAccountSyncNow,
      Dome9APISDK.setCloudSecurityGroupProtectionMode,
      Dome9APISDK.runAssessmentBundle, Dome9APISDK.getAccountBundles,
      Dome9APISDK.updateRuleBundleById, Dome9APISDK.acquireAwsLease;
    cbn zeta; keeps_self.
Qed.

Lemma run_all_keeps_self {env : Environment}
      (calls : list Invocation.invocation) :
  forall w, self (Invocation.run_all calls w) = self w.
Proof.
  induction calls as [|c rest IH]; intros w; simpl; [reflexivity|].
  rewrite IH. apply keeps_self_invoke.
Qed.

(** ** Construction *)

Lemma checkOnlyContainsLowercaseAlphanumeric_on_str (s : str) (optional : bool) :
  _checkOnlyContainsLowercaseAlphanumeric (Some s) optional =
  if re_match LOWER_ALNUM_PATTERN s then Return tt else Raise ValueError.
Proof.
  unfold _checkOnlyContainsLowercaseAlphanumeric. rewrite andb_false_r. simpl.
  destruct (re_match LOWER_ALNUM_PATTERN s); reflexivity.
Qed.

Lemma checkIsHTTPURL_on_str (s : str) (optional : bool) :
  _checkIsHTTPURL (Some s) optional =
  if re_match HTTP_URL_PATTERN s then Return tt else Raise ValueError.
Proof.
  unfold _checkIsHTTPURL. rewrite andb_false_r. simpl.
  destruct (re_match HTTP_URL_PATTERN s); reflexivity.
Qed.

Lemma init_run (key secret origin : str)
      (w : world Dome9APISDK.instance) :
  Dome9APISDK.__init__ key secret origin w =
  if re_match UUID_PATTERN key && re_match LOWER_ALNUM_PATTERN secret
     && re_match HTTP_URL_PATTERN origin
  then (Return tt,
        mkWorld (Dome9APISDK.mkInstance (Some origin)
                                        (Some (mkAuth key secret)))
                (sent w))
  else (Raise ValueError, w).
Proof.
  unfold Dome9APISDK.__init__, bind, lift, get_self, set_self.
  rewrite checkIsUUID_on_str, checkOnlyContainsLowercaseAlphanumeric_on_str,
    checkIsHTTPURL_on_str.
  destruct (re_match UUID_PATTERN key); [|reflexivity].
  destruct (re_match LOWER_ALNUM_PATTERN secret); [|reflexivity].
  destruct (re_match HTTP_URL_PATTERN origin); reflexivity.
Qed.

(** C3. [Dome9APISDK(key, secret, origin)] succeeds exactly when the key
    passes [_checkIsUUID], the secret passes
    [_checkOnlyContainsLowercaseAlphanumeric] and the origin passes
    [_checkIsHTTPURL]. Otherwise it raises [ValueError], no call of
    [requests] has been made and nothing is stored. On success the
    origin and the credentials are stored, no call has been made, and they
    are still the same after any sequence of calls of the methods. *)
Theorem construction_validates
        (env : Environment) (key secret origin : str) (log : list Call)
        (calls : list Invocation.invocation) :
  let w0 := mkWorld Dome9APISDK.blank log in
  let valid :=
    _checkIsUUID (Some key) false = Return tt /\
    _checkOnlyContainsLowercaseAlphanumeric (Some secret) false = Return tt /\
    _checkIsHTTPURL (Some origin) false = Return tt in
  let client :=
    Dome9APISDK.mkInstance (Some origin) (Some (mkAuth key secret)) in
  (fst (Dome9APISDK.__init__ key secret origin w0) = Return tt <-> valid) /\
  (~ valid ->
   Dome9APISDK.__init__ key secret origin w0 = (Raise ValueError, w0)) /\
  (valid ->
   Dome9APISDK.__init__ key secret origin w0 = (Return tt, mkWorld client log)
   /\ self (Invocation.run_all calls (mkWorld client log)) = client).
Proof.
  intros w0 valid client. subst w0 valid client.
  rewrite init_run, checkIsUUID_on_str,
    checkOnlyContainsLowercaseAlphanumeric_on_str, checkIsHTTPURL_on_str.
  rewrite run_all_keeps_self. cbn [self sent].
  destruct (re_match UUID_PATTERN key), (re_match LOWER_ALNUM_PATTERN secret),
    (re_match HTTP_URL_PATTERN origin); cbn [andb fst];
    (split; [split; [intros H | intros (H1 & H2 & H3)] |
             split; [intros H | intros (H1 & H2 & H3)]]);
    try discriminate; try reflexivity; try (repeat split; reflexivity);
    try (exfalso; apply H; repeat split; reflexivity).
Qed.

(** The default origin with a well-formed key and secret *)
Lemma construction_validates_witness :
  Dome9APISDK.__init__ sample_key sample_secret Dome9APISDK._ORIGIN
    (mkWorld Dome9APISDK.blank [])
  = (Return tt, mkWorld sample_client []).
Proof.
  refine (proj1 (proj2 (proj2
    (@construction_validates (answering (Raised TypeError)) sample_key
       sample_secret Dome9APISDK._ORIGIN [] [])) _)).
  repeat split; vm_compute; reflexivity.
Defined.

(** A key that is no UUID: [ValueError], and no call has been made. *)
Lemma construction_rejects_bad_key :
  Dome9APISDK.__init__ (u "not-a-uuid") sample_secret Dome9APISDK._ORIGIN
    (mkWorld Dome9APISDK.blank [])
  = (Raise ValueError, mkWorld Dome9APISDK.blank []).
Proof. rewrite init_run. reflexivity. Qed.

(** The constructor of the legacy client, whatever the checks of
    [Statics] are: it stores the base URL and the credentials when the
    three of them return, and raises what the first one that raises does,
    without a call of [requests]. *)
Lemma legacy_init_run
      (checkIsUUID checkOnlyContainsLowercaseAlphanumeric checkIsHTTPURL
       : str -> result unit)
      (apiKey apiSecret baseURL : str) (w : world Client.instance) :
  Client.__init__ checkIsUUID checkOnlyContainsLowercaseAlphanumeric
                  checkIsHTTPURL apiKey apiSecret baseURL w =
  match Invocation.first_failure
          [checkIsUUID apiKey; checkOnlyContainsLowercaseAlphanumeric apiSecret;
           checkIsHTTPURL baseURL] with
  | Some e => (Raise e, w)
  | None =>
      (Return tt,
       mkWorld (Client.mkInstance (Some baseURL)
                                  (Some (mkAuth apiKey apiSecret)))
               (sent w))
  end.
Proof.
  unfold Client.__init__, bind, lift, get_self, set_self.
  cbn [Invocation.first_failure].
  destruct (checkIsUUID apiKey); [|reflexivity].
  destruct (checkOnlyContainsLowercaseAlphanumeric apiSecret); [|reflexivity].
  destruct (checkIsHTTPURL baseURL); reflexivity.
Qed.

(** ** Validation comes before the request *)

Ltac unfold_methods :=
  unfold Dome9APISDK.getAllUsers, Dome9APISDK.getCloudAccounts,
    Dome9APISDK.getCloudAccountRegions, Dome9APISDK.getCloudAccountId,
    Dome9APISDK.getRoles,
    Dome9APISDK.onBoardingAwsAccount, Dome9APISDK.onBoardingAzureAccount,
    Dome9APISDK.updateAwsAccountCredentials,
    Dome9APISDK.updateOrganizationalUnitForAWSCloudAccount,
    Dome9APISDK.updateOrganizationalUnitForAzureCloudAccount,
    Dome9APISDK.updateRoleById, Dome9APISDK.getRoleById,
    Dome9APISDK.updateCloudAccountID, Dome9APISDK.getCloudTrail,
    Dome9APISDK.getFlatOrganizationalUnits,
    Dome9APISDK.getAwsSecurityGroups, Dome9APISDK.getCloudSecurityGroup,
    Dome9APISDK.getAllEntityFetchStatus, Dome9APISDK.cloudAccountSyncNow,
    Dome9APISDK.setCloudSecurityGroupProtectionMode,
    Dome9APISDK.runAssessmentBundle, Dome9APISDK.getAccountBundles,
    Dome9APISDK.updateRuleBundleById, Dome9APISDK.acquireAwsLease.

(** One check after the other: the first that raises ends the call. *)
Ltac first_check H :=
  cbn [Invocation.first_failure] in H;
  match type of H with
  | None = Some _ => discriminate H
  | Some _ = Some _ => injection H as H; subst; reflexivity
  | context [match ?v with Return _ => _ | Raise _ => _ end] =>
      destruct v as [[]|]
  end.

(** For every call of a method: when one of the checks of its arguments
    raises, the call raises what the first of them, in the order of the
    arguments, raises; no call of [requests] is made and the client is as
    it was. *)
Lemma validation_precedes_dispatch {env : Environment}
      (c : Invocation.invocation) (w : world Dome9APISDK.instance) (e : exn) :
  Invocation.first_failure (Invocation.validations c) = Some e ->
  Invocation.invoke c w = (Raise e, w).
Proof.
  intros H.
  destruct c; cbn [Invocation.invoke Invocation.validations] in *;
    unfold_methods; unfold bind, lift;
    repeat first_check H.
Qed.

(** On a value that is not [None] a check returns or raises [ValueError]. *)
Lemma checks_raise_ValueError_on_values (s : str) (z : Z) (optional : bool) :
  Forall (fun r : result unit => r = Return tt \/ r = Raise ValueError)
    [_checkIsUUID (Some s) optional;
     _checkOnlyContainsLowercaseAlphanumeric (Some s) optional;
     _checkIsHTTPURL (Some s) optional; _checkIsARN (Some s) optional;
     _checkIsIP (Some s) optional; _checkIsDuration (Some s) optional;
     _checkIsEmail (Some s) optional;
     _checkIsUUIDOr12Digits (Some s) optional;
     _checkIsNotEmpty (Some s) optional;
     _checkIsNotNegative (Some z) optional; _checkIsPort (Some z) optional].
Proof.
  unfold _checkIsUUID, _checkOnlyContainsLowercaseAlphanumeric,
    _checkIsHTTPURL, _checkIsARN, _checkIsIP, _checkIsDuration, _checkIsEmail,
    _checkIsUUIDOr12Digits, _checkIsNotEmpty, _checkIsNotNegative,
    _checkIsPort, py_match, py_lt, py_gt.
  cbn [is_None]. rewrite !andb_false_r.
  repeat apply Forall_cons; try apply Forall_nil;
    repeat match goal with
           | |- context [if ?b then _ else _] => destruct b
           | |- context [match ?l with [] => _ | _ :: _ => _ end] => destruct l
           end; auto.
Qed.

(** C5: where the code departs from it. [updateCloudAccountID] called with
    a well-formed account id and the declared defaults of its other
    parameters: the check of [arn], which is [None], raises [TypeError] and
    not [ValueError]; no call of [requests] is made. *)
Theorem updateCloudAccountID_defaults_raise_TypeError
        (env : Environment) (log : list Call) :
  let call :=
    Invocation.call_updateCloudAccountID
      sample_key None None None None None None None None None in
  Invocation.first_failure (Invocation.validations call) = Some TypeError /\
  Invocation.invoke call (mkWorld sample_client log)
  = (Raise TypeError, mkWorld sample_client log).
Proof.
  intros call.
  assert (H : Invocation.first_failure (Invocation.validations call)
              = Some TypeError) by (vm_compute; reflexivity).
  split; [exact H|]. apply validation_precedes_dispatch. exact H.
Qed.

(** ** [None] where a string is expected *)

(** C10, as amended. Every validator that matches a pattern raises
    [TypeError] on [None] when it is not told that the value is optional.
    [updateCloudAccountID] called with [arn=None], an account id that
    passes [_checkIsUUID] and an organizational unit id that is [None] or
    passes it, raises [TypeError]; no call of [requests] is made. *)
Theorem none_raises_TypeError
        (env : Environment) (cloudAccountId : str) (name : option str)
        (fullProtection allowReadOnly : option bool)
        (organizationalUnitId organizationalUnitPath
         organizationalUnitName : option str)
        (lambdaScanner : option bool) (secret : option str)
        (w : world Dome9APISDK.instance) :
  Forall (fun check => check None false = Raise TypeError) regex_validators /\
  (_checkIsUUID (Some cloudAccountId) false = Return tt ->
   _checkIsUUID organizationalUnitId true = Return tt ->
   Dome9APISDK.updateCloudAccountID
     cloudAccountId name fullProtection allowReadOnly organizationalUnitId
     organizationalUnitPath organizationalUnitName lambdaScanner None secret w
   = (Raise TypeError, w)).
Proof.
  split.
  - repeat constructor.
  - intros H1 H2.
    apply (validation_precedes_dispatch
             (Invocation.call_updateCloudAccountID
                cloudAccountId name fullProtection allowReadOnly
                organizationalUnitId organizationalUnitPath
                organizationalUnitName lambdaScanner None secret)).
    cbn [Invocation.validations Invocation.first_failure].
    rewrite H1, H2. reflexivity.
Qed.

(** The declared defaults, with a well-formed account id *)
Lemma none_raises_TypeError_witness :
  @Dome9APISDK.updateCloudAccountID (answering (Responded no_content))
    sample_key None None None None None None None None None
    (mkWorld sample_client [])
  = (Raise TypeError, mkWorld sample_client []).
Proof.
  refine (proj2
    (@none_raises_TypeError (answering (Responded no_content)) sample_key
       None None None None None None None None (mkWorld sample_client []))
    _ _); vm_compute; reflexivity.
Defined.

(** C10, as stated, fails: with the declared defaults and an account id
    that is no UUID, the call raises [ValueError], from the check of the
    account id, which comes first; and [_checkIsNotEmpty], which takes a
    string and matches no pattern, returns on [None]. *)
Lemma updateCloudAccountID_bad_id_raises_ValueError :
  @Dome9APISDK.updateCloudAccountID (answering (Responded no_content))
    (u "not-a-uuid") None None None None None None None None None
    (mkWorld sample_client [])
  = (Raise ValueError, mkWorld sample_client []) /\
  _checkIsNotEmpty None false = Return tt.
Proof. split; vm_compute; reflexivity. Qed.

(** ** Examples *)

(** What the validators do on some strings, as [re.match] of CPython does. *)
Lemma validator_examples :
  _checkIsUUID (Some (u "01234567-89ab-cdef-0123-456789abcdef")) false
  = Return tt /\
  _checkIsUUID (Some (u "01234567-89AB-CDEF-0123-456789ABCDEF")) false
  = Raise ValueError /\
  _checkIsUUID None true = Return tt /\
  _checkOnlyContainsLowercaseAlphanumeric (Some (u "s3cr3t")) false
  = Return tt /\
  _checkOnlyContainsLowercaseAlphanumeric (Some (u "S3CR3T")) false
  = Raise ValueError /\
  _checkIsHTTPURL (Some (u "https://api.dome9.com/v2/")) false = Return tt /\
  _checkIsHTTPURL (Some (u "http://localhost:8080")) false = Return tt /\
  _checkIsHTTPURL (Some (u "ftp://api.dome9.com/")) false = Raise ValueError /\
  _checkIsARN (Some (u "arn:aws:iam::123456789012:role/dome9")) false
  = Return tt /\
  _checkIsIP (Some (u "192.168.0.1")) false = Return tt /\
  _checkIsIP (Some (u "256.1.1.1")) false = Raise ValueError /\
  _checkIsIP (Some [1633; 46; 50; 46; 51; 46; 52]%N) false = Return tt /\
  _checkIsDuration (Some (u "1.23:59:59")) false = Return tt /\
  _checkIsDuration (Some (u "25:00:00")) false = Raise ValueError /\
  _checkIsEmail (Some (u "sre@dome9.com")) false = Return tt /\
  _checkIsUUIDOr12Digits (Some (u "123456789012")) false = Return tt /\
  _checkIsNotNegative (Some (-1)%Z) false = Raise ValueError /\
  _checkIsNotEmpty (Some []) false = Raise ValueError /\
  _checkIsPort (Some 65535%Z) false = Return tt /\
  _checkIsPort (Some 65536%Z) false = Raise ValueError /\
  _checkIsPort None false = Raise TypeError.
Proof. repeat split; vm_compute; reflexivity. Qed.

(** A relative route is resolved against the path of the origin; a route
    that starts with a slash replaces that path; a route with a scheme and a
    host replaces the origin. *)
Lemma urljoin_examples (env : Environment) :
  urljoin Dome9APISDK._ORIGIN (u "CloudAccounts") true
  = Return (u "https://api.dome9.com/v2/CloudAccounts") /\
  urljoin (u "https://api.dome9.com/v2") (u "CloudAccounts") true
  = Return (u "https://api.dome9.com/CloudAccounts") /\
  urljoin Dome9APISDK._ORIGIN (u "/CloudAccounts") true
  = Return (u "https://api.dome9.com/CloudAccounts") /\
  urljoin Dome9APISDK._ORIGIN (u "../CloudAccounts?x=1") true
  = Return (u "https://api.dome9.com/CloudAccounts?x=1") /\
  urljoin Dome9APISDK._ORIGIN (u "http://other.example/x") true
  = Return (u "http://other.example/x").
Proof. repeat split; vm_compute; reflexivity. Qed.

(** A lease: the checks pass, one POST goes out with the body built from
    the arguments, and the method returns [None]. *)
Lemma acquireAwsLease_example :
  @Dome9APISDK.acquireAwsLease (answering (Responded no_content)) sample_key
    7 (u "10.0.0.1") 22 (Some 22%Z) None (Some (u "1:0:0")) None None None
    (Some (u "sre@dome9.com")) (mkWorld sample_client [])
  = (Return VNone,
     mkWorld sample_client
       [mkCall (u "post") (u "https://api.dome9.com/v2/accesslease/aws")
          (VDict [(u "cloudAccountId", VStr sample_key);
                  (u "securityGroupId", VInt 7);
                  (u "ip", VStr (u "10.0.0.1"));
                  (u "portFrom", VInt 22);
                  (u "portTo", VInt 22);
                  (u "protocol", VNone);
                  (u "length", VStr (u "1:0:0"));
                  (u "region", VNone);
                  (u "accountId", VNone);
                  (u "name", VNone);
                  (u "user", VStr (u "sre@dome9.com"))])
          VNone json_headers sample_auth]).
Proof. vm_compute. reflexivity. Qed.

(** The same lease with a port out of range: [ValueError], and nothing is
    sent. *)
Lemma acquireAwsLease_bad_port :
  @Dome9APISDK.acquireAwsLease (answering (Responded no_content)) sample_key
    7 (u "10.0.0.1") 70000 None None None None None None None
    (mkWorld sample_client [])
  = (Raise ValueError, mkWorld sample_client []).
Proof. vm_compute. reflexivity. Qed.

(** * Further properties *)

(** ** Runs of a class *)

Lemma iter_cls (p : charset) (n : nat) : forall b s b' s',
    iter (den (Cls p)) n b s b' s' <->
    exists g, s = g ++ s' /\ List.length g = n /\ forallb p g = true /\
              b' = match n with O => b | S _ => false end.
Proof.
  induction n as [|n IH]; intros b s b' s'.
  - split.
    + intros H. inversion H; subst. exists []. auto.
    + intros (g & -> & Hl & _ & ->). destruct g; [constructor | discriminate].
  - split.
    + intros H. inversion H as [|n0 b0 s0 b1 s1 b2 s2 H1 H2]; subst.
      destruct H1 as (c & -> & Hc & ->). apply IH in H2.
      destruct H2 as (g & -> & Hl & Hg & Hb). exists (c :: g). simpl.
      rewrite Hc, Hg, Hl. repeat split. destruct n; assumption.
    + intros (g & -> & Hl & Hg & ->). destruct g as [|c g]; [discriminate|].
      simpl in Hl, Hg. apply andb_true_iff in Hg. destruct Hg as [Hc Hg].
      apply iter_S with (b1 := false) (s1 := g ++ s'); [exists c; auto|].
      apply IH. exists g. repeat split; [congruence | assumption |].
      destruct n; reflexivity.
Qed.

(** [[class]{lo,}]: at least [lo] characters of the class *)
Lemma den_run (p : charset) (lo : nat) (b : bool) (s : str) (b' : bool)
      (s' : str) :
  den (Rep (Cls p) lo None) b s b' s' <->
  exists g, s = g ++ s' /\ lo <= List.length g /\ forallb p g = true /\
            b' = match g with [] => b | _ :: _ => false end.
Proof.
  rewrite den_Rep. split.
  - intros (n & Hn & _ & Hi). apply iter_cls in Hi.
    destruct Hi as (g & -> & Hl & Hg & ->). exists g.
    repeat split; try assumption; [lia|].
    destruct g, n; try discriminate; reflexivity.
  - intros (g & -> & Hl & Hg & ->). exists (List.length g).
    repeat split; [assumption|]. apply iter_cls. exists g.
    repeat split; [assumption|]. destruct g; reflexivity.
Qed.

Lemma den_bos (b : bool) (s : str) (b' : bool) (s' : str) :
  den Bos b s b' s' <-> b = true /\ b' = b /\ s' = s.
Proof. reflexivity. Qed.

Lemma den_eos (b : bool) (s : str) (b' : bool) (s' : str) :
  den Eos b s b' s' <-> (s = [] \/ s = [LF]) /\ b' = b /\ s' = s.
Proof. simpl. rewrite at_eos_spec. reflexivity. Qed.

(** A shape, or a shape and a line feed: what [$] makes of a pattern whose
    body matches the strings of the shape. *)
Lemma with_line_feed (shape : str -> bool) (s : str) :
  (exists rest, (rest = [] \/ rest = [LF]) /\
                exists g, s = g ++ rest /\ shape g = true) <->
  shape s = true \/ exists s', s = s' ++ [LF] /\ shape s' = true.
Proof.
  split.
  - intros (rest & [-> | ->] & g & -> & H).
    + left. rewrite app_nil_r. exact H.
    + right. eauto.
  - intros [H | (s' & -> & H)].
    + exists []. split; [now left|]. exists s. rewrite app_nil_r. auto.
    + exists [LF]. split; [now right|]. eauto.
Qed.

(** ** The secret *)

Lemma lower_alnum_match_spec (s : str) :
  re_match LOWER_ALNUM_PATTERN s = true <->
  lowercase_alphanumeric s = true \/
  exists s', s = s' ++ [LF] /\ lowercase_alphanumeric s' = true.
Proof.
  rewrite <- with_line_feed, re_match_spec. unfold LOWER_ALNUM_PATTERN, Plus.
  unfold lowercase_alphanumeric. split.
  - intros (b' & s' & b0 & s0 & H0 & b1 & s1 & H1 & H2).
    apply den_bos in H0. destruct H0 as (_ & _ & ->).
    apply den_run in H1. destruct H1 as (g & -> & Hl & Hg & _).
    apply den_eos in H2. destruct H2 as (He & _ & _).
    exists s1. split; [exact He|]. exists g. split; [reflexivity|].
    rewrite Hg. destruct g; [simpl in Hl; lia | reflexivity].
  - intros (rest & He & g & -> & H). apply andb_true_iff in H.
    destruct H as [Hn Hg].
    exists false, rest, true, (g ++ rest). split; [apply den_bos; auto|].
    exists false, rest. split.
    + apply den_run. exists g. repeat split; try assumption.
      * destruct g; [discriminate | simpl; lia].
      * destruct g; [discriminate | reflexivity].
    + apply den_eos. auto.
Qed.

(** X1. [_checkOnlyContainsLowercaseAlphanumeric] returns on a string
    exactly when the string is one or more characters among [0-9a-z], or
    such a string followed by one line feed; on every other string it raises
    [ValueError]. *)
Theorem checkOnlyContainsLowercaseAlphanumeric_accepts
        (s : str) (optional : bool) :
  (_checkOnlyContainsLowercaseAlphanumeric (Some s) optional = Return tt <->
   lowercase_alphanumeric s = true \/
   exists s', s = s' ++ [LF] /\ lowercase_alphanumeric s' = true) /\
  (_checkOnlyContainsLowercaseAlphanumeric (Some s) optional
   = Raise ValueError <->
   ~ (lowercase_alphanumeric s = true \/
      exists s', s = s' ++ [LF] /\ lowercase_alphanumeric s' = true)).
Proof.
  rewrite checkOnlyContainsLowercaseAlphanumeric_on_str.
  apply accepted_or_rejected, lower_alnum_match_spec.
Qed.

(** ** An account id: a UUID, or twelve digits *)

Lemma twelve_digits_match_spec (s : str) :
  re_match TWELVE_DIGITS_PATTERN s = true <->
  twelve_digits s = true \/
  exists s', s = s' ++ [LF] /\ twelve_digits s' = true.
Proof.
  rewrite <- with_line_feed, re_match_spec.
  unfold TWELVE_DIGITS_PATTERN, d, twelve_digits. split.
  - intros (b' & s' & b0 & s0 & H0 & b1 & s1 & H1 & H2).
    apply den_bos in H0. destruct H0 as (_ & _ & ->).
    apply den_times_cls in H1. destruct H1 as (g & -> & Hl & Hg & _).
    apply den_eos in H2. destruct H2 as (He & _ & _).
    exists s1. split; [exact He|]. exists g. split; [reflexivity|].
    rewrite Hg, Hl. reflexivity.
  - intros (rest & He & g & -> & H). apply andb_true_iff in H.
    destruct H as [Hl Hg]. apply Nat.eqb_eq in Hl.
    exists false, rest, true, (g ++ rest). split; [apply den_bos; auto|].
    exists false, rest. split.
    + apply den_times_cls. exists g. auto.
    + apply den_eos. auto.
Qed.

Lemma checkIsUUIDOr12Digits_on_str (s : str) (optional : bool) :
  _checkIsUUIDOr12Digits (Some s) optional =
  if re_match TWELVE_DIGITS_PATTERN s || re_match UUID_PATTERN s
  then Return tt else Raise ValueError.
Proof.
  unfold _checkIsUUIDOr12Digits. rewrite andb_false_r. simpl.
  destruct (re_match TWELVE_DIGITS_PATTERN s); [reflexivity|].
  destruct (re_match UUID_PATTERN s); reflexivity.
Qed.

(** X2. [_checkIsUUIDOr12Digits] returns on a string exactly when the
    string is twelve decimal digits (of Unicode) or a canonical UUID, or one
    of these followed by a line feed; on every other string it raises
    [ValueError]. *)
Theorem checkIsUUIDOr12Digits_accepts (s : str) (optional : bool) :
  let shape := fun x => twelve_digits x || canonical_uuid x in
  (_checkIsUUIDOr12Digits (Some s) optional = Return tt <->
   shape s = true \/ exists s', s = s' ++ [LF] /\ shape s' = true) /\
  (_checkIsUUIDOr12Digits (Some s) optional = Raise ValueError <->
   ~ (shape s = true \/ exists s', s = s' ++ [LF] /\ shape s' = true)).
Proof.
  intros shape. rewrite checkIsUUIDOr12Digits_on_str.
  apply accepted_or_rejected. subst shape. cbv beta.
  rewrite orb_true_iff, twelve_digits_match_spec, uuid_match_canonical.
  setoid_rewrite orb_true_iff. split.
  - intros [[H | (s' & E & H)] | [H | (s' & E & H)]]; eauto 6.
  - intros [[H | H] | (s' & E & [H | H])]; eauto 6.
Qed.

(** ** Literals, options, and the parts of a split *)

Lemma den_lit (t : string) : forall b s b' s',
    den (Lit t) b s b' s' <->
    s = u t ++ s' /\ b' = match t with EmptyString => b | _ => false end.
Proof.
  unfold Lit, u. induction t as [|a t IH]; intros b s b' s'; simpl.
  - split; [intros [-> ->]; auto | intros [-> ->]; auto].
  - split.
    + intros (b1 & s1 & H1 & H2). apply (den_chr a b) in H1.
      destruct H1 as [-> ->]. apply IH in H2. destruct H2 as [-> ->]. split; [reflexivity|].
      destruct t; reflexivity.
    + intros [-> ->]. exists false, (map chr (list_ascii_of_string t) ++ s').
      split; [apply (den_chr a b); auto|]. apply IH. split; [reflexivity|].
      destruct t; reflexivity.
Qed.

Lemma den_opt (r : regex) (b : bool) (s : str) (b' : bool) (s' : str) :
  den (Opt r) b s b' s' <-> (b' = b /\ s' = s) \/ den r b s b' s'.
Proof.
  unfold Opt. simpl. split.
  - intros [H | (b1 & s1 & H1 & [[-> ->] | []])]; auto.
  - intros [H | H]; [now left | right]. exists b', s'. split; [exact H|].
    left. auto.
Qed.

Lemma split_parts_without (sep : codepoint) (s : str) :
  Forall (fun part => forallb (fun c => negb (N.eqb c sep)) part = true)
         (split sep s).
Proof.
  induction s as [|x s IH]; simpl.
  - constructor; [reflexivity | constructor].
  - destruct (N.eqb x sep) eqn:E.
    + constructor; [reflexivity | exact IH].
    + destruct (split sep s) as [|h t]; [repeat constructor; simpl; now rewrite E|].
      inversion IH; subst. constructor; [|assumption].
      simpl. rewrite E. assumption.
Qed.

Lemma not_colon_class (c : codepoint) :
  none_of [one ":"] c = negb (N.eqb c (chr ":")).
Proof. unfold none_of, any_of, one. simpl. rewrite orb_false_r. reflexivity. Qed.

Lemma forallb_ext_eq {A : Type} (p q : A -> bool) (l : list A) :
  (forall x, p x = q x) -> forallb p l = forallb q l.
Proof.
  intros H. induction l as [|x l IH]; simpl; [reflexivity|].
  rewrite H, IH. reflexivity.
Qed.

(** [[^:]*] *)
Lemma den_not_colons (b : bool) (s : str) (b' : bool) (s' : str) :
  den (Star not_colon) b s b' s' <->
  exists g, s = g ++ s' /\
            forallb (fun c => negb (N.eqb c (chr ":"))) g = true /\
            b' = match g with [] => b | _ :: _ => false end.
Proof.
  unfold Star, not_colon. rewrite den_run.
  split; intros (g & E & H); exists g; split; try exact E.
  - destruct H as (_ & Hg & Hb). split; [|exact Hb].
    rewrite (forallb_ext_eq _ (none_of [one ":"]) g); [exact Hg|].
    intros c. symmetry. apply not_colon_class.
  - destruct H as (Hg & Hb). repeat split; [lia | | exact Hb].
    rewrite (forallb_ext_eq _ (fun c => negb (N.eqb c (chr ":"))) g);
      [exact Hg | apply not_colon_class].
Qed.

(** ** The ARN *)

Lemma starts_with_spec (p s : str) :
  starts_with p s = true <-> exists t, s = p ++ t.
Proof.
  unfold starts_with. rewrite str_eqb_eq. split.
  - intros H. exists (skipn (List.length p) s).
    rewrite <- H at 1. symmetry. apply firstn_skipn.
  - intros (t & ->). rewrite firstn_app, Nat.sub_diag, firstn_all.
    simpl. apply app_nil_r.
Qed.

Lemma no_colon_app (g h : str) :
  forallb (fun c => negb (N.eqb c (chr ":"))) (g ++ h) = true <->
  forallb (fun c => negb (N.eqb c (chr ":"))) g = true /\
  forallb (fun c => negb (N.eqb c (chr ":"))) h = true.
Proof. rewrite forallb_app, andb_true_iff. reflexivity. Qed.

(** What [match] finds with the pattern of [_checkIsARN]: the segments. *)
Lemma arn_match_segments (s : str) :
  re_match ARN_PATTERN s = true <->
  exists g1 g2 g3 g4 g5 tail,
    s = u "arn:aws" ++ g1 ++ chr ":" :: g2 ++ chr ":" :: g3 ++ chr ":" :: g4
          ++ chr ":" :: g5 ++ tail /\
    Forall (fun g => forallb (fun c => negb (N.eqb c (chr ":"))) g = true)
           [g1; g2; g3; g4; g5] /\
    (tail = [] \/
     exists g6, tail = chr ":" :: g6 /\
                forallb (fun c => negb (N.eqb c (chr ":"))) g6 = true).
Proof.
  rewrite re_match_spec. unfold ARN_PATTERN. split.
  - intros (b' & s' & H).
    destruct H as (b0 & s0 & H0 & H). apply den_bos in H0.
    destruct H0 as (_ & _ & E0).
    destruct H as (bl & sl & Hl & H). apply den_lit in Hl.
    destruct Hl as [El _].
    destruct H as (b1 & s1 & H1 & H). apply den_not_colons in H1.
    destruct H1 as (g1 & E1 & N1 & _).
    destruct H as (c1 & t1 & C1 & H). apply (den_chr ":" b1) in C1.
    destruct C1 as [D1 _].
    destruct H as (b2 & s2 & H2 & H). apply den_not_colons in H2.
    destruct H2 as (g2 & E2 & N2 & _).
    destruct H as (c2 & t2 & C2 & H). apply (den_chr ":" b2) in C2.
    destruct C2 as [D2 _].
    destruct H as (b3 & s3 & H3 & H). apply den_not_colons in H3.
    destruct H3 as (g3 & E3 & N3 & _).
    destruct H as (c3 & t3 & C3 & H). apply (den_chr ":" b3) in C3.
    destruct C3 as [D3 _].
    destruct H as (b4 & s4 & H4 & H). apply den_not_colons in H4.
    destruct H4 as (g4 & E4 & N4 & _).
    destruct H as (c4 & t4 & C4 & H). apply (den_chr ":" b4) in C4.
    destruct C4 as [D4 _].
    destruct H as (b5 & s5 & H5 & H). apply den_not_colons in H5.
    destruct H5 as (g5 & E5 & N5 & _).
    destruct H as (b6 & s6 & H6 & H). apply den_eos in H.
    destruct H as (He & _ & _). apply den_opt in H6.
    subst s0 sl s1 t1 s2 t2 s3 t3 s4 t4.
    destruct H6 as [[_ E6] | (c6 & t6 & C6 & H6)].
    + subst s6. destruct He as [E | E]; subst s5.
      * exists g1, g2, g3, g4, g5, [].
        repeat split; auto 10.
      * exists g1, g2, g3, g4, (g5 ++ [LF]), [].
        repeat split; auto 10.
        -- rewrite app_nil_r. exact El.
        -- repeat constructor; try assumption.
           apply no_colon_app. split; [assumption | reflexivity].
    + apply (den_chr ":" b5) in C6. destruct C6 as [D6 _].
      apply den_not_colons in H6. destruct H6 as (g6 & E6 & N6 & _).
      subst s5 t6.
      exists g1, g2, g3, g4, g5, (chr ":" :: g6 ++ s6).
      repeat split; auto 10.
      right. exists (g6 ++ s6). split; [reflexivity|].
      apply no_colon_app. split; [assumption|].
      destruct He as [-> | ->]; reflexivity.
  - intros (g1 & g2 & g3 & g4 & g5 & tail & -> & HN & Ht).
    inversion HN as [|? ? N1 HN1]; subst. inversion HN1 as [|? ? N2 HN2]; subst.
    inversion HN2 as [|? ? N3 HN3]; subst.
    inversion HN3 as [|? ? N4 HN4]; subst.
    inversion HN4 as [|? ? N5 _]; subst.
    eexists _, [].
    eexists true, _. split; [apply den_bos; eauto|].
    eexists false, _. split; [apply den_lit; eauto|].
    eexists _, _. split; [apply den_not_colons; exists g1; eauto|].
    eexists false, _. split; [apply (den_chr ":" true); eauto|].
    eexists _, _. split; [apply den_not_colons; exists g2; eauto|].
    eexists false, _. split; [apply (den_chr ":" true); eauto|].
    eexists _, _. split; [apply den_not_colons; exists g3; eauto|].
    eexists false, _. split; [apply (den_chr ":" true); eauto|].
    eexists _, _. split; [apply den_not_colons; exists g4; eauto|].
    eexists false, _. split; [apply (den_chr ":" true); eauto|].
    eexists _, _. split; [apply den_not_colons; exists g5; eauto|].
    destruct Ht as [-> | (g6 & -> & N6)].
    + eexists _, []. split; [apply den_opt; left; eauto|].
      apply den_eos. destruct g5; auto.
    + exists false, []. split.
      * apply den_opt. right. eexists false, _.
        split; [apply (den_chr ":" true); eauto|].
        apply den_not_colons. exists g6. rewrite app_nil_r.
        repeat split; auto. destruct g6; reflexivity.
      * apply den_eos. auto.
Qed.

Lemma arn_shape_segments (s : str) :
  arn_shape s = true <->
  exists g1 g2 g3 g4 g5 tail,
    s = u "arn:aws" ++ g1 ++ chr ":" :: g2 ++ chr ":" :: g3 ++ chr ":" :: g4
          ++ chr ":" :: g5 ++ tail /\
    Forall (fun g => forallb (fun c => negb (N.eqb c (chr ":"))) g = true)
           [g1; g2; g3; g4; g5] /\
    (tail = [] \/
     exists g6, tail = chr ":" :: g6 /\
                forallb (fun c => negb (N.eqb c (chr ":"))) g6 = true).
Proof.
  unfold arn_shape. split.
  - intros H. pose proof (join_split (chr ":") s) as J.
    pose proof (split_parts_without (chr ":") s) as P.
    destruct (split (chr ":") s)
      as [|a [|p [|x3 [|x4 [|x5 [|x6 [|x7 [|x8 t]]]]]]]]; try discriminate;
      apply andb_true_iff in H; destruct H as [Ha Hp];
      apply str_eqb_eq in Ha; apply starts_with_spec in Hp;
      destruct Hp as (g1 & ->); subst a;
      repeat (apply Forall_cons_iff in P;
              let N := fresh "N" in destruct P as [N P]);
      cbv beta in *;
      match goal with
      | H : forallb _ (u "aws" ++ _)%list = true |- _ =>
          apply no_colon_app in H; destruct H as [_ Ng]
      end.
    + exists g1, x3, x4, x5, x6, []. rewrite app_nil_r.
      split; [rewrite <- J; reflexivity|]. split; [|now left].
      repeat constructor; assumption.
    + exists g1, x3, x4, x5, x6, (chr ":" :: x7).
      split; [rewrite <- J; reflexivity|]. split; [|right; eauto].
      repeat constructor; assumption.
  - intros (g1 & g2 & g3 & g4 & g5 & tail & -> & HN & Ht).
    inversion HN as [|? ? N1 HN1]; subst. inversion HN1 as [|? ? N2 HN2]; subst.
    inversion HN2 as [|? ? N3 HN3]; subst.
    inversion HN3 as [|? ? N4 HN4]; subst.
    inversion HN4 as [|? ? N5 _]; subst.
    assert (Np : forallb (fun c => negb (N.eqb c (chr ":"))) (u "aws" ++ g1)
                 = true)
      by (apply no_colon_app; split; [reflexivity | assumption]).
    assert (Sp : starts_with (u "aws") (u "aws" ++ g1) = true)
      by (apply starts_with_spec; eauto).
    change (u "arn:aws" ++ g1 ++ chr ":" :: g2 ++ chr ":" :: g3 ++ chr ":"
              :: g4 ++ chr ":" :: g5 ++ tail)
      with (u "arn" ++ chr ":" :: (u "aws" ++ g1) ++ chr ":" :: g2 ++ chr ":"
              :: g3 ++ chr ":" :: g4 ++ chr ":" :: g5 ++ tail).
    rewrite (split_app_sep _ (u "arn")) by reflexivity.
    rewrite !split_app_sep by assumption.
    destruct Ht as [-> | (g6 & -> & N6)].
    + rewrite app_nil_r, split_without by assumption. rewrite Sp. reflexivity.
    + rewrite split_app_sep, split_without by assumption. rewrite Sp.
      reflexivity.
Qed.

Lemma checkIsARN_on_str (s : str) (optional : bool) :
  _checkIsARN (Some s) optional =
  if re_match ARN_PATTERN s then Return tt else Raise ValueError.
Proof.
  unfold _checkIsARN. rewrite andb_false_r. simpl.
  destruct (re_match ARN_PATTERN s); reflexivity.
Qed.

(** X3. [_checkIsARN] returns on a string exactly when the colons cut it
    in six or seven segments of which the first is [arn] and the second
    starts with [aws] (a line feed counts as a character of a segment); on
    every other string it raises [ValueError]. *)
Theorem checkIsARN_accepts (s : str) (optional : bool) :
  (_checkIsARN (Some s) optional = Return tt <-> arn_shape s = true) /\
  (_checkIsARN (Some s) optional = Raise ValueError <-> arn_shape s <> true).
Proof.
  rewrite checkIsARN_on_str. apply accepted_or_rejected.
  rewrite arn_match_segments, arn_shape_segments. reflexivity.
Qed.

(** ** The duration *)

Lemma hour_form_digits (o : str) :
  hour_form o = true -> forallb digit o = true.
Proof.
  destruct o as [|a [|b [|x t]]]; simpl; try discriminate.
  - intros ->. reflexivity.
  - rewrite !orb_true_iff, !andb_true_iff. intros [[Ha Hb] | [Ha Hb]].
    + rewrite (one_is_digit "1" a), Hb; auto.
    + rewrite (one_is_digit "2" a), (rng_is_digit "0" "4" b); auto;
        discriminate.
Qed.

Lemma minute_form_digits (o : str) :
  minute_form o = true -> forallb digit o = true.
Proof.
  destruct o as [|a [|b [|x t]]]; simpl; try discriminate.
  - intros ->. reflexivity.
  - rewrite andb_true_iff. intros [Ha ->].
    rewrite (rng_is_digit "1" "5" a); [reflexivity | discriminate .. | exact Ha].
Qed.

Lemma days_form_digits (o : str) :
  days_form o = true -> forallb digit o = true.
Proof.
  destruct o as [|a t]; simpl; try discriminate.
  rewrite !orb_true_iff, !andb_true_iff. intros [[Ha Ht] | [Ha Ht]].
  - destruct t; [|discriminate]. rewrite (one_is_digit "0" a); auto.
  - rewrite (rng_is_digit "1" "9" a), Ht; auto; discriminate.
Qed.

Lemma digit_not_colon (c : codepoint) :
  digit c = true -> negb (N.eqb c (chr ":")) = true.
Proof.
  intros H. destruct (N.eqb c (chr ":")) eqn:E; [|reflexivity].
  apply N.eqb_eq in E. subst c. discriminate H.
Qed.

Lemma digits_no_colon (o : str) :
  forallb digit o = true ->
  forallb (fun c => negb (N.eqb c (chr ":"))) o = true.
Proof. apply forallb_weaken, digit_not_colon. Qed.

Lemma digits_no_dot (o : str) :
  forallb digit o = true ->
  forallb (fun c => negb (N.eqb c (chr "."))) o = true.
Proof. apply forallb_weaken, digit_not_dot. Qed.

Lemma den_hour (b : bool) (s : str) (b' : bool) (s' : str) :
  den (d <|> (Chr "1" +> d) <|> (Chr "2" +> Cls (rng "0" "4"))) b s b' s' <->
  exists o, s = o ++ s' /\ hour_form o = true /\ b' = false.
Proof.
  unfold d. split.
  - intros [H | [H | H]].
    + destruct H as (a & -> & Ha & ->). exists [a]. simpl. auto.
    + destruct H as (b1 & s1 & H1 & (c & -> & Hc & ->)).
      apply (den_chr "1" b) in H1. destruct H1 as [-> _].
      exists [chr "1"; c]. simpl. rewrite Hc. auto.
    + destruct H as (b1 & s1 & H1 & (c & -> & Hc & ->)).
      apply (den_chr "2" b) in H1. destruct H1 as [-> _].
      exists [chr "2"; c]. simpl. rewrite Hc. auto.
  - intros (o & -> & Ho & ->).
    destruct o as [|x [|y [|z t]]]; simpl in Ho; try discriminate.
    + left. exists x. auto.
    + rewrite !orb_true_iff, !andb_true_iff in Ho.
      destruct Ho as [[Hx Hy] | [Hx Hy]]; apply N.eqb_eq in Hx; subst x.
      * right; left. exists false, (y :: s').
        split; [apply (den_chr "1" b); auto | exists y; auto].
      * right; right. exists false, (y :: s').
        split; [apply (den_chr "2" b); auto | exists y; auto].
Qed.

Lemma den_minute (b : bool) (s : str) (b' : bool) (s' : str) :
  den (d <|> (Cls (rng "1" "5") +> d)) b s b' s' <->
  exists o, s = o ++ s' /\ minute_form o = true /\ b' = false.
Proof.
  unfold d. split.
  - intros [H | H].
    + destruct H as (a & -> & Ha & ->). exists [a]. simpl. auto.
    + destruct H as (b1 & s1 & (a & -> & Ha & ->) & (c & -> & Hc & ->)).
      exists [a; c]. simpl. rewrite Ha, Hc. auto.
  - intros (o & -> & Ho & ->).
    destruct o as [|x [|y [|z t]]]; simpl in Ho; try discriminate.
    + left. exists x. auto.
    + apply andb_true_iff in Ho. destruct Ho as [Hx Hy].
      right. exists false, (y :: s'). split; [exists x; auto | exists y; auto].
Qed.

Lemma den_days (b : bool) (s : str) (b' : bool) (s' : str) :
  den ((Chr "0" +> Chr ".") <|> (Cls (rng "1" "9") +> Star d +> Chr "."))
      b s b' s' <->
  exists o, s = o ++ chr "." :: s' /\ days_form o = true /\ b' = false.
Proof.
  unfold d. split.
  - intros [H | H].
    + destruct H as (b1 & s1 & H1 & H2).
      apply (den_chr "0" b) in H1. apply (den_chr "." b1) in H2.
      destruct H1 as [-> _], H2 as [-> ->]. exists [chr "0"]. auto.
    + destruct H as (b1 & s1 & (a & -> & Ha & ->) & b2 & s2 & H2 & H3).
      apply den_run in H2. destruct H2 as (g & -> & _ & Hg & _).
      apply (den_chr "." b2) in H3. destruct H3 as [-> ->].
      exists (a :: g). simpl. rewrite Ha, Hg.
      repeat split. apply orb_true_r.
  - intros (o & -> & Ho & ->). destruct o as [|a t]; [discriminate|].
    simpl in Ho. rewrite !orb_true_iff, !andb_true_iff in Ho.
    destruct Ho as [[Ha Ht] | [Ha Ht]].
    + destruct t; [|discriminate]. apply N.eqb_eq in Ha. subst a.
      left. exists false, (chr "." :: s').
      split; [apply (den_chr "0" b) | apply (den_chr "." false)]; auto.
    + right. exists false, (t ++ chr "." :: s'). split; [exists a; auto|].
      exists (match t with [] => false | _ => false end), (chr "." :: s').
      split.
      * apply den_run. exists t. repeat split; auto. lia.
      * apply (den_chr "." false). auto.
Qed.

(** What [match] finds with the pattern of [_checkIsDuration] *)
Lemma duration_match_parts (s : str) :
  re_match DURATION_PATTERN s = true <->
  exists da ho mi se rest,
    s = da ++ ho ++ chr ":" :: mi ++ chr ":" :: se ++ rest /\
    (da = [] \/ exists o, da = o ++ [chr "."] /\ days_form o = true) /\
    hour_form ho = true /\ minute_form mi = true /\ minute_form se = true /\
    (rest = [] \/ rest = [LF]).
Proof.
  rewrite re_match_spec. unfold DURATION_PATTERN. split.
  - intros (b' & s' & H).
    destruct H as (b0 & s0 & H0 & H). apply den_bos in H0.
    destruct H0 as (_ & _ & E0).
    destruct H as (b1 & s1 & H1 & H). apply den_opt in H1.
    destruct H as (b2 & s2 & H2 & H). apply den_hour in H2.
    destruct H2 as (ho & Eh & Fh & _).
    destruct H as (c1 & t1 & C1 & H). apply (den_chr ":" b2) in C1.
    destruct C1 as [D1 _].
    destruct H as (b3 & s3 & H3 & H). apply den_minute in H3.
    destruct H3 as (mi & Em & Fm & _).
    destruct H as (c2 & t2 & C2 & H). apply (den_chr ":" b3) in C2.
    destruct C2 as [D2 _].
    destruct H as (b4 & s4 & H4 & H). apply den_minute in H4.
    destruct H4 as (se & Es & Fs & _).
    apply den_eos in H. destruct H as (He & _ & _).
    subst s0 s2 t1 s3 t2.
    destruct H1 as [[_ E1] | H1].
    + exists [], ho, mi, se, s4. subst s1. simpl.
      repeat split; auto.
    + apply den_days in H1. destruct H1 as (o & -> & Fo & _).
      exists (o ++ [chr "."]), ho, mi, se, s4.
      split; [rewrite <- app_assoc; rewrite Eh; reflexivity|].
      repeat split; eauto.
  - intros (da & ho & mi & se & rest & -> & Hd & Fh & Fm & Fs & He).
    exists false, rest.
    eexists true, _. split; [apply den_bos; eauto|].
    assert (Hrest : forall b,
               den ((d <|> (Chr "1" +> d) <|> (Chr "2" +> Cls (rng "0" "4")))
                    +> Chr ":" +> (d <|> (Cls (rng "1" "5") +> d)) +> Chr ":"
                    +> (d <|> (Cls (rng "1" "5") +> d)) +> Eos)
                   b (ho ++ chr ":" :: mi ++ chr ":" :: se ++ rest)
                   false rest).
    { intros b.
      eexists false, _. split; [apply den_hour; exists ho; eauto|].
      eexists false, _. split; [apply (den_chr ":" false); eauto|].
      eexists false, _. split; [apply den_minute; exists mi; eauto|].
      eexists false, _. split; [apply (den_chr ":" false); eauto|].
      eexists false, _. split; [apply den_minute; exists se; eauto|].
      apply den_eos. auto. }
    destruct Hd as [-> | (o & -> & Fo)].
    + exists true, (ho ++ chr ":" :: mi ++ chr ":" :: se ++ rest).
      split; [apply den_opt; left; split; reflexivity | apply Hrest].
    + exists false, (ho ++ chr ":" :: mi ++ chr ":" :: se ++ rest).
      split; [|apply Hrest].
      apply den_opt. right. apply den_days. exists o.
      rewrite <- app_assoc. repeat split; auto.
Qed.

Lemma duration_shape_parts (s : str) :
  duration_shape s = true <->
  exists da ho mi se,
    s = da ++ ho ++ chr ":" :: mi ++ chr ":" :: se /\
    (da = [] \/ exists o, da = o ++ [chr "."] /\ days_form o = true) /\
    hour_form ho = true /\ minute_form mi = true /\ minute_form se = true.
Proof.
  unfold duration_shape. split.
  - intros H. pose proof (join_split (chr ":") s) as J.
    destruct (split (chr ":") s) as [|dh [|mi [|se [|x t]]]];
      try discriminate.
    rewrite !andb_true_iff, orb_true_iff in H.
    destruct H as [[Fm Fs] [Fh | Hd]].
    + exists [], dh, mi, se. repeat split; auto.
    + pose proof (join_split (chr ".") dh) as Jd.
      destruct (split (chr ".") dh) as [|o [|ho [|y t]]]; try discriminate.
      apply andb_true_iff in Hd. destruct Hd as [Fo Fh].
      exists (o ++ [chr "."]), ho, mi, se. repeat split; eauto.
      rewrite <- J, <- Jd. simpl. rewrite <- !app_assoc. reflexivity.
  - intros (da & ho & mi & se & -> & Hd & Fh & Fm & Fs).
    assert (Nh := digits_no_colon _ (hour_form_digits _ Fh)).
    assert (Nm := digits_no_colon _ (minute_form_digits _ Fm)).
    assert (Ns := digits_no_colon _ (minute_form_digits _ Fs)).
    assert (Nd : forallb (fun c => negb (N.eqb c (chr ":"))) da = true).
    { destruct Hd as [-> | (o & -> & Fo)]; [reflexivity|].
      apply no_colon_app. split; [|reflexivity].
      apply digits_no_colon, days_form_digits. exact Fo. }
    rewrite app_assoc, split_app_sep by (apply no_colon_app; auto).
    rewrite split_app_sep, split_without by assumption.
    rewrite Fm, Fs. cbn [andb]. apply orb_true_iff.
    destruct Hd as [-> | (o & -> & Fo)]; [left; exact Fh | right].
    rewrite <- app_assoc. cbn [app].
    rewrite split_app_sep, split_without
      by (apply digits_no_dot;
          first [apply days_form_digits; assumption
                | apply hour_form_digits; assumption]).
    rewrite Fo, Fh. reflexivity.
Qed.

Lemma checkIsDuration_on_str (s : str) (optional : bool) :
  _checkIsDuration (Some s) optional =
  if re_match DURATION_PATTERN s then Return tt else Raise ValueError.
Proof.
  unfold _checkIsDuration. rewrite andb_false_r. simpl.
  destruct (re_match DURATION_PATTERN s); reflexivity.
Qed.

Lemma duration_match_shape (s : str) :
  re_match DURATION_PATTERN s = true <->
  duration_shape s = true \/
  exists s', s = s' ++ [LF] /\ duration_shape s' = true.
Proof.
  rewrite <- with_line_feed, duration_match_parts. split.
  - intros (da & ho & mi & se & rest & -> & Hd & Fh & Fm & Fs & He).
    exists rest. split; [exact He|].
    exists (da ++ ho ++ chr ":" :: mi ++ chr ":" :: se). split.
    + repeat (rewrite <- app_assoc; rewrite <- ?app_comm_cons). reflexivity.
    + apply duration_shape_parts. exists da, ho, mi, se. auto 10.
  - intros (rest & He & g & -> & H). apply duration_shape_parts in H.
    destruct H as (da & ho & mi & se & -> & Hd & Fh & Fm & Fs).
    exists da, ho, mi, se, rest. repeat split; auto.
    repeat (rewrite <- app_assoc; rewrite <- ?app_comm_cons). reflexivity.
Qed.

(** On ASCII digits: the hours of the pattern are numerals of 0 to 24, its
    minutes and seconds numerals of 0 to 59, without a leading zero. *)
Lemma duration_numerals (n : Z) :
  ((0 <= n <= 24)%Z -> hour_form (str_of_int n) = true) /\
  ((0 <= n <= 59)%Z -> minute_form (str_of_int n) = true).
Proof.
  split; intros Hn.
  - assert (T : forallb (fun k => hour_form (str_of_int (Z.of_nat k)))
                        (seq 0 25) = true) by (vm_compute; reflexivity).
    rewrite forallb_forall in T. specialize (T (Z.to_nat n)).
    rewrite Z2Nat.id in T by lia. apply T. apply in_seq. lia.
  - assert (T : forallb (fun k => minute_form (str_of_int (Z.of_nat k)))
                        (seq 0 60) = true) by (vm_compute; reflexivity).
    rewrite forallb_forall in T. specialize (T (Z.to_nat n)).
    rewrite Z2Nat.id in T by lia. apply T. apply in_seq. lia.
Qed.

(** X4. [_checkIsDuration] returns on a string exactly when the string is
    [[D.]H:M:S], or that followed by one line feed, where the hours are a
    digit, 1 and a digit, or 2 and a digit 0-4, the minutes and the seconds
    a digit, or a digit 1-5 and a digit, and the days 0, or a digit 1-9 and
    digits (a digit where the pattern says [\d] is any decimal digit of
    Unicode); on every other string it raises [ValueError]. The numerals of
    0 to 24 are such hours and those of 0 to 59 such minutes and seconds. *)
Theorem checkIsDuration_accepts (s : str) (optional : bool) :
  (_checkIsDuration (Some s) optional = Return tt <->
   duration_shape s = true \/
   exists s', s = s' ++ [LF] /\ duration_shape s' = true) /\
  (_checkIsDuration (Some s) optional = Raise ValueError <->
   ~ (duration_shape s = true \/
      exists s', s = s' ++ [LF] /\ duration_shape s' = true)) /\
  (forall n : Z, (0 <= n <= 24)%Z -> hour_form (str_of_int n) = true) /\
  (forall n : Z, (0 <= n <= 59)%Z -> minute_form (str_of_int n) = true).
Proof.
  rewrite checkIsDuration_on_str.
  destruct (accepted_or_rejected (duration_match_shape s)) as [H1 H2].
  repeat split; try apply H1; try apply H2; apply duration_numerals.
Qed.

(** ** The e-mail address *)

Lemma class_excludes (p : charset) (x : codepoint) (g : str) :
  p x = false -> forallb p g = true ->
  forallb (fun c => negb (N.eqb c x)) g = true.
Proof.
  intros Hx. apply forallb_weaken. intros c Hc.
  destruct (N.eqb c x) eqn:E; [|reflexivity].
  apply N.eqb_eq in E. subst c. congruence.
Qed.

Lemma find_from_0_app (c : codepoint) (g t : str) :
  forallb (fun x => negb (N.eqb x c)) g = true ->
  find_from c 0 (g ++ c :: t) = Some (List.length g).
Proof.
  induction g as [|x g IH]; simpl.
  - intros _. rewrite N.eqb_refl. reflexivity.
  - intros H. apply andb_true_iff in H. destruct H as [Hx Hg].
    apply negb_true_iff in Hx. rewrite Hx, (IH Hg). reflexivity.
Qed.

Lemma find_from_0_Some (c : codepoint) (s : str) : forall i,
    find_from c 0 s = Some i -> s = firstn i s ++ c :: skipn (S i) s.
Proof.
  induction s as [|x s IH]; simpl; [discriminate|]. intros i.
  destruct (N.eqb x c) eqn:E.
  - intros H. inversion H; subst. apply N.eqb_eq in E. subst x. reflexivity.
  - destruct (find_from c 0 s) as [j|]; [|discriminate].
    intros H. inversion H; subst. simpl. f_equal. apply IH. reflexivity.
Qed.

Lemma firstn_length_app {A : Type} (g t : list A) :
  firstn (List.length g) (g ++ t) = g.
Proof. induction g as [|x g IH]; simpl; [reflexivity | now rewrite IH]. Qed.

Lemma skipn_S_length_app {A : Type} (g : list A) (c : A) (t : list A) :
  skipn (S (List.length g)) (g ++ c :: t) = t.
Proof.
  induction g as [|x g IH]; [reflexivity|].
  change (skipn (S (List.length g)) (g ++ c :: t) = t). exact IH.
Qed.

Lemma partition_app (c : codepoint) (g t : str) :
  forallb (fun x => negb (N.eqb x c)) g = true ->
  partition c (g ++ c :: t) = (g, true, t).
Proof.
  intros H. unfold partition, find. rewrite find_from_0_app by exact H.
  rewrite firstn_length_app, skipn_S_length_app. reflexivity.
Qed.

Lemma partition_found (c : codepoint) (s g t : str) :
  partition c s = (g, true, t) -> s = g ++ c :: t.
Proof.
  unfold partition, find. destruct (find_from c 0 s) as [i|] eqn:E.
  - intros H. inversion H; subst. apply find_from_0_Some. exact E.
  - discriminate.
Qed.

Lemma nonempty_length {A : Type} (l : list A) :
  nonempty l = true <-> 1 <= List.length l.
Proof.
  destruct l; simpl; split; try discriminate; try lia; reflexivity.
Qed.

(** What [match] finds with the pattern of [_checkIsEmail] *)
Lemma email_match_parts (s : str) :
  re_match EMAIL_PATTERN s = true <->
  exists l dn t rest,
    s = l ++ chr "@" :: dn ++ chr "." :: t ++ rest /\
    (nonempty l = true /\ forallb email_local l = true) /\
    (nonempty dn = true /\ forallb alnum_dash dn = true) /\
    (nonempty t = true /\ forallb email_tail t = true) /\
    (rest = [] \/ rest = [LF]).
Proof.
  rewrite re_match_spec. unfold EMAIL_PATTERN, Plus. fold email_local.
  fold email_tail. split.
  - intros (b' & s' & H).
    destruct H as (b0 & s0 & H0 & H). apply den_bos in H0.
    destruct H0 as (_ & _ & E0).
    destruct H as (b1 & s1 & H1 & H). apply den_run in H1.
    destruct H1 as (l & El & Ll & Fl & _).
    destruct H as (c1 & t1 & C1 & H). apply (den_chr "@" b1) in C1.
    destruct C1 as [D1 _].
    destruct H as (b2 & s2 & H2 & H). apply den_run in H2.
    destruct H2 as (dn & Ed & Ld & Fd & _).
    destruct H as (c2 & t2 & C2 & H). apply (den_chr "." b2) in C2.
    destruct C2 as [D2 _].
    destruct H as (b3 & s3 & H3 & H). apply den_run in H3.
    destruct H3 as (t & Et & Lt & Ft & _).
    apply den_eos in H. destruct H as (He & _ & _).
    exists l, dn, t, s3. rewrite !nonempty_length.
    repeat split; try assumption. congruence.
  - intros (l & dn & t & rest & -> & [Nl Fl] & [Nd Fd] & [Nt Ft] & He).
    rewrite nonempty_length in Nl, Nd, Nt.
    exists false, rest.
    eexists true, _. split; [apply den_bos; eauto|].
    eexists false, _. split.
    { apply den_run. exists l. repeat split; eauto.
      destruct l; [simpl in Nl; lia | reflexivity]. }
    eexists false, _. split; [apply (den_chr "@" false); eauto|].
    eexists false, _. split.
    { apply den_run. exists dn. repeat split; eauto.
      destruct dn; [simpl in Nd; lia | reflexivity]. }
    eexists false, _. split; [apply (den_chr "." false); eauto|].
    eexists false, _. split.
    { apply den_run. exists t. repeat split; eauto.
      destruct t; [simpl in Nt; lia | reflexivity]. }
    apply den_eos. auto.
Qed.

Lemma email_shape_parts (s : str) :
  email_shape s = true <->
  exists l dn t,
    s = l ++ chr "@" :: dn ++ chr "." :: t /\
    (nonempty l = true /\ forallb email_local l = true) /\
    (nonempty dn = true /\ forallb alnum_dash dn = true) /\
    (nonempty t = true /\ forallb email_tail t = true).
Proof.
  unfold email_shape. split.
  - intros H. pose proof (join_split (chr "@") s) as J.
    destruct (split (chr "@") s) as [|l [|dom [|x r]]]; try discriminate.
    apply andb_true_iff in H. destruct H as [Hl H].
    apply andb_true_iff in Hl.
    destruct (partition (chr ".") dom) as [[dn found] t] eqn:P.
    destruct found; [|discriminate]. apply partition_found in P.
    rewrite !andb_true_iff in H. destruct H as [[[Nd Fd] Nt] Ft].
    exists l, dn, t. repeat split; try tauto.
    rewrite <- J, P. reflexivity.
  - intros (l & dn & t & -> & [Nl Fl] & [Nd Fd] & [Nt Ft]).
    assert (Al : forallb (fun c => negb (N.eqb c (chr "@"))) l = true)
      by (apply class_excludes with (p := email_local);
          [reflexivity | assumption]).
    assert (Ad : forallb (fun c => negb (N.eqb c (chr "@")))
                         (dn ++ chr "." :: t) = true).
    { rewrite forallb_app. apply andb_true_iff. split.
      - apply class_excludes with (p := alnum_dash);
          [reflexivity | assumption].
      - simpl. apply class_excludes with (p := email_tail);
          [reflexivity | assumption]. }
    assert (Dd : forallb (fun c => negb (N.eqb c (chr "."))) dn = true)
      by (apply class_excludes with (p := alnum_dash);
          [reflexivity | assumption]).
    rewrite split_app_sep, split_without by assumption.
    rewrite Nl, Fl, partition_app by assumption.
    rewrite Nd, Fd, Nt, Ft. reflexivity.
Qed.

Lemma checkIsEmail_on_str (s : str) (optional : bool) :
  _checkIsEmail (Some s) optional =
  if re_match EMAIL_PATTERN s then Return tt else Raise ValueError.
Proof.
  unfold _checkIsEmail. rewrite andb_false_r. simpl.
  destruct (re_match EMAIL_PATTERN s); reflexivity.
Qed.

Lemma email_match_shape (s : str) :
  re_match EMAIL_PATTERN s = true <->
  email_shape s = true \/ exists s', s = s' ++ [LF] /\ email_shape s' = true.
Proof.
  rewrite <- with_line_feed, email_match_parts. split.
  - intros (l & dn & t & rest & -> & Hl & Hd & Ht & He).
    exists rest. split; [exact He|].
    exists (l ++ chr "@" :: dn ++ chr "." :: t). split.
    + repeat (rewrite <- app_assoc; rewrite <- ?app_comm_cons). reflexivity.
    + apply email_shape_parts. exists l, dn, t. auto.
  - intros (rest & He & g & -> & H). apply email_shape_parts in H.
    destruct H as (l & dn & t & -> & Hl & Hd & Ht).
    exists l, dn, t, rest. repeat split; try tauto.
    repeat (rewrite <- app_assoc; rewrite <- ?app_comm_cons). reflexivity.
Qed.

(** X5. [_checkIsEmail] returns on a string exactly when the string, or
    the string without a line feed that ends it, has one [@], before it one
    or more characters among [a-zA-Z0-9_.+-], after it one or more
    characters among [a-zA-Z0-9-], a dot, and one or more characters among
    [a-zA-Z0-9-.]; on every other string it raises [ValueError]. *)
Theorem checkIsEmail_accepts (s : str) (optional : bool) :
  (_checkIsEmail (Some s) optional = Return tt <->
   email_shape s = true \/
   exists s', s = s' ++ [LF] /\ email_shape s' = true) /\
  (_checkIsEmail (Some s) optional = Raise ValueError <->
   ~ (email_shape s = true \/
      exists s', s = s' ++ [LF] /\ email_shape s' = true)).
Proof.
  rewrite checkIsEmail_on_str. apply accepted_or_rejected, email_match_shape.
Qed.

(** ** The origin *)

(** What a pattern consumes is made of characters of its classes. *)
Lemma iter_within (P : charset) (dr : bool -> str -> bool -> str -> Prop) :
  (forall b s b' s', dr b s b' s' ->
                     exists g, s = g ++ s' /\ forallb P g = true) ->
  forall n b s b' s',
    iter dr n b s b' s' -> exists g, s = g ++ s' /\ forallb P g = true.
Proof.
  intros Hdr n b s b' s' H.
  induction H as [b s|n b s b1 s1 b' s' H1 _ IH].
  - exists []. auto.
  - destruct (Hdr _ _ _ _ H1) as (g1 & -> & F1).
    destruct IH as (g2 & -> & F2).
    exists (g1 ++ g2). split; [apply app_assoc|].
    rewrite forallb_app, F1, F2. reflexivity.
Qed.

Lemma den_within (P : charset) (r : regex) :
  classes_within P r ->
  forall b s b' s',
    den r b s b' s' -> exists g, s = g ++ s' /\ forallb P g = true.
Proof.
  induction r as [|p|r1 IH1 r2 IH2|r1 IH1 r2 IH2|r IH lo hi| |];
    intros HP b s b' s'.
  - intros [_ ->]. exists []. auto.
  - intros (c & -> & Hc & _). exists [c]. simpl.
    rewrite (HP c Hc). auto.
  - destruct HP as [HP1 HP2]. intros (b1 & s1 & H1 & H2).
    destruct (IH1 HP1 _ _ _ _ H1) as (g1 & -> & F1).
    destruct (IH2 HP2 _ _ _ _ H2) as (g2 & -> & F2).
    exists (g1 ++ g2). split; [apply app_assoc|].
    rewrite forallb_app, F1, F2. reflexivity.
  - destruct HP as [HP1 HP2]. intros [H | H]; eauto.
  - intros H. apply den_Rep in H. destruct H as (n & _ & _ & Hi).
    exact (iter_within P (IH HP) Hi).
  - intros (_ & _ & ->). exists []. auto.
  - intros (_ & _ & ->). exists []. auto.
Qed.

Lemma printable_nonspace (c : codepoint) :
  (33 <= c <= 126)%N -> nonspace c = true.
Proof.
  intros H. unfold nonspace, unicode_spaces. apply negb_true_iff.
  cbn [existsb].
  repeat match goal with
         | |- context [N.eqb c ?k] =>
             replace (N.eqb c k) with false
               by (symmetry; apply N.eqb_neq; lia)
         end.
  reflexivity.
Qed.

Lemma digit_nonspace (c : codepoint) : digit c = true -> nonspace c = true.
Proof.
  intros H. unfold nonspace. apply negb_true_iff.
  destruct (existsb (N.eqb c) unicode_spaces) eqn:E; [|reflexivity].
  apply existsb_exists in E. destruct E as (k & Hk & Ek).
  apply N.eqb_eq in Ek. subst k. exfalso.
  unfold unicode_spaces in Hk. simpl in Hk.
  repeat (destruct Hk as [<- | Hk]; [discriminate H|]). exact Hk.
Qed.

Lemma rng_nonspace (lo hi : ascii) (c : codepoint) :
  (33 <= chr lo)%N -> (chr hi <= 126)%N -> rng lo hi c = true ->
  nonspace c = true.
Proof.
  intros Hlo Hhi H. apply rng_bounds in H. apply printable_nonspace. lia.
Qed.

Lemma one_nonspace (a : ascii) (c : codepoint) :
  nonspace (chr a) = true -> one a c = true -> nonspace c = true.
Proof. intros Ha H. apply N.eqb_eq in H. now subst. Qed.

Lemma any_of_within (P : charset) (ps : list charset) :
  Forall (fun p => forall c, p c = true -> P c = true) ps ->
  forall c, any_of ps c = true -> P c = true.
Proof.
  intros HF c H. unfold any_of in H. apply existsb_exists in H.
  destruct H as (p & Hp & Hc). rewrite Forall_forall in HF. eauto.
Qed.

Ltac class_nonspace :=
  lazymatch goal with
  | |- Forall _ [] => apply Forall_nil
  | |- Forall _ (_ :: _) =>
      apply Forall_cons; [class_nonspace | class_nonspace]
  | |- forall c, digit c = true -> _ => exact digit_nonspace
  | |- forall c, nonspace c = true -> _ => intros c H; exact H
  | |- forall c, rng _ _ c = true -> _ =>
      intros c; apply rng_nonspace; vm_compute; intro; discriminate
  | |- forall c, one _ c = true -> _ =>
      intros c; apply one_nonspace; reflexivity
  | |- forall c, any_of _ c = true -> _ =>
      apply any_of_within; class_nonspace
  end.

Lemma http_url_classes : classes_within nonspace HTTP_URL_PATTERN.
Proof.
  unfold HTTP_URL_PATTERN, HTTP_URL_HOST, Lit, Chr, Plus, Opt, d, alnum,
    alnum_dash, alpha.
  cbn [classes_within list_ascii_of_string fold_right].
  repeat split; class_nonspace.
Qed.

(** X6. [_checkIsHTTPURL] returns only for a string that starts with
    [http://] or [https://] and holds no white space, a line feed at its
    very end apart. *)
Theorem checkIsHTTPURL_scheme_and_no_space (s : str) (optional : bool) :
  _checkIsHTTPURL (Some s) optional = Return tt ->
  (starts_with (u "http://") s = true \/
   starts_with (u "https://") s = true) /\
  exists g rest, s = g ++ rest /\ forallb nonspace g = true /\
                 (rest = [] \/ rest = [LF]).
Proof.
  rewrite checkIsHTTPURL_on_str.
  destruct (re_match HTTP_URL_PATTERN s) eqn:E; [intros _|discriminate].
  apply re_match_spec in E. destruct E as (b' & s' & D). split.
  - destruct D as (b1 & s1 & D1 & b2 & s2 & D2 & b3 & s3 & D3 &
                   b4 & s4 & D4 & _).
    apply den_bos in D1. destruct D1 as (_ & -> & ->).
    apply den_lit in D2. destruct D2 as [-> _].
    apply den_lit in D4. destruct D4 as [-> _].
    apply den_opt in D3. destruct D3 as [[_ E] | D3].
    + left. apply starts_with_spec. exists s4. rewrite <- E. reflexivity.
    + right. apply (den_chr "s" b2) in D3. destruct D3 as [-> _].
      apply starts_with_spec. exists s4. reflexivity.
  - destruct (den_within nonspace _ http_url_classes _ _ _ _ D)
      as (g & -> & F).
    exists g, s'. split; [reflexivity|]. split; [exact F|].
    destruct D as (b1 & s1 & _ & b2 & s2 & _ & b3 & s3 & _ &
                   b4 & s4 & _ & b5 & s5 & _ & b6 & s6 & _ &
                   b7 & s7 & _ & D8).
    apply den_eos in D8. destruct D8 as (Hend & _ & ->). exact Hend.
Qed.

Lemma checkIsHTTPURL_scheme_and_no_space_witness :
  (starts_with (u "http://") Dome9APISDK._ORIGIN = true \/
   starts_with (u "https://") Dome9APISDK._ORIGIN = true) /\
  exists g rest, Dome9APISDK._ORIGIN = g ++ rest /\
                 forallb nonspace g = true /\ (rest = [] \/ rest = [LF]).
Proof.
  apply (@checkIsHTTPURL_scheme_and_no_space Dome9APISDK._ORIGIN false).
  vm_compute. reflexivity.
Defined.

(** ** What is raised, and where *)

Ltac break_match :=
  match goal with
  | |- context [match ?x with _ => _ end] => destruct x eqn:?
  end.

Ltac break_hyp :=
  match goal with
  | H : context [match ?x with _ => _ end] |- _ => destruct x eqn:?
  end.

(** A goal [r = Raise e -> E e], by the cases of [r] *)
Ltac raised :=
  let H := fresh "H" in
  intros H; repeat break_hyp; try discriminate;
  repeat match goal with
         | E : Raise _ = Raise _ |- _ => inversion E; subst; clear E
         end;
  unfold before_request, argument_error; auto.

Lemma checknetloc_raises {env : Environment} (netloc : str) :
  raising (eq ValueError) (_checknetloc netloc).
Proof.
  unfold raising, _checknetloc. intros e. repeat break_match; raised.
Qed.

Lemma check_bracketed_netloc_raises {env : Environment} (netloc : str) :
  raising (eq ValueError) (_check_bracketed_netloc netloc).
Proof.
  unfold raising, _check_bracketed_netloc. intros e.
  repeat break_match; raised.
Qed.

Lemma urlsplit_raises {env : Environment} (url scheme : str)
      (allow_fragments : bool) :
  raising (eq ValueError) (urlsplit url scheme allow_fragments).
Proof.
  unfold raising, urlsplit. intros e. repeat break_match; raised.
  all: repeat match goal with
              | E : _ = Raise _ |- _ =>
                  first [ apply checknetloc_raises in E
                        | apply check_bracketed_netloc_raises in E ]
              end; congruence.
Qed.

Lemma urlparse_raises {env : Environment} (url scheme : str)
      (allow_fragments : bool) :
  raising (eq ValueError) (urlparse url scheme allow_fragments).
Proof.
  unfold raising, urlparse. intros e.
  destruct (urlsplit url scheme allow_fragments) as [[]|e'] eqn:E.
  - repeat break_match; discriminate.
  - intros H. inversion H; subst. exact (urlsplit_raises _ _ _ E).
Qed.

Lemma urljoin_raises {env : Environment} (base url : str)
      (allow_fragments : bool) :
  raising before_request (urljoin base url allow_fragments).
Proof.
  unfold raising, urljoin. intros e.
  destruct (negb (nonempty base)); [discriminate|].
  destruct (negb (nonempty url)); [discriminate|].
  destruct (urlparse base [] allow_fragments) as [[bscheme]|e1] eqn:E1.
  - destruct (urlparse url bscheme allow_fragments) as [[]|e2] eqn:E2.
    + repeat break_match; discriminate.
    + intros H. inversion H; subst. left. symmetry.
      exact (urlparse_raises _ _ _ E2).
  - intros H. inversion H; subst. left. symmetry.
    exact (urlparse_raises _ _ _ E1).
Qed.

Create HintDb raises.

Ltac check_raises :=
  unfold raising, _checkIsUUID, _checkOnlyContainsLowercaseAlphanumeric,
    _checkIsHTTPURL, _checkIsARN, _checkIsIP, _checkIsDuration, _checkIsEmail,
    _checkIsUUIDOr12Digits, _checkIsNotEmpty, _checkIsNotNegative,
    _checkIsPort, py_match, py_lt, py_gt;
  let e := fresh "e" in intros e; repeat break_match; raised.

Lemma checkIsUUID_raises (arg : option str) (optional : bool) :
  raising argument_error (_checkIsUUID arg optional).
Proof. check_raises. Qed.

Lemma checkOnlyContainsLowercaseAlphanumeric_raises
      (arg : option str) (optional : bool) :
  raising argument_error
          (_checkOnlyContainsLowercaseAlphanumeric arg optional).
Proof. check_raises. Qed.

Lemma checkIsHTTPURL_raises (arg : option str) (optional : bool) :
  raising argument_error (_checkIsHTTPURL arg optional).
Proof. check_raises. Qed.

Lemma checkIsARN_raises (arg : option str) (optional : bool) :
  raising argument_error (_checkIsARN arg optional).
Proof. check_raises. Qed.

Lemma checkIsIP_raises (arg : option str) (optional : bool) :
  raising argument_error (_checkIsIP arg optional).
Proof. check_raises. Qed.

Lemma checkIsDuration_raises (arg : option str) (optional : bool) :
  raising argument_error (_checkIsDuration arg optional).
Proof. check_raises. Qed.

Lemma checkIsEmail_raises (arg : option str) (optional : bool) :
  raising argument_error (_checkIsEmail arg optional).
Proof. check_raises. Qed.

Lemma checkIsUUIDOr12Digits_raises (arg : option str) (optional : bool) :
  raising argument_error (_checkIsUUIDOr12Digits arg optional).
Proof. check_raises. Qed.

Lemma checkIsNotNegative_raises (arg : option Z) (optional : bool) :
  raising argument_error (_checkIsNotNegative arg optional).
Proof. check_raises. Qed.

Lemma checkIsNotEmpty_raises (arg : option str) (optional : bool) :
  raising argument_error (_checkIsNotEmpty arg optional).
Proof. check_raises. Qed.

Lemma checkIsPort_raises (arg : option Z) (optional : bool) :
  raising argument_error (_checkIsPort arg optional).
Proof. check_raises. Qed.

Lemma dot_value_raises (x : option Enum) :
  raising before_request (dot_value x).
Proof. unfold raising, dot_value. intros e. destruct x; raised. Qed.

Lemma argument_error_before_request {A : Type} (r : result A) :
  raising argument_error r -> raising before_request r.
Proof.
  intros Hr e H. destruct (Hr e H) as [-> | ->]; unfold before_request; auto.
Qed.

#[export] Hint Resolve argument_error_before_request : raises.

#[export] Hint Resolve checkIsUUID_raises
  checkOnlyContainsLowercaseAlphanumeric_raises checkIsHTTPURL_raises
  checkIsARN_raises checkIsIP_raises checkIsDuration_raises
  checkIsEmail_raises checkIsUUIDOr12Digits_raises checkIsNotNegative_raises
  checkIsNotEmpty_raises checkIsPort_raises dot_value_raises urljoin_raises
  : raises.

Lemma before_request_not_ConnectionError (e : exn) :
  before_request e -> not_ConnectionError e.
Proof. intros [-> | [-> | ->]]; exact I. Qed.

Lemma raising_weaken {A : Type} (E E' : exn -> Prop) (r : result A) :
  (forall e, E e -> E' e) -> raising E r -> raising E' r.
Proof. intros HE Hr e H. apply HE, Hr, H. Qed.

Lemma subscript_raises (d : value) (key : str) :
  raising not_ConnectionError (subscript d key).
Proof.
  unfold raising, subscript. intros e. repeat break_match; raised;
    exact I.
Qed.

Lemma iterate_raises (v : value) : raising not_ConnectionError (iterate v).
Proof.
  unfold raising, iterate. intros e. repeat break_match; raised; exact I.
Qed.

Lemma region_names_raises (regions : list value) :
  forall collected,
    raising not_ConnectionError (region_names regions collected).
Proof.
  induction regions as [|region rest IH]; intros collected e; simpl.
  - discriminate.
  - destruct (subscript region (u "region")) as [name|e'] eqn:E.
    + destruct (hashable name); [apply IH|].
      intros H; inversion H; exact I.
    + intros H; inversion H; subst. exact (subscript_raises _ _ E).
Qed.

#[export] Hint Resolve subscript_raises iterate_raises region_names_raises
  : raises.

(** ** One request for a call of a method *)

Lemma quiet_ret {I A : Type} (a : A) : quiet (@ret I A a).
Proof. intros w. reflexivity. Qed.

Lemma quiet_lift {I A : Type} (r : result A) : quiet (@lift I A r).
Proof. intros w. reflexivity. Qed.

Lemma quiet_bind {I A B : Type} (c : M I A) (k : A -> M I B) :
  quiet c -> (forall a, quiet (k a)) -> quiet (bind c k).
Proof.
  intros Hc Hk w. unfold bind. specialize (Hc w).
  destruct (c w) as [[a|e] w']; simpl in Hc; subst w'.
  - apply Hk.
  - reflexivity.
Qed.

Lemma one_call_after {I A B : Type} (P : I -> Call -> Prop)
      (r : result A) (k : A -> M I B) :
  raising before_request r -> (forall a, one_call P (k a)) ->
  one_call P (bind (lift r) k).
Proof.
  intros Hr Hk w. unfold bind, lift. destruct r as [a|e].
  - apply Hk.
  - simpl. split; [reflexivity|]. right. split; [reflexivity|].
    exists e. split; [reflexivity|]. apply Hr. reflexivity.
Qed.

Lemma one_call_before {I A B : Type} (P : I -> Call -> Prop)
      (c : M I A) (k : A -> M I B) :
  one_call P c -> (forall a, quiet (k a)) -> one_call P (bind c k).
Proof.
  intros Hc Hk w. unfold bind. specialize (Hc w).
  destruct (c w) as [[a|e] w'] eqn:E; simpl in Hc.
  - rewrite (surjective_pairing (k a w')), (Hk a w'). simpl.
    destruct Hc as [Hs [Hc | [_ [e [He _]]]]]; [|discriminate He].
    split; [exact Hs|]. left. exact Hc.
  - simpl. destruct Hc as [Hs [Hc | [Hn [e' [He Hb]]]]]; split; auto.
    right. split; [exact Hn|]. exists e'. split; [|exact Hb].
    inversion He. reflexivity.
Qed.

Lemma method_value_get (method : Dome9APISDK._RequestMethods) :
  Dome9APISDK.method_value method = u "get" <-> method = Dome9APISDK.GET.
Proof.
  split; [|intros ->; reflexivity].
  destruct method; intros H; try reflexivity; vm_compute in H;
    discriminate H.
Qed.

Ltac nothing_sent e :=
  right; split; [reflexivity|]; exists e; split; [reflexivity|];
  unfold before_request; auto.

Lemma request_one_call {env : Environment}
      (method : Dome9APISDK._RequestMethods) (route : str)
      (body params : value) :
  method <> Dome9APISDK.DELETE ->
  (method = Dome9APISDK.GET -> body = VNone) ->
  (method <> Dome9APISDK.GET -> params = VNone) ->
  one_call well_formed (Dome9APISDK._request method route body params).
Proof.
  intros Hd Hb Hp w. split; [apply keeps_self_request|].
  destruct w as [[[origin|] [auth|]] log];
    try nothing_sent AttributeError.
  - rewrite request_run. cbn [self sent].
    destruct (urljoin origin route true) as [url|e] eqn:J;
      [|nothing_sent e; exact (urljoin_raises _ _ _ J)].
    left. eexists. split.
    + cbn zeta.
      destruct (requests_call log _) as [r|[| | | |cls text|]];
        repeat match goal with
               | |- context [if ?b then _ else _] => destruct b
               | |- context [match as_json ?r with _ => _ end] =>
                   destruct (as_json r)
               end; reflexivity.
    + unfold well_formed. cbn [c_headers c_auth c_verb c_url c_json c_params
                               Dome9APISDK._clientAuth Dome9APISDK._origin].
      repeat split.
      * destruct method; [| | | |contradiction]; vm_compute; tauto.
      * exists origin, route. auto.
      * intros H. apply method_value_get in H. auto.
      * intros H. apply Hp. intros ->. apply H. reflexivity.
  - unfold Dome9APISDK._request, bind, getattr, lift. cbn.
    destruct (urljoin origin route true) as [url|e] eqn:J;
      [nothing_sent AttributeError
      |nothing_sent e; exact (urljoin_raises _ _ _ J)].
Qed.

Ltac one_call :=
  cbn zeta;
  repeat first
    [ apply request_one_call;
      [ discriminate
      | first [reflexivity | discriminate]
      | first [reflexivity | intros H; exfalso; apply H; reflexivity] ]
    | apply one_call_after; [auto with raises | intro; cbn zeta]
    | apply one_call_before;
      [ | intro; cbn zeta;
          repeat first [ apply quiet_ret | apply quiet_lift
                       | apply quiet_bind; [|intro] ] ] ].

Lemma invoke_one_call {env : Environment} (c : Invocation.invocation) :
  one_call well_formed (Invocation.invoke c).
Proof.
  destruct c; cbn [Invocation.invoke]; unfold_methods; one_call.
Qed.

(** X7. A call of a method makes one call of [requests], or none: in the
    first case nothing else is added to what was sent before; in the second
    the method raises [ValueError], [TypeError] or [AttributeError]. So a
    method that returns, or that raises [Dome9APIException], [KeyError] or an
    exception of [requests], has made its request. *)
Theorem method_sends_one_request {env : Environment}
        (c : Invocation.invocation) (w : world Dome9APISDK.instance) :
  (exists call, sent (snd (Invocation.invoke c w)) = sent w ++ [call]) \/
  (sent (snd (Invocation.invoke c w)) = sent w /\
   exists e, fst (Invocation.invoke c w) = Raise e /\
             (e = ValueError \/ e = TypeError \/ e = AttributeError)).
Proof.
  destruct (invoke_one_call c w) as [_ [(call & H & _) | H]].
  - left. eauto.
  - right. exact H.
Qed.



(** ** A method returns after a successful answer *)

Lemma returns_on_success_after {env : Environment} {I A B : Type}
      (c : M I A) (k : A -> M I B) :
  quiet c -> (forall a, returns_on_success (k a)) ->
  returns_on_success (bind c k).
Proof.
  intros Hc Hk w b. unfold bind. specialize (Hc w).
  destruct (c w) as [[a|e] w']; simpl in Hc; subst w'.
  - apply Hk.
  - discriminate.
Qed.

Lemma returns_on_success_before {env : Environment} {I A B : Type}
      (c : M I A) (k : A -> M I B) :
  returns_on_success c -> (forall a, quiet (k a)) ->
  returns_on_success (bind c k).
Proof.
  intros Hc Hk w b. unfold bind. specialize (Hc w).
  destruct (c w) as [[a|e] w'] eqn:E; [|discriminate].
  intros _. rewrite (Hk a w'). apply (Hc a). reflexivity.
Qed.

Lemma request_returns_on_success {env : Environment}
      (method : Dome9APISDK._RequestMethods) (route : str)
      (body params : value) :
  returns_on_success (Dome9APISDK._request method route body params).
Proof.
  intros w v.
  destruct w as [[[origin|] [auth|]] log]; try discriminate.
  - rewrite request_run. cbn [self sent].
    destruct (urljoin origin route true) as [url|e]; [|discriminate].
    cbn zeta.
    destruct (requests_call log _) as [r|[| | | |cls text|]] eqn:R;
      try discriminate.
    + destruct (in_range (status_code r) 200 299) eqn:S; [|discriminate].
      apply in_range_bounds in S. intros H. eexists. exists r.
      split; [|split; [exact R|exact S]].
      destruct (nonempty (content r)); [|reflexivity].
      destruct (as_json r); reflexivity.
    + destruct (is_ConnectionError cls); discriminate.
  - unfold Dome9APISDK._request, bind, getattr, lift. cbn.
    destruct (urljoin origin route true); discriminate.
Qed.

Ltac quiet :=
  repeat first [ apply quiet_ret | apply quiet_lift
               | apply quiet_bind; [|intro] ].

Lemma invoke_returns_on_success {env : Environment}
      (c : Invocation.invocation) :
  returns_on_success (Invocation.invoke c).
Proof.
  destruct c; cbn [Invocation.invoke]; unfold_methods; cbn zeta;
    repeat first
      [ apply request_returns_on_success
      | apply returns_on_success_after; [apply quiet_lift | intro; cbn zeta]
      | apply returns_on_success_before; [ | intro; cbn zeta; quiet ] ].
Qed.

(** X9. A method returns only when its request was answered, with a status
    code from 200 to 298: no method returns without an answer of the remote
    side, nor on a status code from 299 on. *)
Theorem method_returns_on_success {env : Environment}
        (c : Invocation.invocation) (w : world Dome9APISDK.instance)
        (v : value) :
  fst (Invocation.invoke c w) = Return v ->
  exists call r,
    sent (snd (Invocation.invoke c w)) = sent w ++ [call] /\
    requests_call (sent w) call = Responded r /\
    (200 <= status_code r < 299)%Z.
Proof. apply invoke_returns_on_success. Qed.

Lemma method_returns_on_success_witness :
  exists call r,
    sent (snd (@Invocation.invoke (answering (Responded ok_list))
                 Invocation.call_getRoles (mkWorld sample_client [])))
    = [] ++ [call] /\
    @requests_call (answering (Responded ok_list)) [] call = Responded r /\
    (200 <= status_code r < 299)%Z.
Proof.
  apply (@method_returns_on_success (answering (Responded ok_list))
           Invocation.call_getRoles (mkWorld sample_client []) (VList [])).
  vm_compute. reflexivity.
Defined.

(** ** No connection error of [requests] leaves a method *)

Lemma raises_only_ret {I A : Type} (E : exn -> Prop) (a : A) :
  raises_only E (@ret I A a).
Proof. intros w e. discriminate. Qed.

Lemma raises_only_lift {I A : Type} (E : exn -> Prop) (r : result A) :
  raising E r -> raises_only E (@lift I A r).
Proof. intros Hr w e H. apply Hr. exact H. Qed.

Lemma raises_only_bind {I A B : Type} (E : exn -> Prop)
      (c : M I A) (k : A -> M I B) :
  raises_only E c -> (forall a, raises_only E (k a)) ->
  raises_only E (bind c k).
Proof.
  intros Hc Hk w e. unfold bind. specialize (Hc w).
  destruct (c w) as [[a|e'] w'].
  - apply Hk.
  - simpl. intros H. inversion H; subst. apply Hc. reflexivity.
Qed.

Lemma request_raises {env : Environment}
      (method : Dome9APISDK._RequestMethods) (route : str)
      (body params : value) :
  raises_only not_ConnectionError
              (Dome9APISDK._request method route body params).
Proof.
  intros w e.
  destruct w as [[[origin|] [auth|]] log];
    try (intros H; inversion H; exact I).
  - rewrite request_run. cbn [self sent].
    destruct (urljoin origin route true) as [url|e'] eqn:J.
    + cbn zeta.
      destruct (requests_call log _) as [r|[| | | |cls text|]];
        repeat match goal with
               | |- context [if ?b then _ else _] => destruct b eqn:?
               | |- context [match as_json ?r with _ => _ end] =>
                   destruct (as_json r)
               end; intros H; inversion H; subst; try exact I.
      assumption.
    + intros H. inversion H; subst.
      apply before_request_not_ConnectionError.
      exact (urljoin_raises _ _ _ J).
  - unfold Dome9APISDK._request, bind, getattr, lift. cbn.
    destruct (urljoin origin route true) as [url|e'] eqn:J;
      intros H; inversion H; subst; [exact I|].
    apply before_request_not_ConnectionError.
    exact (urljoin_raises _ _ _ J).
Qed.

Lemma raising_before_request {A : Type} (r : result A) :
  raising before_request r -> raising not_ConnectionError r.
Proof. apply raising_weaken, before_request_not_ConnectionError. Qed.

Lemma invoke_raises {env : Environment} (c : Invocation.invocation) :
  raises_only not_ConnectionError (Invocation.invoke c).
Proof.
  destruct c; cbn [Invocation.invoke]; unfold_methods; cbn zeta;
    repeat first
      [ apply request_raises
      | apply raises_only_ret
      | apply raises_only_lift;
        first [ solve [auto with raises]
              | apply raising_before_request; solve [auto with raises] ]
      | apply raises_only_bind; [|intro; cbn zeta] ].
Qed.

(** X10. An exception of [requests] that leaves a method is not a
    [requests.ConnectionError]: those are raised as [Dome9APIException],
    whatever the method. *)
Theorem method_never_raises_ConnectionError {env : Environment}
        (c : Invocation.invocation) (w : world Dome9APISDK.instance)
        (cls : requests_exception) (text : str) :
  fst (Invocation.invoke c w) = Raise (RequestsError cls text) ->
  is_ConnectionError cls = false.
Proof. intros H. exact (invoke_raises c w H). Qed.

Lemma method_never_raises_ConnectionError_witness :
  is_ConnectionError Timeout = false.
Proof.
  apply (@method_never_raises_ConnectionError
           (answering (Raised (RequestsError Timeout (u "timed out"))))
           Invocation.call_getCloudTrail (mkWorld sample_client [])
           Timeout (u "timed out")).
  vm_compute. reflexivity.
Defined.

(** ** The methods declared [-> None] *)

Lemma returns_only_bind {I A B : Type} (Q : B -> Prop)
      (c : M I A) (k : A -> M I B) :
  (forall a, returns_only Q (k a)) -> returns_only Q (bind c k).
Proof.
  intros Hk w b. unfold bind. destruct (c w) as [[a|e] w'].
  - apply Hk.
  - discriminate.
Qed.

Lemma returns_only_ret {I A : Type} (Q : A -> Prop) (a : A) :
  Q a -> returns_only Q (@ret I A a).
Proof. intros H w b E. inversion E; subst. exact H. Qed.

(** X11. A method declared [-> None] returns [None], whatever the remote
    side answered: the body of the answer is dropped. *)
Theorem procedures_return_None {env : Environment}
        (c : Invocation.invocation) (w : world Dome9APISDK.instance)
        (v : value) :
  returns_None c = true -> fst (Invocation.invoke c w) = Return v ->
  v = VNone.
Proof.
  intros H. revert w v.
  change (returns_only (fun v => v = VNone) (Invocation.invoke c)).
  destruct c; try discriminate H; cbn [Invocation.invoke]; unfold_methods;
    cbn zeta; repeat (apply returns_only_bind; intro);
    apply returns_only_ret; reflexivity.
Qed.

Lemma procedures_return_None_witness :
  exists v,
    fst (@Invocation.invoke (answering (Responded ok_list))
           (Invocation.call_setCloudSecurityGroupProtectionMode
              (u "sg-1") (mkEnum (u "FULL_MANAGE") (VStr (u "FullManage"))))
           (mkWorld sample_client [])) = Return v /\
    v = VNone.
Proof.
  eexists. split; [vm_compute; reflexivity|].
  apply (@procedures_return_None (answering (Responded ok_list))
           (Invocation.call_setCloudSecurityGroupProtectionMode
              (u "sg-1") (mkEnum (u "FULL_MANAGE") (VStr (u "FullManage"))))
           (mkWorld sample_client []) VNone); vm_compute; reflexivity.
Defined.

(** ** The value that a method returns *)

Lemma returns_body_after {env : Environment} {I A : Type}
      (c : M I A) (k : A -> M I value) :
  quiet c -> (forall a, returns_body (k a)) -> returns_body (bind c k).
Proof.
  intros Hc Hk w b. unfold bind. specialize (Hc w).
  destruct (c w) as [[a|e] w']; simpl in Hc; subst w'.
  - apply Hk.
  - discriminate.
Qed.

Lemma request_returns_body {env : Environment}
      (method : Dome9APISDK._RequestMethods) (route : str)
      (body params : value) :
  returns_body (Dome9APISDK._request method route body params).
Proof.
  intros w v.
  destruct w as [[[origin|] [auth|]] log]; try discriminate.
  - rewrite request_run. cbn [self sent].
    destruct (urljoin origin route true) as [url|e]; [|discriminate].
    cbn zeta.
    destruct (requests_call log _) as [r|[| | | |cls text|]] eqn:R;
      try discriminate.
    + destruct (in_range (status_code r) 200 299) eqn:S; [|discriminate].
      destruct (nonempty (content r)) eqn:N;
        [destruct (as_json r) as [msg|j] eqn:J; [discriminate|]|];
        intros H; inversion H; subst; eexists; exists r;
        unfold body_of; rewrite N;
        (split; [reflexivity|split; [exact R|auto]]).
    + destruct (is_ConnectionError cls); discriminate.
  - unfold Dome9APISDK._request, bind, getattr, lift. cbn.
    destruct (urljoin origin route true); discriminate.
Qed.

(** X12. A method that hands over what [_request] returns gives the decoded
    JSON body of the answer to its request, and [None] when the answer has
    no content, whatever type its declaration announces. *)
Theorem method_returns_body {env : Environment}
        (c : Invocation.invocation) (w : world Dome9APISDK.instance)
        (v : value) :
  returns_answer c = true -> fst (Invocation.invoke c w) = Return v ->
  exists call r,
    sent (snd (Invocation.invoke c w)) = sent w ++ [call] /\
    requests_call (sent w) call = Responded r /\
    (if nonempty (content r) then as_json r = inr v else v = VNone).
Proof.
  intros H. revert w v. change (returns_body (Invocation.invoke c)).
  destruct c; try discriminate H; cbn [Invocation.invoke]; unfold_methods;
    cbn zeta;
    repeat first
      [ apply request_returns_body
      | apply returns_body_after; [apply quiet_lift | intro; cbn zeta] ].
Qed.

Lemma method_returns_body_witness :
  exists call r,
    sent (snd (@Invocation.invoke (answering (Responded no_content))
                 Invocation.call_getAllUsers (mkWorld sample_client [])))
    = [] ++ [call] /\
    @requests_call (answering (Responded no_content)) [] call
    = Responded r /\
    (if nonempty (content r) then as_json r = inr VNone else VNone = VNone).
Proof.
  apply (@method_returns_body (answering (Responded no_content))
           Invocation.call_getAllUsers (mkWorld sample_client []) VNone);
    vm_compute; reflexivity.
Defined.

(** ** The regions of an account *)

Lemma region_names_spec (regions : list value) :
  forall collected v,
    region_names regions collected = Return v ->
    exists names,
      Forall2 (fun region name =>
                 subscript region (u "region") = Return name /\
                 hashable name = true) regions names /\
      v = VSet (collected ++ names).
Proof.
  induction regions as [|region rest IH]; intros collected v; simpl.
  - intros H. inversion H. exists []. rewrite app_nil_r. auto.
  - destruct (subscript region (u "region")) as [name|e] eqn:E;
      [|discriminate].
    destruct (hashable name) eqn:Hh; [|discriminate].
    intros H. apply IH in H. destruct H as (names & F & ->).
    exists (name :: names). split; [constructor; auto|].
    rewrite <- app_assoc. reflexivity.
Qed.

(** X13. When [getCloudAccountRegions] returns, [getCloudAccountId] returned
    an account on the same single request, the account has a [netSec] with
    [regions], and the value returned is the set of the [region] of each
    of them, all of them hashable. *)
Theorem getCloudAccountRegions_returns {env : Environment}
        (cloudAccountId : str) (w : world Dome9APISDK.instance) (v : value) :
  fst (Dome9APISDK.getCloudAccountRegions cloudAccountId w) = Return v ->
  exists account netSec regions items names,
    Dome9APISDK.getCloudAccountId cloudAccountId w =
    (Return account,
     snd (Dome9APISDK.getCloudAccountRegions cloudAccountId w)) /\
    subscript account (u "netSec") = Return netSec /\
    subscript netSec (u "regions") = Return regions /\
    iterate regions = Return items /\
    Forall2 (fun region name =>
               subscript region (u "region") = Return name /\
               hashable name = true) items names /\
    v = VSet names.
Proof.
  unfold Dome9APISDK.getCloudAccountRegions, Dome9APISDK.getCloudAccountId,
    bind, lift.
  destruct (_checkIsUUIDOr12Digits (Some cloudAccountId) false) as [[]|];
    [|discriminate].
  cbn zeta.
  destruct (Dome9APISDK._request _ _ _ _ w) as [[account|e] w'];
    [|discriminate].
  destruct (subscript account (u "netSec")) as [netSec|e] eqn:E1;
    [|discriminate].
  destruct (subscript netSec (u "regions")) as [regions|e] eqn:E2;
    [|discriminate].
  destruct (iterate regions) as [items|e] eqn:E3; [|discriminate].
  cbn [fst snd]. intros H.
  destruct (region_names items []) as [v'|e] eqn:E4; [|discriminate].
  inversion H; subst v'. apply region_names_spec in E4.
  destruct E4 as (names & F & ->).
  exists account, netSec, regions, items, names. auto 10.
Qed.

Lemma getCloudAccountRegions_returns_witness :
  exists account netSec regions items names,
    @Dome9APISDK.getCloudAccountId (answering (Responded account_answer))
      sample_key (mkWorld sample_client []) =
    (Return account,
     snd (@Dome9APISDK.getCloudAccountRegions
            (answering (Responded account_answer)) sample_key
            (mkWorld sample_client []))) /\
    subscript account (u "netSec") = Return netSec /\
    subscript netSec (u "regions") = Return regions /\
    iterate regions = Return items /\
    Forall2 (fun region name =>
               subscript region (u "region") = Return name /\
               hashable name = true) items names /\
    VSet [VStr (u "us_east_1"); VStr (u "eu_west_1")] = VSet names.
Proof.
  apply (@getCloudAccountRegions_returns
           (answering (Responded account_answer)) sample_key
           (mkWorld sample_client [])).
  vm_compute. reflexivity.
Defined.

(** ** An argument that fails its check *)

Lemma first_failure_raises (E : exn -> Prop) (checks : list (result unit)) :
  Forall (raising E) checks ->
  forall e, Invocation.first_failure checks = Some e -> E e.
Proof.
  induction 1 as [|r rest Hr _ IH]; intros e; simpl; [discriminate|].
  destruct r as [[]|e']; [apply IH|].
  intros H. inversion H; subst. apply Hr. reflexivity.
Qed.

Lemma validations_raise (c : Invocation.invocation) :
  Forall (raising argument_error) (Invocation.validations c).
Proof.
  destruct c; cbn [Invocation.validations];
    repeat apply Forall_cons; try apply Forall_nil; auto with raises.
Qed.

(** X14. When a check of an argument of a method fails, the method raises
    the exception of the first check that fails, in the order of the
    arguments: a [ValueError] or a [TypeError]; it makes no call of
    [requests] and leaves the client as it was. *)
Theorem invalid_argument_stops_call {env : Environment}
        (c : Invocation.invocation) (w : world Dome9APISDK.instance)
        (e : exn) :
  Invocation.first_failure (Invocation.validations c) = Some e ->
  Invocation.invoke c w = (Raise e, w) /\
  (e = ValueError \/ e = TypeError).
Proof.
  intros H. split.
  - apply validation_precedes_dispatch. exact H.
  - exact (first_failure_raises (validations_raise c) H).
Qed.

Lemma invalid_argument_stops_call_witness :
  @Invocation.invoke (answering (Responded ok_list))
    (Invocation.call_acquireAwsLease sample_key 7 (u "10.0.0.1") 22
       (Some 65536%Z) None (Some (u "1:00:00")) None None None None)
    (mkWorld sample_client [])
  = (Raise ValueError, mkWorld sample_client []) /\
  (ValueError = ValueError \/ ValueError = TypeError).
Proof.
  apply (@invalid_argument_stops_call (answering (Responded ok_list))
           (Invocation.call_acquireAwsLease sample_key 7 (u "10.0.0.1") 22
              (Some 65536%Z) None (Some (u "1:00:00")) None None None None)
           (mkWorld sample_client []) ValueError).
  vm_compute. reflexivity.
Defined.

(** ** The checks of numbers and of names *)

(** X15. On an [int], [_checkIsNotNegative] returns from 0 on and
    [_checkIsPort] returns from 0 to 65535; on a [str], [_checkIsNotEmpty]
    returns unless the string is empty. Each raises [ValueError]
    otherwise. *)
Theorem value_checks_accept (z : Z) (s : str) (optional : bool) :
  ((_checkIsNotNegative (Some z) optional = Return tt <-> (0 <= z)%Z) /\
   (_checkIsNotNegative (Some z) optional = Raise ValueError <-> (z < 0)%Z))
  /\
  ((_checkIsPort (Some z) optional = Return tt <-> (0 <= z <= 65535)%Z) /\
   (_checkIsPort (Some z) optional = Raise ValueError <->
    (z < 0 \/ 65535 < z)%Z)) /\
  ((_checkIsNotEmpty (Some s) optional = Return tt <-> s <> []) /\
   (_checkIsNotEmpty (Some s) optional = Raise ValueError <-> s = [])).
Proof.
  unfold _checkIsNotNegative, _checkIsPort, _checkIsNotEmpty, py_lt, py_gt.
  cbn [is_None]. rewrite andb_false_r.
  destruct (Z.ltb_spec z 0), (Z.gtb_spec z 65535), s;
    repeat split; intros; try lia; try discriminate; try reflexivity;
    try congruence.
Qed.

(** ** The legacy constructor *)

(** X16. [Client(apiKey, apiSecret, baseURL)] does what
    [Dome9APISDK(key, secret, origin)] does, when the three checks of
    [Statics] answer on its arguments as the validators of the SDK: it
    returns or raises the same, makes no call of [requests], and stores the
    same base URL and credentials. *)
Theorem legacy_construction_equivalent
        (checkIsUUID checkOnlyContainsLowercaseAlphanumeric checkIsHTTPURL
         : str -> result unit)
        (apiKey apiSecret baseURL : str) (log : list Call) :
  checkIsUUID apiKey = _checkIsUUID (Some apiKey) false ->
  checkOnlyContainsLowercaseAlphanumeric apiSecret =
  _checkOnlyContainsLowercaseAlphanumeric (Some apiSecret) false ->
  checkIsHTTPURL baseURL = _checkIsHTTPURL (Some baseURL) false ->
  let legacy :=
    Client.__init__ checkIsUUID checkOnlyContainsLowercaseAlphanumeric
                    checkIsHTTPURL apiKey apiSecret baseURL
                    (mkWorld Client.blank log) in
  let current :=
    Dome9APISDK.__init__ apiKey apiSecret baseURL
                         (mkWorld Dome9APISDK.blank log) in
  fst legacy = fst current /\
  sent (snd legacy) = log /\ sent (snd current) = log /\
  Client._baseURL (self (snd legacy)) =
  Dome9APISDK._origin (self (snd current)) /\
  Client._clientAuth (self (snd legacy)) =
  Dome9APISDK._clientAuth (self (snd current)).
Proof.
  intros H1 H2 H3 legacy current. subst legacy current.
  unfold Client.__init__, Dome9APISDK.__init__, bind, lift, get_self,
    set_self.
  rewrite H1, H2, H3.
  destruct (_checkIsUUID (Some apiKey) false) as [[]|];
    [|cbn; auto].
  destruct (_checkOnlyContainsLowercaseAlphanumeric (Some apiSecret) false)
    as [[]|]; [|cbn; auto].
  destruct (_checkIsHTTPURL (Some baseURL) false) as [[]|]; cbn; auto.
Qed.

Lemma legacy_construction_equivalent_witness :
  let checkIsUUID := fun s => _checkIsUUID (Some s) false in
  let checkOnlyContainsLowercaseAlphanumeric :=
    fun s => _checkOnlyContainsLowercaseAlphanumeric (Some s) false in
  let checkIsHTTPURL := fun s => _checkIsHTTPURL (Some s) false in
  let legacy :=
    Client.__init__ checkIsUUID checkOnlyContainsLowercaseAlphanumeric
                    checkIsHTTPURL sample_key sample_secret
                    Client._DEFAULT_SITE (mkWorld Client.blank []) in
  let current :=
    Dome9APISDK.__init__ sample_key sample_secret Client._DEFAULT_SITE
                         (mkWorld Dome9APISDK.blank []) in
  fst legacy = fst current /\
  sent (snd legacy) = [] /\ sent (snd current) = [] /\
  Client._baseURL (self (snd legacy)) =
  Dome9APISDK._origin (self (snd current)) /\
  Client._clientAuth (self (snd legacy)) =
  Dome9APISDK._clientAuth (self (snd current)).
Proof.
  apply (@legacy_construction_equivalent
           (fun s => _checkIsUUID (Some s) false)
           (fun s => _checkOnlyContainsLowercaseAlphanumeric (Some s) false)
           (fun s => _checkIsHTTPURL (Some s) false)
           sample_key sample_secret Client._DEFAULT_SITE []);
    reflexivity.
Defined.

(** ** The URL of a route of plain segments *)

Lemma contains_excluded (p : charset) (x : codepoint) (g : str) :
  p x = false -> forallb p g = true -> contains x g = false.
Proof.
  intros Hx Hg. unfold contains.
  destruct (existsb (N.eqb x) g) eqn:E; [|reflexivity].
  apply existsb_exists in E. destruct E as (c & Hc & Ec).
  apply N.eqb_eq in Ec. subst c.
  rewrite forallb_forall in Hg. rewrite (Hg _ Hc) in Hx. discriminate.
Qed.

Lemma find_excluded (p : charset) (x : codepoint) (g : str) :
  p x = false -> forallb p g = true -> find x g = None.
Proof.
  intros Hx. unfold find. induction g as [|c g IH]; simpl; [reflexivity|].
  intros H. apply andb_true_iff in H. destruct H as [Hc Hg].
  destruct (N.eqb c x) eqn:E.
  - apply N.eqb_eq in E. subst c. congruence.
  - rewrite (IH Hg). reflexivity.
Qed.

Lemma remove_excluded (p : charset) (x : codepoint) (g : str) :
  p x = false -> forallb p g = true -> remove x g = g.
Proof.
  intros Hx. unfold remove. induction g as [|c g IH]; simpl; [reflexivity|].
  intros H. apply andb_true_iff in H. destruct H as [Hc Hg].
  destruct (N.eqb c x) eqn:E.
  - apply N.eqb_eq in E. subst c. congruence.
  - simpl. rewrite (IH Hg). reflexivity.
Qed.

Lemma plain_segment_spec (g : str) :
  plain_segment g = true <->
  (exists c g', g = c :: g' /\ plain c = true) /\ forallb plain g = true.
Proof.
  unfold plain_segment. rewrite andb_true_iff. split.
  - intros [Hn Hg]. split; [|exact Hg].
    destruct g as [|c g']; [discriminate|]. exists c, g'. split; auto.
    simpl in Hg. apply andb_true_iff in Hg. tauto.
  - intros [(c & g' & -> & _) Hg]. auto.
Qed.

Lemma join_path_chars (segs : list str) :
  Forall (fun g => plain_segment g = true) segs ->
  forallb path_char (join (u "/") segs) = true.
Proof.
  induction 1 as [|g rest Hg _ IH]; [reflexivity|].
  apply plain_segment_spec in Hg. destruct Hg as [_ Hg].
  assert (Hp : forallb path_char g = true).
  { revert Hg. apply forallb_weaken. intros c Hc. unfold path_char.
    rewrite Hc. reflexivity. }
  destruct rest as [|g2 rest]; [exact Hp|].
  change (join (u "/") (g :: g2 :: rest))
    with (g ++ u "/" ++ join (u "/") (g2 :: rest)).
  rewrite !forallb_app, Hp, IH. reflexivity.
Qed.

Lemma join_starts_plain (segs : list str) :
  segs <> [] -> Forall (fun g => plain_segment g = true) segs ->
  exists c J, join (u "/") segs = c :: J /\ plain c = true.
Proof.
  intros Hn H. destruct H as [|g rest Hg _]; [contradiction|].
  apply plain_segment_spec in Hg. destruct Hg as [(c & g' & -> & Hc) _].
  destruct rest; simpl; eauto.
Qed.

Lemma plain_no_slash (g : str) :
  forallb plain g = true ->
  forallb (fun c => negb (N.eqb c (chr "/"))) g = true.
Proof. apply class_excludes. reflexivity. Qed.

Lemma split_join (segs : list str) :
  segs <> [] -> Forall (fun g => plain_segment g = true) segs ->
  split (chr "/") (join (u "/") segs) = segs.
Proof.
  intros Hn H. induction H as [|g rest Hg Hrest IH]; [contradiction|].
  apply plain_segment_spec in Hg. destruct Hg as [_ Hg].
  apply plain_no_slash in Hg.
  destruct rest as [|g2 rest].
  - simpl. apply split_without. exact Hg.
  - change (join (u "/") (g :: g2 :: rest))
      with (g ++ chr "/" :: join (u "/") (g2 :: rest)).
    rewrite split_app_sep by exact Hg.
    rewrite IH; [reflexivity|discriminate].
Qed.

Lemma plain_not_dots (g : str) :
  plain_segment g = true ->
  str_eqb g (u "..") = false /\ str_eqb g (u ".") = false.
Proof.
  intros H. apply plain_segment_spec in H.
  destruct H as [(c & g' & -> & Hc) _].
  split; (destruct (str_eqb (c :: g') _) eqn:E; [|reflexivity]);
    apply str_eqb_eq in E; inversion E; subst; discriminate Hc.
Qed.

Lemma resolve_plain (segs : list str) :
  Forall (fun g => plain_segment g = true) segs ->
  forall resolved, resolve segs resolved = resolved ++ segs.
Proof.
  induction 1 as [|g rest Hg _ IH]; intros resolved; simpl.
  - symmetry. apply app_nil_r.
  - destruct (plain_not_dots _ Hg) as [-> ->].
    rewrite IH, <- app_assoc. reflexivity.
Qed.

Lemma filter_nonempty_plain (segs : list str) :
  Forall (fun g => plain_segment g = true) segs ->
  filter (@nonempty codepoint) segs = segs.
Proof.
  induction 1 as [|g rest Hg _ IH]; simpl; [reflexivity|].
  unfold plain_segment in Hg. apply andb_true_iff in Hg.
  destruct Hg as [-> _]. rewrite IH. reflexivity.
Qed.

Lemma Forall_removelast {A : Type} (P : A -> Prop) (l : list A) :
  Forall P l -> Forall P (removelast l).
Proof.
  induction 1 as [|x l Hx Hl IH]; simpl; [constructor|].
  destruct l; [constructor|]. constructor; assumption.
Qed.

Lemma filter_middle_base (segs : list str) :
  segs <> [] -> Forall (fun g => plain_segment g = true) segs ->
  filter_middle ([[]; u "v2"; []] ++ segs) = [] :: u "v2" :: segs.
Proof.
  intros Hn H. unfold filter_middle.
  cbn [app]. destruct segs as [|g rest]; [contradiction|].
  change (removelast (u "v2" :: [] :: g :: rest))
    with (u "v2" :: [] :: removelast (g :: rest)).
  change (last (u "v2" :: [] :: g :: rest) [])
    with (last (g :: rest) []).
  cbn [filter nonempty u list_ascii_of_string map].
  rewrite filter_nonempty_plain by (apply Forall_removelast; exact H).
  cbn [app]. do 2 f_equal. symmetry. apply app_removelast_last.
  discriminate.
Qed.

Lemma path_char_excludes (x : codepoint) (J : str) :
  path_char x = false -> forallb path_char J = true ->
  contains x J = false /\ find x J = None.
Proof.
  intros Hx HJ. split.
  - exact (contains_excluded path_char _ _ Hx HJ).
  - exact (find_excluded path_char _ _ Hx HJ).
Qed.

Lemma urlsplit_plain {env : Environment} (url : str) (segs : list str) :
  lstrip _WHATWG_C0_CONTROL_OR_SPACE url = url ->
  without_unsafe url = join (u "/") segs ->
  segs <> [] -> Forall (fun g => plain_segment g = true) segs ->
  urlsplit url (u "https") true =
  Return (mkSplit (u "https") [] (join (u "/") segs) [] []).
Proof.
  intros H1 H2 Hn Hs. unfold urlsplit. rewrite H1.
  fold (without_unsafe url). rewrite H2.
  pose proof (join_path_chars Hs) as HJ.
  destruct (join_starts_plain Hn Hs) as (c & J & EJ & Hc).
  destruct (path_char_excludes (chr ":") _ eq_refl HJ) as [_ F].
  destruct (path_char_excludes (chr "#") _ eq_refl HJ) as [C1 _].
  destruct (path_char_excludes (chr "?") _ eq_refl HJ) as [C2 _].
  assert (S2 : str_eqb (firstn 2 (join (u "/") segs)) (u "//") = false).
  { rewrite EJ. destruct (str_eqb _ _) eqn:E; [|reflexivity].
    apply str_eqb_eq in E. inversion E; subst. discriminate Hc. }
  rewrite F. cbv zeta. rewrite S2, C1. cbn [andb]. rewrite C2.
  reflexivity.
Qed.

Lemma urlparse_plain {env : Environment} (url : str) (segs : list str) :
  lstrip _WHATWG_C0_CONTROL_OR_SPACE url = url ->
  without_unsafe url = join (u "/") segs ->
  segs <> [] -> Forall (fun g => plain_segment g = true) segs ->
  urlparse url (u "https") true =
  Return (mkParse (u "https") [] (join (u "/") segs) [] [] []).
Proof.
  intros H1 H2 Hn Hs. unfold urlparse.
  rewrite (urlsplit_plain H1 H2 Hn Hs).
  pose proof (join_path_chars Hs) as HJ.
  destruct (path_char_excludes (chr ";") _ eq_refl HJ) as [C _].
  rewrite C, andb_false_r. reflexivity.
Qed.

Lemma urlparse_origin {env : Environment} :
  urlparse Dome9APISDK._ORIGIN [] true =
  Return (mkParse (u "https") (u "api.dome9.com") (u "/v2/") [] [] []).
Proof. vm_compute. reflexivity. Qed.

Lemma lstrip_nonempty (chars : charset) (s : str) :
  lstrip chars s = s -> forall t, nonempty t = true ->
  without_unsafe s = t -> nonempty s = true.
Proof.
  intros _ t Ht H. destruct s; [|reflexivity].
  vm_compute in H. subst t. discriminate.
Qed.

(** A route that is, without the characters that [urlsplit] removes, a
    sequence of plain segments joined by [/], is appended to the default
    origin. *)
Lemma urljoin_origin_plain {env : Environment}
      (route : str) (segs : list str) :
  lstrip _WHATWG_C0_CONTROL_OR_SPACE route = route ->
  without_unsafe route = join (u "/") segs ->
  segs <> [] -> Forall (fun g => plain_segment g = true) segs ->
  urljoin Dome9APISDK._ORIGIN route true =
  Return (Dome9APISDK._ORIGIN ++ join (u "/") segs).
Proof.
  intros H1 H2 Hn Hs.
  destruct (join_starts_plain Hn Hs) as (c & J & EJ & Hc).
  assert (Hr : nonempty route = true).
  { apply (lstrip_nonempty _ H1 (t := join (u "/") segs)); [|exact H2].
    rewrite EJ. reflexivity. }
  unfold urljoin. rewrite Hr, urlparse_origin.
  change (negb (nonempty Dome9APISDK._ORIGIN)) with false.
  cbn [negb]. cbv iota. rewrite (urlparse_plain H1 H2 Hn Hs).
  change (negb (str_eqb (u "https") (u "https"))
          || negb (str_in (u "https") uses_relative)) with false.
  change (str_in (u "https") uses_netloc) with true.
  assert (HJ : nonempty (join (u "/") segs) = true)
    by (rewrite EJ; reflexivity).
  assert (S1 : str_eqb (firstn 1 (join (u "/") segs)) (u "/") = false).
  { rewrite EJ. destruct (str_eqb _ _) eqn:E; [|reflexivity].
    apply str_eqb_eq in E. inversion E; subst. discriminate Hc. }
  rewrite HJ, S1. cbn [andb nonempty negb]. cbv iota.
  change (split (chr "/") (u "/v2/")) with [[]; u "v2"; []].
  change (last [[]; u "v2"; []] []) with (@nil codepoint).
  change (negb (str_eqb [] [])) with false. cbv iota.
  rewrite (split_join Hn Hs).
  match goal with
  | |- context [filter_middle ?x] =>
      replace (filter_middle x) with ([] :: u "v2" :: segs)
        by (symmetry; exact (filter_middle_base Hn Hs))
  end.
  assert (HL : str_in (last ([] :: u "v2" :: segs) []) [u "."; u ".."]
               = false).
  { change (last ([] :: u "v2" :: segs) []) with (last (u "v2" :: segs) []).
    destruct segs as [|g rest]; [contradiction|].
    change (last (u "v2" :: g :: rest) []) with (last (g :: rest) []).
    assert (Hl : plain_segment (last (g :: rest) []) = true).
    { rewrite Forall_forall in Hs. apply Hs.
      apply (@exists_last _ (g :: rest)) in Hn.
      destruct Hn as (l' & a & ->). rewrite last_last.
      apply in_or_app. right. left. reflexivity. }
    destruct (plain_not_dots _ Hl) as [D2 D1].
    unfold str_in. cbn [existsb]. rewrite D1, D2. reflexivity. }
  match goal with
  | |- context [str_in ?l ?ds] =>
      replace (str_in l ds) with false by (symmetry; exact HL)
  end.
  match goal with
  | |- context [resolve ?a ?b] =>
      replace (resolve a b) with ([[]; u "v2"] ++ segs)
        by (symmetry; exact (resolve_plain Hs [[]; u "v2"]))
  end.
  assert (E2 : join (u "/") ([[]; u "v2"] ++ segs)
               = u "/v2/" ++ join (u "/") segs)
    by (destruct segs; [contradiction|reflexivity]).
  match goal with
  | |- context [join ?sep (?a ++ segs)] =>
      replace (join sep (a ++ segs)) with (u "/v2/" ++ join (u "/") segs)
        by (symmetry; exact E2)
  end.
  reflexivity.
Qed.

(** ** The URL of an account *)

Lemma digit_plain (c : codepoint) : digit c = true -> plain c = true.
Proof. intros H. unfold plain, any_of. simpl. rewrite H. reflexivity. Qed.

Lemma lower_hex_plain (c : codepoint) : lower_hex c = true -> plain c = true.
Proof.
  unfold lower_hex, plain, alnum, any_of. cbn [existsb].
  rewrite !orb_false_r, orb_true_iff. intros [H | H].
  - rewrite (ascii_digit_is_digit _ H). reflexivity.
  - assert (Hz : rng "a" "z" c = true).
    { apply rng_bounds in H. apply rng_bounds.
      change (chr "a") with 97%N in *. change (chr "f") with 102%N in *.
      change (chr "z") with 122%N. change N in c. lia. }
    rewrite Hz. cbn [orb]. apply orb_true_r.
Qed.

Lemma hex_group_plain (n : nat) (g : str) :
  hex_group n g = true -> forallb plain g = true.
Proof.
  intros H. apply hex_group_spec in H. destruct H as [_ H].
  revert H. apply forallb_weaken, lower_hex_plain.
Qed.

Lemma canonical_uuid_plain (g : str) :
  canonical_uuid g = true -> plain_segment g = true.
Proof.
  intros H. apply canonical_uuid_spec in H.
  destruct H as (g1 & g2 & g3 & g4 & g5 & -> & H1 & H2 & H3 & H4 & H5).
  apply hex_group_plain in H1, H2, H3, H4, H5.
  unfold plain_segment. apply andb_true_iff. split.
  - destruct g1; reflexivity.
  - repeat (rewrite forallb_app; cbn [forallb]).
    rewrite H1, H2, H3, H4, H5. reflexivity.
Qed.

Lemma twelve_digits_plain (g : str) :
  twelve_digits g = true -> plain_segment g = true.
Proof.
  unfold twelve_digits, plain_segment. rewrite !andb_true_iff.
  intros [L H]. apply Nat.eqb_eq in L. split.
  - destruct g; [discriminate L|reflexivity].
  - revert H. apply forallb_weaken, digit_plain.
Qed.

Lemma remove_app (c : codepoint) (a b : str) :
  remove c (a ++ b) = remove c a ++ remove c b.
Proof. apply filter_app. Qed.

Lemma without_unsafe_app (a b : str) :
  without_unsafe (a ++ b) = without_unsafe a ++ without_unsafe b.
Proof.
  unfold without_unsafe, _UNSAFE_URL_BYTES_TO_REMOVE. cbn [fold_left].
  rewrite !remove_app. reflexivity.
Qed.

Lemma without_unsafe_plain (g : str) :
  forallb plain g = true -> without_unsafe g = g.
Proof.
  intros H. unfold without_unsafe, _UNSAFE_URL_BYTES_TO_REMOVE.
  cbn [fold_left].
  rewrite (@remove_excluded plain 9%N g eq_refl H).
  rewrite (@remove_excluded plain 13%N g eq_refl H).
  exact (@remove_excluded plain 10%N g eq_refl H).
Qed.

Lemma plain_or_line_feed (id g : str) :
  plain_segment g = true -> id = g \/ id = g ++ [LF] ->
  plain_segment (remove LF id) = true /\
  without_unsafe id = remove LF id /\
  (id = remove LF id \/ id = remove LF id ++ [LF]).
Proof.
  intros Hg E.
  assert (Hp : forallb plain g = true)
    by (unfold plain_segment in Hg; apply andb_true_iff in Hg; tauto).
  pose proof (@remove_excluded plain LF g eq_refl Hp) as Rg.
  assert (R : remove LF id = g).
  { destruct E as [-> | ->]; [exact Rg|].
    rewrite remove_app, Rg. apply app_nil_r. }
  rewrite R. split; [exact Hg|]. split; [|exact E].
  destruct E as [-> | ->].
  - apply without_unsafe_plain, Hp.
  - rewrite without_unsafe_app, (without_unsafe_plain _ Hp).
    apply app_nil_r.
Qed.

(** What passes the check of an identifier: a plain segment, and a line
    feed after it or not. *)
Lemma checked_id (id : str) :
  _checkIsUUIDOr12Digits (Some id) false = Return tt ->
  plain_segment (remove LF id) = true /\
  without_unsafe id = remove LF id /\
  (id = remove LF id \/ id = remove LF id ++ [LF]).
Proof.
  rewrite checkIsUUIDOr12Digits_on_str.
  destruct (re_match TWELVE_DIGITS_PATTERN id) eqn:T;
    [|destruct (re_match UUID_PATTERN id) eqn:U; [|discriminate]];
    intros _.
  - apply twelve_digits_match_spec in T.
    destruct T as [T | (g & -> & T)];
      eapply plain_or_line_feed; eauto using twelve_digits_plain.
  - apply uuid_match_canonical in U.
    destruct U as [U | (g & -> & U)];
      eapply plain_or_line_feed; eauto using canonical_uuid_plain.
Qed.

Lemma checked_uuid (id : str) :
  _checkIsUUID (Some id) false = Return tt ->
  _checkIsUUIDOr12Digits (Some id) false = Return tt.
Proof.
  rewrite checkIsUUID_on_str, checkIsUUIDOr12Digits_on_str.
  destruct (re_match UUID_PATTERN id); [|discriminate].
  rewrite orb_true_r. reflexivity.
Qed.

Lemma plain_above_space (c : codepoint) :
  plain c = true -> _WHATWG_C0_CONTROL_OR_SPACE c = false.
Proof.
  intros H. unfold _WHATWG_C0_CONTROL_OR_SPACE.
  destruct (N.leb_spec c 32) as [L|L]; [exfalso|reflexivity].
  assert (T : forallb (fun k => negb (plain (N.of_nat k))) (seq 0 33)
              = true) by (vm_compute; reflexivity).
  rewrite forallb_forall in T. specialize (T (N.to_nat c)).
  rewrite N2Nat.id, H in T. discriminate T.
  apply in_seq. change N in c. lia.
Qed.

Lemma without_unsafe_join (segs : list str) :
  without_unsafe (join (u "/") segs) = join (u "/") (map without_unsafe segs).
Proof.
  induction segs as [|g [|g2 rest] IH]; try reflexivity.
  change (join (u "/") (g :: g2 :: rest))
    with (g ++ u "/" ++ join (u "/") (g2 :: rest)).
  rewrite !without_unsafe_app, IH. reflexivity.
Qed.

Lemma without_unsafe_segments (segs : list str) :
  Forall (fun g => plain_segment g = true) segs ->
  map without_unsafe segs = segs.
Proof.
  induction 1 as [|g rest Hg _ IH]; simpl; [reflexivity|].
  apply plain_segment_spec in Hg. destruct Hg as [_ Hg].
  rewrite (without_unsafe_plain _ Hg), IH. reflexivity.
Qed.

(** The URL of a route that holds an identifier that passed its check, among
    plain segments: the route after the default origin, without the line
    feed that the check lets through. *)
Lemma urljoin_checked_id {env : Environment} (before after : list str)
      (id : str) :
  _checkIsUUIDOr12Digits (Some id) false = Return tt ->
  before <> [] ->
  Forall (fun g => plain_segment g = true) before ->
  Forall (fun g => plain_segment g = true) after ->
  urljoin Dome9APISDK._ORIGIN (join (u "/") (before ++ id :: after)) true =
  Return (Dome9APISDK._ORIGIN ++
          join (u "/") (before ++ remove LF id :: after)).
Proof.
  intros Hid Hn Hb Ha. apply checked_id in Hid.
  destruct Hid as (Hg & Hw & _).
  apply urljoin_origin_plain.
  - destruct before as [|b before]; [contradiction|].
    inversion Hb as [|? ? Hb1 _]; subst.
    apply plain_segment_spec in Hb1.
    destruct Hb1 as [(c & b' & -> & Hc) _].
    destruct before; cbn [app join lstrip];
      rewrite (plain_above_space _ Hc); reflexivity.
  - rewrite without_unsafe_join, map_app. cbn [map].
    rewrite (without_unsafe_segments Hb), (without_unsafe_segments Ha), Hw.
    reflexivity.
  - destruct before; [contradiction|discriminate].
  - apply Forall_app. split; [exact Hb|]. constructor; assumption.
Qed.

Lemma request_sent {env : Environment}
      (method : Dome9APISDK._RequestMethods) (route : str)
      (body params : value) (clientAuth : HTTPBasicAuth) (log : list Call)
      (url : str) :
  urljoin Dome9APISDK._ORIGIN route true = Return url ->
  sent (snd (Dome9APISDK._request method route body params
               (mkWorld (default_client clientAuth) log)))
  = log ++ [mkCall (Dome9APISDK.method_value method) url body params
                   json_headers clientAuth].
Proof.
  intros H. unfold default_client. rewrite request_run, H. cbn zeta.
  destruct (requests_call log _) as [r|[| | | |cls text|]];
    repeat match goal with
           | |- context [if ?b then _ else _] => destruct b
           | |- context [match as_json ?r with _ => _ end] =>
               destruct (as_json r)
           end; reflexivity.
Qed.

Lemma skipn_length_app {A : Type} (l t : list A) :
  skipn (List.length l) (l ++ t) = t.
Proof. induction l as [|x l IH]; simpl; auto. Qed.

Lemma bind_quiet_sent {I A B : Type} (c : M I A) (k : A -> M I B) :
  (forall a, quiet (k a)) -> forall w, snd (bind c k w) = snd (c w).
Proof.
  intros Hk w. unfold bind. destruct (c w) as [[a|e] w']; [|reflexivity].
  apply Hk.
Qed.

Lemma bind_lift_return {I A B : Type} (a : A) (k : A -> M I B)
      (w : world I) :
  bind (lift (Return a)) k w = k a w.
Proof. reflexivity. Qed.

(** The route of a method, once its checks have returned *)
Ltac requested_url H :=
  unfold requested; cbn [Invocation.invoke sent]; unfold_methods; cbn zeta;
  repeat match goal with
         | E : ?check = Return tt |- context [?check] => rewrite E
         end;
  rewrite ?bind_lift_return;
  erewrite request_sent; [rewrite skipn_length_app; reflexivity|];
  exact H.

Ltac plain_segments :=
  repeat first [ apply Forall_nil
               | apply Forall_cons; [vm_compute; reflexivity|] ].

(** X17. On a client of the default origin, [getCloudAccountId] and
    [getCloudAccountRegions] ask for
    [https://api.dome9.com/v2/CloudAccounts/] followed by the identifier,
    for every identifier that passes their check: nothing in it changes
    the host or the path before it, and the line feed that the check lets
    through at its end is not part of the URL. *)
Theorem account_request_url {env : Environment}
        (cloudAccountId : str) (clientAuth : HTTPBasicAuth)
        (log : list Call) :
  _checkIsUUIDOr12Digits (Some cloudAccountId) false = Return tt ->
  let w := mkWorld (default_client clientAuth) log in
  let url :=
    u "https://api.dome9.com/v2/CloudAccounts/" ++ remove LF cloudAccountId in
  requested (Invocation.call_getCloudAccountId cloudAccountId) w = [url] /\
  requested (Invocation.call_getCloudAccountRegions cloudAccountId) w
  = [url].
Proof.
  intros Hid w url. subst w url.
  assert (J : urljoin Dome9APISDK._ORIGIN
                      (u "CloudAccounts/" ++ cloudAccountId) true
              = Return (u "https://api.dome9.com/v2/CloudAccounts/"
                          ++ remove LF cloudAccountId)).
  { apply (@urljoin_checked_id _ [u "CloudAccounts"] [] _ Hid);
      [discriminate|plain_segments|plain_segments]. }
  split.
  - requested_url J.
  - unfold requested. cbn [Invocation.invoke sent].
    unfold Dome9APISDK.getCloudAccountRegions.
    unfold bind at 1, lift at 1. rewrite Hid.
    rewrite bind_quiet_sent by (intro; quiet).
    unfold Dome9APISDK.getCloudAccountId.
    unfold bind at 1, lift at 1. rewrite Hid. cbn zeta.
    erewrite request_sent; [rewrite skipn_length_app; reflexivity|].
    exact J.
Qed.

Lemma account_request_url_witness :
  let w := mkWorld (default_client sample_auth) [] in
  let url := u "https://api.dome9.com/v2/CloudAccounts/123456789012" in
  @requested (answering (Responded account_answer))
    (Invocation.call_getCloudAccountId (u "123456789012" ++ [LF])) w
  = [url] /\
  @requested (answering (Responded account_answer))
    (Invocation.call_getCloudAccountRegions (u "123456789012" ++ [LF])) w
  = [url].
Proof.
  apply (@account_request_url (answering (Responded account_answer))
           (u "123456789012" ++ [LF]) sample_auth []).
  vm_compute. reflexivity.
Defined.

(** X18. On a client of the default origin, the methods that put the
    identifier of an account in their route, once it has passed
    [_checkIsUUID], ask for the route after
    [https://api.dome9.com/v2/], the identifier in its place without the
    line feed that the check lets through. *)
Theorem uuid_request_urls {env : Environment}
        (cloudAccountId : str) (organizationalUnitId : option str)
        (regionId : Enum) (clientAuth : HTTPBasicAuth) (log : list Call) :
  _checkIsUUID (Some cloudAccountId) false = Return tt ->
  _checkIsUUID organizationalUnitId true = Return tt ->
  let w := mkWorld (default_client clientAuth) log in
  let id := remove LF cloudAccountId in
  requested (Invocation.call_updateOrganizationalUnitForAWSCloudAccount
               cloudAccountId organizationalUnitId) w
  = [u "https://api.dome9.com/v2/cloudaccounts/" ++ id
       ++ u "/organizationalUnit"] /\
  requested (Invocation.call_updateOrganizationalUnitForAzureCloudAccount
               cloudAccountId organizationalUnitId) w
  = [u "https://api.dome9.com/v2/AzureCloudAccount/" ++ id
       ++ u "/organizationalUnit"] /\
  requested (Invocation.call_getCloudSecurityGroup cloudAccountId regionId) w
  = [u "https://api.dome9.com/v2/cloudsecuritygroup/" ++ id] /\
  requested (Invocation.call_cloudAccountSyncNow cloudAccountId) w
  = [u "https://api.dome9.com/v2/cloudaccounts/" ++ id ++ u "/SyncNow"].
Proof.
  intros Hid Hou w id. subst w id.
  pose proof (checked_uuid _ Hid) as Hc.
  assert (J1 : urljoin Dome9APISDK._ORIGIN
                 (u "cloudaccounts/" ++ cloudAccountId
                    ++ u "/organizationalUnit") true
               = Return (u "https://api.dome9.com/v2/cloudaccounts/"
                           ++ remove LF cloudAccountId
                           ++ u "/organizationalUnit")).
  { apply (@urljoin_checked_id _ [u "cloudaccounts"]
             [u "organizationalUnit"] _ Hc);
      [discriminate|plain_segments|plain_segments]. }
  assert (J2 : urljoin Dome9APISDK._ORIGIN
                 (u "AzureCloudAccount/" ++ cloudAccountId
                    ++ u "/organizationalUnit") true
               = Return (u "https://api.dome9.com/v2/AzureCloudAccount/"
                           ++ remove LF cloudAccountId
                           ++ u "/organizationalUnit")).
  { apply (@urljoin_checked_id _ [u "AzureCloudAccount"] [u "organizationalUnit"] _ Hc);
      [discriminate|plain_segments|plain_segments]. }
  assert (J3 : urljoin Dome9APISDK._ORIGIN
                 (u "cloudsecuritygroup/" ++ cloudAccountId) true
               = Return (u "https://api.dome9.com/v2/cloudsecuritygroup/"
                           ++ remove LF cloudAccountId)).
  { apply (@urljoin_checked_id _ [u "cloudsecuritygroup"] [] _ Hc);
      [discriminate|plain_segments|plain_segments]. }
  assert (J4 : urljoin Dome9APISDK._ORIGIN
                 (u "cloudaccounts/" ++ cloudAccountId ++ u "/SyncNow") true
               = Return (u "https://api.dome9.com/v2/cloudaccounts/"
                           ++ remove LF cloudAccountId ++ u "/SyncNow")).
  { apply (@urljoin_checked_id _ [u "cloudaccounts"] [u "SyncNow"] _ Hc);
      [discriminate|plain_segments|plain_segments]. }
  repeat split.
  - requested_url J1.
  - requested_url J2.
  - requested_url J3.
  - requested_url J4.
Qed.

Lemma uuid_request_urls_witness :
  let w := mkWorld (default_client sample_auth) [] in
  let region := mkEnum (u "us_east_1") (VStr (u "us_east_1")) in
  @requested (answering (Responded no_content))
    (Invocation.call_updateOrganizationalUnitForAWSCloudAccount
       (sample_key ++ [LF]) None) w
  = [u "https://api.dome9.com/v2/cloudaccounts/" ++ sample_key
       ++ u "/organizationalUnit"] /\
  @requested (answering (Responded no_content))
    (Invocation.call_updateOrganizationalUnitForAzureCloudAccount
       (sample_key ++ [LF]) None) w
  = [u "https://api.dome9.com/v2/AzureCloudAccount/" ++ sample_key
       ++ u "/organizationalUnit"] /\
  @requested (answering (Responded no_content))
    (Invocation.call_getCloudSecurityGroup (sample_key ++ [LF]) region) w
  = [u "https://api.dome9.com/v2/cloudsecuritygroup/" ++ sample_key] /\
  @requested (answering (Responded no_content))
    (Invocation.call_cloudAccountSyncNow (sample_key ++ [LF])) w
  = [u "https://api.dome9.com/v2/cloudaccounts/" ++ sample_key
       ++ u "/SyncNow"].
Proof.
  apply (@uuid_request_urls (answering (Responded no_content))
           (sample_key ++ [LF]) None
           (mkEnum (u "us_east_1") (VStr (u "us_east_1"))) sample_auth []);
    vm_compute; reflexivity.
Defined.

(** * Joining a route to an origin *)

Lemma rel_char_excludes (x : codepoint) (J : str) :
  rel_char x = false -> forallb rel_char J = true ->
  contains x J = false /\ find x J = None /\ remove x J = J.
Proof.
  intros Hx HJ. repeat split.
  - exact (contains_excluded rel_char _ _ Hx HJ).
  - exact (find_excluded rel_char _ _ Hx HJ).
  - exact (remove_excluded rel_char _ _ Hx HJ).
Qed.

Lemma netloc_char_excludes (x : codepoint) (J : str) :
  netloc_char x = false -> forallb netloc_char J = true ->
  contains x J = false /\ find x J = None /\ remove x J = J.
Proof.
  intros Hx HJ. repeat split.
  - exact (contains_excluded netloc_char _ _ Hx HJ).
  - exact (find_excluded netloc_char _ _ Hx HJ).
  - exact (remove_excluded netloc_char _ _ Hx HJ).
Qed.

Lemma without_unsafe_rel (J : str) :
  forallb rel_char J = true -> without_unsafe J = J.
Proof.
  intros H. unfold without_unsafe, _UNSAFE_URL_BYTES_TO_REMOVE.
  cbn [fold_left].
  rewrite (@remove_excluded rel_char 9%N J eq_refl H).
  rewrite (@remove_excluded rel_char 13%N J eq_refl H).
  exact (@remove_excluded rel_char 10%N J eq_refl H).
Qed.

Lemma without_unsafe_netloc (J : str) :
  forallb netloc_char J = true -> without_unsafe J = J.
Proof.
  intros H. unfold without_unsafe, _UNSAFE_URL_BYTES_TO_REMOVE.
  cbn [fold_left].
  rewrite (@remove_excluded netloc_char 9%N J eq_refl H).
  rewrite (@remove_excluded netloc_char 13%N J eq_refl H).
  exact (@remove_excluded netloc_char 10%N J eq_refl H).
Qed.

Lemma rel_char_above_space (c : codepoint) :
  rel_char c = true -> _WHATWG_C0_CONTROL_OR_SPACE c = false.
Proof.
  intros H. unfold _WHATWG_C0_CONTROL_OR_SPACE.
  destruct (N.leb_spec c 32) as [L|L]; [exfalso|reflexivity].
  assert (T : forallb (fun k => negb (rel_char (N.of_nat k))) (seq 0 33)
              = true) by (vm_compute; reflexivity).
  rewrite forallb_forall in T. specialize (T (N.to_nat c)).
  rewrite N2Nat.id, H in T. discriminate T.
  apply in_seq. change N in c. lia.
Qed.

Lemma lstrip_rel (J : str) :
  forallb rel_char J = true -> lstrip _WHATWG_C0_CONTROL_OR_SPACE J = J.
Proof.
  destruct J as [|c J]; [reflexivity|]. cbn [forallb lstrip].
  intros H. apply andb_true_iff in H. destruct H as [Hc _].
  rewrite (rel_char_above_space _ Hc). reflexivity.
Qed.

Lemma netloc_ascii (netloc : str) :
  forallb netloc_char netloc = true -> isascii netloc = true.
Proof.
  unfold isascii. apply forallb_weaken. intros c H.
  apply N.ltb_lt.
  unfold netloc_char, alnum, any_of in H. cbn [existsb] in H.
  rewrite !orb_false_r, !orb_true_iff in H.
  change N in c.
  destruct H as [[H | [H | H]] | [H | [H | H]]];
    try (apply N.eqb_eq in H; subst c; reflexivity);
    apply rng_bounds in H;
    match type of H with
    | (chr ?a <= _ <= chr ?b)%N =>
        let x := eval vm_compute in (chr a) in
        let y := eval vm_compute in (chr b) in
        change (chr a) with x in H; change (chr b) with y in H
    end; lia.
Qed.

(** [urlsplit] on a path without scheme, network location, query and
    fragment *)
Lemma urlsplit_path {env : Environment} (path scheme : str) :
  web_scheme scheme -> forallb rel_char path = true ->
  str_eqb (firstn 2 path) (u "//") = false ->
  urlsplit path scheme true = Return (mkSplit scheme [] path [] []).
Proof.
  intros Hs HJ S2. unfold urlsplit.
  rewrite (lstrip_rel _ HJ). fold (without_unsafe path).
  rewrite (without_unsafe_rel _ HJ).
  destruct (rel_char_excludes (chr ":") _ eq_refl HJ) as (_ & F & _).
  destruct (rel_char_excludes (chr "#") _ eq_refl HJ) as (C1 & _ & _).
  destruct (rel_char_excludes (chr "?") _ eq_refl HJ) as (C2 & _ & _).
  rewrite F. cbv zeta. rewrite S2, C1. cbn [andb]. rewrite C2.
  destruct Hs as [-> | ->]; reflexivity.
Qed.

Lemma urlparse_path {env : Environment} (path scheme : str) :
  web_scheme scheme -> forallb rel_char path = true ->
  str_eqb (firstn 2 path) (u "//") = false ->
  urlparse path scheme true = Return (mkParse scheme [] path [] [] []).
Proof.
  intros Hs HJ S2. unfold urlparse. rewrite (@urlsplit_path _ path scheme Hs HJ S2).
  destruct (rel_char_excludes (chr ";") _ eq_refl HJ) as (C & _ & _).
  rewrite C, andb_false_r. reflexivity.
Qed.

Lemma rest_of_url (netloc J : str) :
  forallb netloc_char netloc = true -> forallb rel_char J = true ->
  let R := netloc ++ u "/" ++ J in
  without_unsafe R = R /\
  find_from (chr "/") 0 R = Some (List.length netloc) /\
  find_from (chr "?") 0 R = None /\
  find_from (chr "#") 0 R = None.
Proof.
  intros Hn HJ R. subst R.
  assert (HR : forallb (any_of [netloc_char; rel_char])
                       (netloc ++ u "/" ++ J) = true).
  { rewrite !forallb_app. apply andb_true_iff. split; [|apply andb_true_iff; split].
    - revert Hn. apply forallb_weaken. intros c H. unfold any_of.
      cbn [existsb]. rewrite H. reflexivity.
    - reflexivity.
    - revert HJ. apply forallb_weaken. intros c H. unfold any_of.
      cbn [existsb]. rewrite H. apply orb_true_r. }
  repeat split.
  - rewrite !without_unsafe_app, (without_unsafe_netloc _ Hn),
      (without_unsafe_rel _ HJ). reflexivity.
  - apply find_from_0_app.
    exact (class_excludes netloc_char (chr "/") _ eq_refl Hn).
  - exact (find_excluded _ (chr "?") _ eq_refl HR).
  - exact (find_excluded _ (chr "#") _ eq_refl HR).
Qed.

Lemma fold_unsafe (url : str) :
  fold_left (fun s b => remove b s) _UNSAFE_URL_BYTES_TO_REMOVE url
  = without_unsafe url.
Proof. reflexivity. Qed.

Lemma splitnetloc_web (netloc J : str) :
  forallb netloc_char netloc = true -> forallb rel_char J = true ->
  _splitnetloc (u "//" ++ netloc ++ u "/" ++ J) 2 = (netloc, u "/" ++ J).
Proof.
  intros Hn HJ. destruct (rest_of_url _ _ Hn HJ) as (_ & F1 & F2 & F3).
  unfold _splitnetloc. cbn [fold_left].
  change (find_from (chr "/") 2 (u "//" ++ netloc ++ u "/" ++ J))
    with (option_map S (option_map S
            (find_from (chr "/") 0 (netloc ++ u "/" ++ J)))).
  change (find_from (chr "?") 2 (u "//" ++ netloc ++ u "/" ++ J))
    with (option_map S (option_map S
            (find_from (chr "?") 0 (netloc ++ u "/" ++ J)))).
  change (find_from (chr "#") 2 (u "//" ++ netloc ++ u "/" ++ J))
    with (option_map S (option_map S
            (find_from (chr "#") 0 (netloc ++ u "/" ++ J)))).
  rewrite F1, F2, F3. cbn [option_map].
  assert (L : Nat.min (List.length (u "//" ++ netloc ++ u "/" ++ J))
                      (S (S (List.length netloc)))
              = S (S (List.length netloc))).
  { rewrite !length_app. simpl. lia. }
  rewrite L.
  change (firstn (S (S (List.length netloc)))
                 (u "//" ++ netloc ++ u "/" ++ J))
    with (chr "/" :: chr "/"
            :: firstn (List.length netloc) (netloc ++ u "/" ++ J)).
  change (skipn (S (S (List.length netloc)))
                (u "//" ++ netloc ++ u "/" ++ J))
    with (skipn (List.length netloc) (netloc ++ u "/" ++ J)).
  rewrite firstn_length_app, skipn_length_app. reflexivity.
Qed.

Lemma checknetloc_web {env : Environment} (netloc : str) :
  forallb netloc_char netloc = true -> _checknetloc netloc = Return tt.
Proof.
  intros H. unfold _checknetloc. rewrite (netloc_ascii _ H), orb_true_r.
  reflexivity.
Qed.

(** [urlsplit] on a URL of the web without query and fragment *)
Lemma urlsplit_web {env : Environment} (scheme netloc J default : str) :
  web_scheme scheme ->
  forallb netloc_char netloc = true -> forallb rel_char J = true ->
  urlsplit (scheme ++ u "://" ++ netloc ++ u "/" ++ J) default true =
  Return (mkSplit scheme netloc (u "/" ++ J) [] []).
Proof.
  intros Hs Hn HJ.
  destruct (rest_of_url _ _ Hn HJ) as (HR & _).
  pose proof (splitnetloc_web _ _ Hn HJ) as SN.
  assert (HP : forallb rel_char (u "/" ++ J) = true) by exact HJ.
  destruct (netloc_char_excludes (chr "[") _ eq_refl Hn) as (B1 & _).
  destruct (netloc_char_excludes (chr "]") _ eq_refl Hn) as (B2 & _).
  destruct (rel_char_excludes (chr "#") _ eq_refl HP) as (C1 & _).
  destruct (rel_char_excludes (chr "?") _ eq_refl HP) as (C2 & _).
  pose proof (checknetloc_web _ Hn) as CN.
  change (chr "[") with 91%N in B1. change (chr "]") with 93%N in B2.
  change (chr "#") with 35%N in C1. change (chr "?") with 63%N in C2.
  set (R := netloc ++ u "/" ++ J) in *.
  destruct Hs as [-> | ->].
  - change (u "http" ++ u "://" ++ R) with (u "http://" ++ R).
    unfold urlsplit.
    replace (lstrip _WHATWG_C0_CONTROL_OR_SPACE (u "http://" ++ R))
      with (u "http://" ++ R) by reflexivity.
    rewrite !fold_unsafe, without_unsafe_app, HR.
    change (without_unsafe (u "http://")) with (u "http://").
    change (find (chr ":") (u "http://" ++ R)) with (Some 4).
    cbn -[_splitnetloc contains partition _checknetloc
          _check_bracketed_netloc R].
    match goal with
    | |- context [_splitnetloc ?x 2] =>
        replace (_splitnetloc x 2) with (netloc, u "/" ++ J)
          by (symmetry; exact SN)
    end.
    cbv zeta iota beta. rewrite B1, B2. cbn [andb orb negb].
    cbv iota. rewrite C1, C2, CN. reflexivity.
  - change (u "https" ++ u "://" ++ R) with (u "https://" ++ R).
    unfold urlsplit.
    replace (lstrip _WHATWG_C0_CONTROL_OR_SPACE (u "https://" ++ R))
      with (u "https://" ++ R) by reflexivity.
    rewrite !fold_unsafe, without_unsafe_app, HR.
    change (without_unsafe (u "https://")) with (u "https://").
    change (find (chr ":") (u "https://" ++ R)) with (Some 5).
    cbn -[_splitnetloc contains partition _checknetloc
          _check_bracketed_netloc R].
    match goal with
    | |- context [_splitnetloc ?x 2] =>
        replace (_splitnetloc x 2) with (netloc, u "/" ++ J)
          by (symmetry; exact SN)
    end.
    cbv zeta iota beta. rewrite B1, B2. cbn [andb orb negb].
    cbv iota. rewrite C1, C2, CN. reflexivity.
Qed.

Lemma urlparse_web {env : Environment} (scheme netloc J default : str) :
  web_scheme scheme ->
  forallb netloc_char netloc = true -> forallb rel_char J = true ->
  urlparse (scheme ++ u "://" ++ netloc ++ u "/" ++ J) default true =
  Return (mkParse scheme netloc (u "/" ++ J) [] [] []).
Proof.
  intros Hs Hn HJ. unfold urlparse.
  rewrite (@urlsplit_web _ scheme netloc J default Hs Hn HJ).
  assert (HP : forallb rel_char (u "/" ++ J) = true) by exact HJ.
  destruct (rel_char_excludes (chr ";") _ eq_refl HP) as (C & _).
  rewrite C, andb_false_r. reflexivity.
Qed.

(** [urlunparse] of a scheme, a network location and a path *)
Lemma urlunparse_web (scheme netloc path : str) :
  web_scheme scheme -> nonempty netloc = true ->
  urlunparse (mkParse scheme netloc (u "/" ++ path) [] [] [])
  = scheme ++ u "://" ++ netloc ++ u "/" ++ path.
Proof.
  intros Hs Hn. unfold urlunparse, urlunsplit. cbn [nonempty].
  rewrite Hn. cbn [orb]. cbv zeta.
  destruct Hs as [-> | ->]; reflexivity.
Qed.

Lemma urlunparse_web_relative (scheme netloc : str) (c : codepoint)
      (path : str) :
  web_scheme scheme -> nonempty netloc = true -> plain c = true ->
  urlunparse (mkParse scheme netloc (c :: path) [] [] [])
  = scheme ++ u "://" ++ netloc ++ u "/" ++ c :: path.
Proof.
  intros Hs Hn Hc. unfold urlunparse, urlunsplit. cbn [nonempty].
  rewrite Hn. cbn [orb]. cbv zeta.
  assert (S1 : str_eqb (firstn 1 (c :: path)) (u "/") = false).
  { destruct (str_eqb _ _) eqn:E; [|reflexivity].
    apply str_eqb_eq in E. inversion E; subst. discriminate Hc. }
  rewrite S1. destruct Hs as [-> | ->]; reflexivity.
Qed.

(** [urljoin] of a base of the web and of a path *)
Lemma urljoin_web_path {env : Environment}
      (scheme netloc bpath path : str) :
  web_scheme scheme -> nonempty netloc = true ->
  forallb netloc_char netloc = true -> forallb rel_char bpath = true ->
  nonempty path = true -> forallb rel_char path = true ->
  str_eqb (firstn 2 path) (u "//") = false ->
  urljoin (scheme ++ u "://" ++ netloc ++ u "/" ++ bpath) path true =
  Return (urlunparse
            (mkParse scheme netloc (joined_path (u "/" ++ bpath) path)
                     [] [] [])).
Proof.
  intros Hs Hne Hn Hb Hp Hr S2. unfold urljoin.
  assert (Hbase : nonempty (scheme ++ u "://" ++ netloc ++ u "/" ++ bpath)
                  = true) by (destruct Hs as [-> | ->]; reflexivity).
  rewrite Hbase, Hp. cbn [negb]. cbv iota.
  rewrite (@urlparse_web _ scheme netloc bpath [] Hs Hn Hb).
  rewrite (@urlparse_path _ path scheme Hs Hr S2).
  rewrite Hp. cbn [nonempty andb negb].
  assert (Hs1 : negb (str_eqb scheme scheme)
                || negb (str_in scheme uses_relative) = false)
    by (destruct Hs as [-> | ->]; reflexivity).
  assert (Hs2 : str_in scheme uses_netloc = true)
    by (destruct Hs as [-> | ->]; reflexivity).
  rewrite Hs1, Hs2. cbn [andb]. cbv iota. reflexivity.
Qed.

(** ** The path of the joined URL *)

Lemma split_join_segments (segs : list str) :
  segs <> [] ->
  Forall (fun g => forallb (fun c => negb (N.eqb c (chr "/"))) g = true)
         segs ->
  split (chr "/") (join (u "/") segs) = segs.
Proof.
  intros Hn H. induction H as [|g rest Hg Hrest IH]; [contradiction|].
  destruct rest as [|g2 rest].
  - simpl. apply split_without. exact Hg.
  - change (join (u "/") (g :: g2 :: rest))
      with (g ++ chr "/" :: join (u "/") (g2 :: rest)).
    rewrite split_app_sep by exact Hg.
    rewrite IH; [reflexivity|discriminate].
Qed.

Lemma plain_segments_no_slash (segs : list str) :
  Forall (fun g => plain_segment g = true) segs ->
  Forall (fun g => forallb (fun c => negb (N.eqb c (chr "/"))) g = true)
         segs.
Proof.
  apply Forall_impl. intros g H. apply plain_segment_spec in H.
  apply plain_no_slash, H.
Qed.

Lemma plain_segments_nonempty (segs : list str) :
  Forall (fun g => plain_segment g = true) segs ->
  Forall (fun g => nonempty g = true) segs.
Proof.
  apply Forall_impl. intros g H. unfold plain_segment in H.
  apply andb_true_iff in H. tauto.
Qed.

Lemma filter_nonempty (segs : list str) :
  Forall (fun g => nonempty g = true) segs ->
  filter (@nonempty codepoint) segs = segs.
Proof.
  induction 1 as [|g rest Hg _ IH]; simpl; [reflexivity|].
  rewrite Hg, IH. reflexivity.
Qed.

Lemma last_app_nonempty {A : Type} (l t : list A) (d : A) :
  t <> [] -> last (l ++ t) d = last t d.
Proof.
  intros Ht. destruct (exists_last Ht) as (t' & a & ->).
  rewrite app_assoc, !last_last. reflexivity.
Qed.

Lemma removelast_app_nonempty {A : Type} (l t : list A) :
  t <> [] -> removelast (l ++ t) = l ++ removelast t.
Proof. apply removelast_app. Qed.

(** The segments of the base without its last one, then those of the
    route: what [filter_middle] leaves when the base ends with [/], and
    when its last segment has been dropped. *)
Lemma filter_middle_merge (dirs segs : list str) (file : str) :
  Forall (fun g => nonempty g = true) dirs ->
  Forall (fun g => nonempty g = true) segs -> segs <> [] ->
  filter_middle
    ((if negb (str_eqb (last ([] :: dirs ++ [file]) []) [])
      then removelast ([] :: dirs ++ [file]) else [] :: dirs ++ [file])
       ++ segs)
  = [] :: dirs ++ segs.
Proof.
  intros Hd Hs Hn.
  assert (L : last ([] :: dirs ++ [file]) [] = file).
  { change ([] :: dirs ++ [file]) with (([] :: dirs) ++ [file]).
    apply last_last. }
  assert (RL : removelast ([] :: dirs ++ [file]) = [] :: dirs).
  { change ([] :: dirs ++ [file]) with (([] :: dirs) ++ [file]).
    apply removelast_last. }
  rewrite L, RL.
  assert (E : exists rest, rest <> [] /\
                filter (@nonempty codepoint) (removelast rest)
                  ++ [last rest []] = dirs ++ segs /\
                (if negb (str_eqb file []) then [] :: dirs
                 else [] :: dirs ++ [file]) ++ segs = [] :: rest).
  { destruct (str_eqb file []) eqn:Ef; cbn [negb].
    - apply str_eqb_eq in Ef. subst file.
      exists (dirs ++ [[]] ++ segs). repeat split.
      + destruct dirs; discriminate.
      + rewrite app_assoc, removelast_app_nonempty by exact Hn.
        rewrite last_app_nonempty by exact Hn.
        rewrite !filter_app. cbn [filter nonempty].
        rewrite (filter_nonempty Hd), app_nil_r, <- app_assoc.
        rewrite (filter_nonempty (Forall_removelast Hs)).
        f_equal. symmetry. apply app_removelast_last. exact Hn.
      + cbn [app]. rewrite <- app_assoc. reflexivity.
    - exists (dirs ++ segs). repeat split.
      + destruct dirs, segs; try discriminate. contradiction.
      + rewrite removelast_app_nonempty by exact Hn.
        rewrite last_app_nonempty by exact Hn.
        rewrite filter_app, (filter_nonempty Hd),
          (filter_nonempty (Forall_removelast Hs)), <- app_assoc.
        f_equal. symmetry. apply app_removelast_last. exact Hn. }
  destruct E as (rest & Hr & E1 & ->).
  unfold filter_middle. destruct rest as [|r rest]; [contradiction|].
  cbv iota. f_equal. exact E1.
Qed.

Lemma resolve_app (a b resolved : list str) :
  resolve (a ++ b) resolved = resolve b (resolve a resolved).
Proof.
  revert resolved. induction a as [|g a IH]; intros resolved; simpl;
    [reflexivity|].
  destruct (str_eqb g (u "..")); [apply IH|].
  destruct (str_eqb g (u ".")); apply IH.
Qed.

Lemma join_root (segs : list str) :
  segs <> [] -> join (u "/") ([] :: segs) = u "/" ++ join (u "/") segs.
Proof. destruct segs; [contradiction|reflexivity]. Qed.

Lemma plain_rel (g : str) :
  forallb plain g = true -> forallb rel_char g = true.
Proof.
  apply forallb_weaken. intros c H. unfold rel_char, any_of.
  cbn [existsb]. rewrite H. reflexivity.
Qed.

Lemma join_rel_chars (segs : list str) :
  Forall (fun g => forallb rel_char g = true) segs ->
  forallb rel_char (join (u "/") segs) = true.
Proof.
  induction 1 as [|g rest Hg _ IH]; [reflexivity|].
  destruct rest as [|g2 rest]; [exact Hg|].
  change (join (u "/") (g :: g2 :: rest))
    with (g ++ u "/" ++ join (u "/") (g2 :: rest)).
  rewrite !forallb_app, Hg, IH. reflexivity.
Qed.

Lemma plain_segments_rel (segs : list str) :
  Forall (fun g => plain_segment g = true) segs ->
  Forall (fun g => forallb rel_char g = true) segs.
Proof.
  apply Forall_impl. intros g H. apply plain_segment_spec in H.
  apply plain_rel, H.
Qed.

Lemma file_no_slash (file : str) :
  file = [] \/ plain_segment file = true ->
  forallb (fun c => negb (N.eqb c (chr "/"))) file = true /\
  forallb rel_char file = true.
Proof.
  intros [-> | H]; [split; reflexivity|].
  apply plain_segment_spec in H. destruct H as [_ H]. split.
  - apply plain_no_slash, H.
  - apply plain_rel, H.
Qed.

Lemma base_path_parts (dirs : list str) (file : str) :
  Forall (fun g => plain_segment g = true) dirs ->
  file = [] \/ plain_segment file = true ->
  split (chr "/") (u "/" ++ join (u "/") (dirs ++ [file]))
  = [] :: dirs ++ [file] /\
  forallb rel_char (join (u "/") (dirs ++ [file])) = true.
Proof.
  intros Hd Hf. destruct (file_no_slash Hf) as [F1 F2]. split.
  - rewrite <- join_root by (destruct dirs; discriminate).
    apply split_join_segments; [discriminate|].
    constructor; [reflexivity|]. apply Forall_app. split.
    + apply plain_segments_no_slash, Hd.
    + constructor; [exact F1|constructor].
  - apply join_rel_chars, Forall_app. split.
    + apply plain_segments_rel, Hd.
    + constructor; [exact F2|constructor].
Qed.

Lemma resolve_base (dirs : list str) :
  Forall (fun g => plain_segment g = true) dirs ->
  resolve ([] :: dirs) [] = [] :: dirs.
Proof.
  intros Hd. change (resolve ([] :: dirs) []) with (resolve dirs [[]]).
  apply (resolve_plain Hd).
Qed.

(** The path of the base, without its last segment, followed by the
    segments of a relative path, [..] and [.] resolved. *)
Lemma joined_path_relative (dirs : list str) (file : str)
      (segs : list str) :
  Forall (fun g => plain_segment g = true) dirs ->
  file = [] \/ plain_segment file = true ->
  segs <> [] ->
  Forall (fun g => nonempty g = true) segs ->
  Forall (fun g => forallb (fun c => negb (N.eqb c (chr "/"))) g = true)
         segs ->
  str_in (last segs []) [u "."; u ".."] = false ->
  nonempty (join (u "/") (resolve segs ([] :: dirs))) = true ->
  joined_path (u "/" ++ join (u "/") (dirs ++ [file])) (join (u "/") segs)
  = join (u "/") (resolve segs ([] :: dirs)).
Proof.
  intros Hd Hf Hn Hne Hns Hl Hj. unfold joined_path.
  destruct (base_path_parts Hd Hf) as [-> _].
  rewrite (split_join_segments Hn Hns).
  assert (S1 : str_eqb (firstn 1 (join (u "/") segs)) (u "/") = false).
  { destruct segs as [|g rest]; [contradiction|].
    inversion Hne as [|? ? Hg _]; subst.
    inversion Hns as [|? ? Hs _]; subst.
    destruct g as [|c g]; [discriminate Hg|].
    cbn [forallb] in Hs. apply andb_true_iff in Hs. destruct Hs as [Hc _].
    apply negb_true_iff, N.eqb_neq in Hc.
    destruct rest; cbn [join app firstn];
      (destruct (str_eqb _ _) eqn:E; [|reflexivity]);
      apply str_eqb_eq in E; inversion E; contradiction. }
  rewrite S1.
  match goal with
  | |- context [filter_middle ?x] =>
      replace (filter_middle x) with ([] :: dirs ++ segs)
        by (symmetry;
            exact (filter_middle_merge file (plain_segments_nonempty Hd)
                                       Hne Hn))
  end.
  change ([] :: dirs ++ segs) with (([] :: dirs) ++ segs).
  rewrite (last_app_nonempty _ _ Hn), Hl, resolve_app, (resolve_base Hd), Hj.
  reflexivity.
Qed.

(** An absolute path replaces the path of the base. *)
Lemma joined_path_absolute (bpath : str) (segs : list str) :
  segs <> [] -> Forall (fun g => plain_segment g = true) segs ->
  joined_path bpath (u "/" ++ join (u "/") segs)
  = u "/" ++ join (u "/") segs.
Proof.
  intros Hn Hs. unfold joined_path.
  change (str_eqb (firstn 1 (u "/" ++ join (u "/") segs)) (u "/"))
    with true.
  cbv iota. rewrite <- (join_root Hn).
  rewrite split_join_segments;
    [|discriminate
     |constructor; [reflexivity|apply plain_segments_no_slash, Hs]].
  change (last ([] :: segs) []) with (last ([[]] ++ segs) []).
  rewrite (last_app_nonempty _ _ Hn).
  assert (Hl : plain_segment (last segs []) = true).
  { rewrite Forall_forall in Hs. apply Hs.
    destruct (exists_last Hn) as (l' & a & ->). rewrite last_last.
    apply in_or_app. right. left. reflexivity. }
  destruct (plain_not_dots _ Hl) as [D2 D1].
  unfold str_in. cbn [existsb]. rewrite D1, D2. cbn [orb].
  rewrite (resolve_base Hs), (join_root Hn). reflexivity.
Qed.

(** ** Standard URL-join *)

Lemma not_double_slash (c : codepoint) (t : str) :
  N.eqb c (chr "/") = false ->
  str_eqb (firstn 2 (c :: t)) (u "//") = false.
Proof.
  intros Hc. destruct (str_eqb _ _) eqn:E; [|reflexivity].
  apply str_eqb_eq in E. cbn [firstn] in E. inversion E; subst.
  discriminate Hc.
Qed.

Lemma last_plain (segs : list str) :
  segs <> [] -> Forall (fun g => plain_segment g = true) segs ->
  str_in (last segs []) [u "."; u ".."] = false.
Proof.
  intros Hn Hs.
  assert (Hl : plain_segment (last segs []) = true).
  { rewrite Forall_forall in Hs. apply Hs.
    destruct (exists_last Hn) as (l' & a & ->). rewrite last_last.
    apply in_or_app. right. left. reflexivity. }
  destruct (plain_not_dots _ Hl) as [D2 D1].
  unfold str_in. cbn [existsb]. rewrite D1, D2. reflexivity.
Qed.

Section Join.

Context {env : Environment}.

Variables (scheme netloc : str) (dirs : list str) (file : str).
Variable segs : list str.

Hypothesis Hscheme : web_scheme scheme.
Hypothesis Hnonempty : nonempty netloc = true.
Hypothesis Hnetloc : forallb netloc_char netloc = true.
Hypothesis Hdirs : Forall (fun g => plain_segment g = true) dirs.
Hypothesis Hfile : file = [] \/ plain_segment file = true.
Hypothesis Hsome : segs <> [].
Hypothesis Hsegs : Forall (fun g => plain_segment g = true) segs.

Let root : str := scheme ++ u "://" ++ netloc ++ u "/".
Let base : str := root ++ join (u "/") (dirs ++ [file]).

Lemma base_root : base = scheme ++ u "://" ++ netloc ++ u "/"
                           ++ join (u "/") (dirs ++ [file]).
Proof. unfold base, root. rewrite <- !app_assoc. reflexivity. Qed.

Lemma root_path (path : str) :
  scheme ++ u "://" ++ netloc ++ u "/" ++ path = root ++ path.
Proof. unfold root. rewrite <- !app_assoc. reflexivity. Qed.

(** A relative route of segments, the first of which may be [..] or [.] *)
Lemma urljoin_segments (rsegs : list str) :
  rsegs <> [] ->
  Forall (fun g => nonempty g = true) rsegs ->
  Forall (fun g => forallb rel_char g = true) rsegs ->
  Forall (fun g => forallb (fun c => negb (N.eqb c (chr "/"))) g = true)
         rsegs ->
  str_in (last rsegs []) [u "."; u ".."] = false ->
  nonempty (join (u "/") (resolve rsegs ([] :: dirs))) = true ->
  urljoin base (join (u "/") rsegs) true =
  Return (urlunparse
            (mkParse scheme netloc
                     (join (u "/") (resolve rsegs ([] :: dirs)))
                     [] [] [])).
Proof.
  intros Hn Hne Hr Hns Hl Hj. rewrite base_root.
  destruct (base_path_parts Hdirs Hfile) as [_ Hb].
  assert (E : exists c t, join (u "/") rsegs = c :: t /\
                          N.eqb c (chr "/") = false).
  { destruct rsegs as [|g rest]; [contradiction|].
    inversion Hne as [|? ? Hg _]; subst.
    inversion Hns as [|? ? Hs _]; subst.
    destruct g as [|c g]; [discriminate Hg|].
    cbn [forallb] in Hs. apply andb_true_iff in Hs. destruct Hs as [Hc _].
    apply negb_true_iff in Hc.
    destruct rest; cbn [join app]; eauto. }
  destruct E as (c & t & E & Hc).
  rewrite urljoin_web_path; try assumption.
  - rewrite (joined_path_relative Hdirs Hfile Hn Hne Hns Hl Hj).
    reflexivity.
  - rewrite E. reflexivity.
  - apply join_rel_chars, Hr.
  - rewrite E. apply not_double_slash, Hc.
Qed.

Lemma urljoin_relative :
  urljoin base (join (u "/") segs) true =
  Return (root ++ join (u "/") (dirs ++ segs)).
Proof.
  assert (R : resolve segs ([] :: dirs) = [] :: dirs ++ segs)
    by apply (resolve_plain Hsegs).
  assert (Hds : dirs ++ segs <> [])
    by (destruct dirs, segs; try discriminate; contradiction).
  rewrite urljoin_segments.
  - rewrite R, (join_root Hds), (@urlunparse_web scheme netloc _ Hscheme Hnonempty).
    apply f_equal, root_path.
  - exact Hsome.
  - apply plain_segments_nonempty, Hsegs.
  - apply plain_segments_rel, Hsegs.
  - apply plain_segments_no_slash, Hsegs.
  - apply (last_plain Hsome Hsegs).
  - rewrite R, (join_root Hds). reflexivity.
Qed.

Lemma urljoin_dot :
  urljoin base (join (u "/") (u "." :: segs)) true =
  Return (root ++ join (u "/") (dirs ++ segs)).
Proof.
  assert (R : resolve (u "." :: segs) ([] :: dirs) = [] :: dirs ++ segs)
    by apply (resolve_plain Hsegs).
  assert (Hds : dirs ++ segs <> [])
    by (destruct dirs, segs; try discriminate; contradiction).
  rewrite urljoin_segments.
  - rewrite R, (join_root Hds), (@urlunparse_web scheme netloc _ Hscheme Hnonempty).
    apply f_equal, root_path.
  - discriminate.
  - constructor; [reflexivity|apply plain_segments_nonempty, Hsegs].
  - constructor; [reflexivity|apply plain_segments_rel, Hsegs].
  - constructor; [reflexivity|apply plain_segments_no_slash, Hsegs].
  - change (u "." :: segs) with ([u "."] ++ segs).
    rewrite (last_app_nonempty _ _ Hsome). apply (last_plain Hsome Hsegs).
  - rewrite R, (join_root Hds). reflexivity.
Qed.

Lemma urljoin_dot_dot :
  urljoin base (join (u "/") (u ".." :: segs)) true =
  Return (root ++ join (u "/") (removelast dirs ++ segs)).
Proof.
  assert (R : resolve (u ".." :: segs) ([] :: dirs)
              = removelast ([] :: dirs) ++ segs)
    by apply (resolve_plain Hsegs).
  destruct (join_starts_plain Hsome Hsegs) as (c & J & EJ & Hc).
  rewrite urljoin_segments.
  - rewrite R. destruct dirs as [|d ds].
    + cbn [removelast app]. rewrite EJ.
      rewrite (@urlunparse_web_relative scheme netloc c _ Hscheme Hnonempty Hc).
      apply f_equal, root_path.
    + change (removelast ([] :: d :: ds)) with ([] :: removelast (d :: ds)).
      change (([] :: removelast (d :: ds)) ++ segs)
        with ([] :: removelast (d :: ds) ++ segs).
      assert (Hds : removelast (d :: ds) ++ segs <> [])
        by (destruct (removelast (d :: ds)), segs; try discriminate;
            contradiction).
      rewrite (join_root Hds), (@urlunparse_web scheme netloc _ Hscheme Hnonempty).
      apply f_equal, root_path.
  - discriminate.
  - constructor; [reflexivity|apply plain_segments_nonempty, Hsegs].
  - constructor; [reflexivity|apply plain_segments_rel, Hsegs].
  - constructor; [reflexivity|apply plain_segments_no_slash, Hsegs].
  - change (u ".." :: segs) with ([u ".."] ++ segs).
    rewrite (last_app_nonempty _ _ Hsome). apply (last_plain Hsome Hsegs).
  - rewrite R. destruct dirs as [|d ds].
    + cbn [removelast app]. rewrite EJ. reflexivity.
    + change (removelast ([] :: d :: ds)) with ([] :: removelast (d :: ds)).
      change (([] :: removelast (d :: ds)) ++ segs)
        with ([] :: removelast (d :: ds) ++ segs).
      assert (Hds : removelast (d :: ds) ++ segs <> [])
        by (destruct (removelast (d :: ds)), segs; try discriminate;
            contradiction).
      rewrite (join_root Hds). reflexivity.
Qed.

Lemma urljoin_absolute_path :
  urljoin base (u "/" ++ join (u "/") segs) true =
  Return (root ++ join (u "/") segs).
Proof.
  rewrite base_root.
  destruct (base_path_parts Hdirs Hfile) as [_ Hb].
  destruct (join_starts_plain Hsome Hsegs) as (c & J & EJ & Hc).
  assert (Hr : forallb rel_char (join (u "/") segs) = true)
    by apply join_rel_chars, plain_segments_rel, Hsegs.
  rewrite urljoin_web_path; try assumption.
  - rewrite (@joined_path_absolute _ segs Hsome Hsegs),
      (@urlunparse_web scheme netloc _ Hscheme Hnonempty).
    apply f_equal, root_path.
  - reflexivity.
  - rewrite EJ. destruct (str_eqb _ _) eqn:E; [|reflexivity].
    apply str_eqb_eq in E. inversion E; subst. discriminate Hc.
Qed.

Lemma urljoin_absolute_url (scheme' netloc' : str) :
  web_scheme scheme' -> nonempty netloc' = true ->
  forallb netloc_char netloc' = true ->
  urljoin base (scheme' ++ u "://" ++ netloc' ++ u "/"
                  ++ join (u "/") segs) true =
  Return (scheme' ++ u "://" ++ netloc' ++ u "/" ++ join (u "/") segs).
Proof.
  intros Hs' Hne' Hn'. rewrite base_root.
  destruct (base_path_parts Hdirs Hfile) as [_ Hb].
  assert (Hr : forallb rel_char (join (u "/") segs) = true)
    by apply join_rel_chars, plain_segments_rel, Hsegs.
  unfold urljoin.
  assert (Hbase : nonempty (scheme ++ u "://" ++ netloc ++ u "/"
                              ++ join (u "/") (dirs ++ [file])) = true)
    by (destruct Hscheme as [-> | ->]; reflexivity).
  assert (Hurl : nonempty (scheme' ++ u "://" ++ netloc' ++ u "/"
                             ++ join (u "/") segs) = true)
    by (destruct Hs' as [-> | ->]; reflexivity).
  rewrite Hbase, Hurl. cbn [negb]. cbv iota.
  rewrite (@urlparse_web _ scheme netloc _ [] Hscheme Hnetloc Hb).
  rewrite (@urlparse_web _ scheme' netloc' _ scheme Hs' Hn' Hr).
  rewrite Hne'.
  rewrite (@urlunparse_web scheme' netloc' _ Hs' Hne').
  destruct Hscheme as [-> | ->], Hs' as [-> | ->]; reflexivity.
Qed.

Lemma urljoin_empty : urljoin base [] true = Return base.
Proof.
  rewrite base_root. unfold urljoin.
  destruct Hscheme as [-> | ->]; reflexivity.
Qed.

End Join.

(** ** The URL of a request *)

(** C8. [_request] calls [requests] with the URL that [urljoin] makes of
    the origin of the client and of the route, and raises what [urljoin]
    raises without calling; joining [https://api.example.com/v2/] and
    [CloudAccounts/123] gives [https://api.example.com/v2/CloudAccounts/123].
    [urljoin] is the standard join of URLs. Take a base of scheme [http] or
    [https], with a host (and port), and a path of plain segments [dirs]
    that ends with [/] or with one more segment [file], and take plain
    segments [segs], not none. Then: the relative route [segs] replaces
    [file] and comes after [dirs]; a leading [.] changes nothing and a
    leading [..] drops the last of [dirs], if there is one; the absolute
    path [/segs] replaces the whole path of the base; a route that is itself
    a URL with a scheme and a host is the result as it is; the empty route
    gives the base. *)
Theorem request_url
        (env : Environment) (method : Dome9APISDK._RequestMethods)
        (route : str) (body params : value) (origin : str)
        (clientAuth : HTTPBasicAuth) (log : list Call) :
  match urljoin origin route true with
  | Return url =>
      sent (snd (Dome9APISDK._request method route body params
                   (mkWorld (Dome9APISDK.mkInstance (Some origin)
                                                    (Some clientAuth)) log)))
      = log ++ [mkCall (Dome9APISDK.method_value method) url body params
                       json_headers clientAuth]
  | Raise e =>
      Dome9APISDK._request method route body params
        (mkWorld (Dome9APISDK.mkInstance (Some origin) (Some clientAuth)) log)
      = (Raise e,
         mkWorld (Dome9APISDK.mkInstance (Some origin) (Some clientAuth)) log)
  end /\
  urljoin (u "https://api.example.com/v2/") (u "CloudAccounts/123") true
  = Return (u "https://api.example.com/v2/CloudAccounts/123") /\
  forall (scheme netloc : str) (dirs : list str) (file : str)
         (segs : list str),
    web_scheme scheme ->
    nonempty netloc = true -> forallb netloc_char netloc = true ->
    Forall (fun g => plain_segment g = true) dirs ->
    file = [] \/ plain_segment file = true ->
    segs <> [] -> Forall (fun g => plain_segment g = true) segs ->
    let root := scheme ++ u "://" ++ netloc ++ u "/" in
    let base := root ++ join (u "/") (dirs ++ [file]) in
    urljoin base (join (u "/") segs) true
    = Return (root ++ join (u "/") (dirs ++ segs)) /\
    urljoin base (join (u "/") (u "." :: segs)) true
    = Return (root ++ join (u "/") (dirs ++ segs)) /\
    urljoin base (join (u "/") (u ".." :: segs)) true
    = Return (root ++ join (u "/") (removelast dirs ++ segs)) /\
    urljoin base (u "/" ++ join (u "/") segs) true
    = Return (root ++ join (u "/") segs) /\
    (forall scheme' netloc' : str,
        web_scheme scheme' ->
        nonempty netloc' = true -> forallb netloc_char netloc' = true ->
        let url :=
          scheme' ++ u "://" ++ netloc' ++ u "/" ++ join (u "/") segs in
        urljoin base url true = Return url) /\
    urljoin base [] true = Return base.
Proof.
  split; [|split; [vm_compute; reflexivity|]].
  - rewrite request_run.
    destruct (urljoin origin route true) as [url|e]; [|reflexivity].
    cbn zeta. destruct (requests_call log _) as [r|e].
    + destruct (in_range (status_code r) 200 299); [|reflexivity].
      destruct (nonempty (content r)); [|reflexivity].
      destruct (as_json r); reflexivity.
    + destruct e as [| | | |cls text|]; try reflexivity.
      destruct (is_ConnectionError cls); reflexivity.
  - intros scheme netloc dirs file segs Hs Hne Hn Hd Hf Hsome Hsegs
           root base.
    subst root base. repeat split.
    + apply urljoin_relative; assumption.
    + apply urljoin_dot; assumption.
    + apply urljoin_dot_dot; assumption.
    + apply urljoin_absolute_path; assumption.
    + intros scheme' netloc' Hs' Hne' Hn' url. subst url.
      apply urljoin_absolute_url; assumption.
    + apply urljoin_empty. exact Hs.
Qed.

Lemma request_url_witness :
  let env := answering (Responded no_content) in
  let base := u "https://api.example.com/v2/users" in
  @urljoin env base (u "CloudAccounts/123") true
  = Return (u "https://api.example.com/v2/CloudAccounts/123") /\
  @urljoin env base (u "./CloudAccounts/123") true
  = Return (u "https://api.example.com/v2/CloudAccounts/123") /\
  @urljoin env base (u "../CloudAccounts/123") true
  = Return (u "https://api.example.com/CloudAccounts/123") /\
  @urljoin env base (u "/CloudAccounts/123") true
  = Return (u "https://api.example.com/CloudAccounts/123").
Proof.
  intros env base.
  pose proof
    (proj2 (proj2 (request_url env Dome9APISDK.GET [] VNone VNone []
                               sample_auth []))
       (u "https") (u "api.example.com") [u "v2"] (u "users")
       [u "CloudAccounts"; u "123"]) as W.
  destruct W as (A & B & C & D & _).
  - right. reflexivity.
  - reflexivity.
  - reflexivity.
  - repeat constructor.
  - right. reflexivity.
  - discriminate.
  - repeat constructor.
  - split; [exact A|split; [exact B|split; [exact C|exact D]]].
Defined.
